(** * Categorical association analysis and chart helpers

    A shallow embedding of [categorical_association.py] and of the four
    chart functions of [plotter.py].

    Numbers.  The Python code computes with NumPy [float64] values.  They are
    idealised here as exact rationals ([Qc], canonical fractions, so that
    equality is Leibniz equality) extended with the three special values a
    division by zero can produce: [PInf], [NInf] and [NaN].  Rounding, the
    overflow of large floats to infinity and the sign of zero are not
    modelled.  [np.sqrt] of a non-negative rational [q] is kept exact as the
    surd [Sqrt q].  A table of counts usually has the dtype [int64]:
    [np.sum] and [n * k] then wrap modulo [2^64].  The model adds and
    multiplies exactly; the properties that depend on the value of [n], or
    on the call returning a finite value, are stated for tables of whole
    counts ([whole_counts]) with a total below [2^63] ([fits_int64]),
    where nothing wraps, overflows or underflows.

    Library calls.  [scipy.stats.chi2_contingency] is not part of the
    repository; it is embedded from SciPy's implementation
    (scipy/stats/contingency.py: [margins], [expected_freq],
    [chi2_contingency], and [power_divergence] with its default
    [lambda_ = 1]), called as the repository calls it, with the default
    [correction=True].  The chi-square survival function
    [scipy.stats.chi2.sf] is transcendental and stays a parameter of the
    development.

    Data frames.  A [pandas.DataFrame] is a list of column labels and a
    list of rows of cells, a cell being a number, a string or a missing
    value ([NaN]); the properties of the charts are stated for frames with
    distinct labels and rows of the right width ([wf_frame]).  A missing
    value equals nothing under [==], is one of the values of [unique()],
    is left out by [value_counts()] and sorts last.  Missing labels raise
    [KeyError], sorting by a label that several columns carry raises
    [ValueError], and sorting a column that mixes numbers and strings
    raises [TypeError].  pandas leaves the order of rows with equal sort
    keys open: the properties proved of the sorted output hold for every
    such order.  A plotly figure is the list of its traces and its
    layout. *)

From Stdlib Require Import ZArith QArith Qcanon Bool String Ascii List Lia.
From Stdlib Require Import Permutation Sorted.
Import ListNotations.

Set Implicit Arguments.
Local Open Scope string_scope.
Local Open Scope list_scope.

(** ** Exceptions and results *)

(** [KeyError] comes in the three forms pandas gives it: for a single
    label that is not a column, [KeyError: 'a']; for a list of labels of
    which some are not columns, [KeyError: "['a', 'b'] not in index"],
    naming the missing ones; and for a list of labels none of which is a
    column, [KeyError: "None of [Index([...])] are in the [columns]"],
    naming them all. *)
Inductive exn : Type :=
| ValueError
| NameError (name : string)
| TypeError
| IndexError
| KeyError (key : string)
| KeyErrorNotInIndex (missing : list string)
| KeyErrorNoneInColumns (keys : list string).

Inductive result (A : Type) : Type :=
| Ok (a : A)
| Raise (e : exn).
Arguments Ok {A} a.
Arguments Raise {A} e.

Definition bind {A B} (m : result A) (k : A -> result B) : result B :=
  match m with
  | Ok a => k a
  | Raise e => Raise e
  end.

Declare Scope py_scope.
Delimit Scope py_scope with py.
Notation "x <- m ;; k" := (bind m (fun x => k))
  (at level 61, m at next level, right associativity) : py_scope.
Open Scope py_scope.

Definition is_ok {A} (m : result A) : bool :=
  match m with Ok _ => true | Raise _ => false end.

Fixpoint strings_eqb (l l' : list string) : bool :=
  match l, l' with
  | [], [] => true
  | a :: l, b :: l' => String.eqb a b && strings_eqb l l'
  | _, _ => false
  end.

Definition exn_eqb (a b : exn) : bool :=
  match a, b with
  | ValueError, ValueError => true
  | NameError x, NameError y => String.eqb x y
  | TypeError, TypeError => true
  | IndexError, IndexError => true
  | KeyError x, KeyError y => String.eqb x y
  | KeyErrorNotInIndex x, KeyErrorNotInIndex y => strings_eqb x y
  | KeyErrorNoneInColumns x, KeyErrorNoneInColumns y => strings_eqb x y
  | _, _ => false
  end.

(** An exception of the class [KeyError]. *)
Definition is_key_error (e : exn) : bool :=
  match e with
  | KeyError _ | KeyErrorNotInIndex _ | KeyErrorNoneInColumns _ => true
  | _ => false
  end.

Definition raises {A} (m : result A) (e : exn) : bool :=
  match m with Ok _ => false | Raise e' => exn_eqb e' e end.

(** ** Idealised float64 *)

Module Float.

Inductive fnum : Type :=
| Fin (q : Qc)
| PInf
| NInf
| NaN.

Definition qz (z : Z) : Qc := Q2Qc (inject_Z z).
Definition qn (n : nat) : Qc := qz (Z.of_nat n).
Definition half : Qc := Q2Qc (1 # 2).

Definition Qc_eqb (a b : Qc) : bool := Qeq_bool a b.
Definition Qc_leb (a b : Qc) : bool := Qle_bool a b.
Definition Qc_ltb (a b : Qc) : bool := negb (Qle_bool b a).

Definition fzero : fnum := Fin (qz 0).
Definition fone : fnum := Fin (qz 1).

Definition fopp (x : fnum) : fnum :=
  match x with
  | Fin q => Fin (- q)
  | PInf => NInf
  | NInf => PInf
  | NaN => NaN
  end.

Definition fadd (x y : fnum) : fnum :=
  match x, y with
  | NaN, _ | _, NaN => NaN
  | Fin a, Fin b => Fin (a + b)
  | PInf, NInf | NInf, PInf => NaN
  | PInf, _ | _, PInf => PInf
  | NInf, _ | _, NInf => NInf
  end.

Definition fsub (x y : fnum) : fnum := fadd x (fopp y).

(** The sign of a rational: [-1], [0] or [1]. *)
Definition Qc_sgn (q : Qc) : Z := Z.sgn (Qnum q).

Definition finf (s : Z) : fnum :=
  match s with
  | Z0 => NaN
  | Zpos _ => PInf
  | Zneg _ => NInf
  end.

Definition fsgn (x : fnum) : option Z :=
  match x with
  | Fin q => Some (Qc_sgn q)
  | PInf => Some 1%Z
  | NInf => Some (-1)%Z
  | NaN => None
  end.

Definition fmul (x y : fnum) : fnum :=
  match x, y with
  | Fin a, Fin b => Fin (a * b)
  | _, _ =>
      match fsgn x, fsgn y with
      | Some s, Some s' => finf (s * s')
      | _, _ => NaN
      end
  end.

(** Division as NumPy performs it: a zero divisor gives an infinity, or
    [NaN] for [0/0], never an exception. *)
Definition fdiv (x y : fnum) : fnum :=
  match x, y with
  | NaN, _ | _, NaN => NaN
  | Fin a, Fin b => if Qc_eqb b (qz 0) then finf (Qc_sgn a) else Fin (a / b)
  | Fin _, _ => fzero
  | _, Fin b => if Qc_ltb b (qz 0) then fopp x else x
  | _, _ => NaN
  end.

Definition fsqr (x : fnum) : fnum := fmul x x.

Definition fabs (x : fnum) : fnum :=
  match x with
  | Fin q => Fin (if Qc_ltb q (qz 0) then - q else q)
  | PInf | NInf => PInf
  | NaN => NaN
  end.

(** [np.sign] *)
Definition fsign (x : fnum) : fnum :=
  match fsgn x with
  | Some s => Fin (qz s)
  | None => NaN
  end.

(** Comparisons: every comparison with [NaN] is false. *)
Definition fltb (x y : fnum) : bool :=
  match x, y with
  | NaN, _ | _, NaN => false
  | Fin a, Fin b => Qc_ltb a b
  | NInf, NInf => false
  | NInf, _ => true
  | _, PInf => match x with PInf => false | _ => true end
  | _, _ => false
  end.

Definition feqb (x y : fnum) : bool :=
  match x, y with
  | Fin a, Fin b => Qc_eqb a b
  | PInf, PInf | NInf, NInf => true
  | _, _ => false
  end.

(** [np.minimum]: propagates [NaN]. *)
Definition fminimum (x y : fnum) : fnum :=
  match x, y with
  | NaN, _ | _, NaN => NaN
  | _, _ => if fltb y x then y else x
  end.

(** Python's builtin [max(a, b)]: [b] when [b > a], else [a]. *)
Definition pymax (a b : fnum) : fnum := if fltb a b then b else a.

(** Python's builtin [min(a, b)]: [b] when [b < a], else [a]. *)
Definition pymin (a b : fnum) : fnum := if fltb b a then b else a.

Definition fsum (l : list fnum) : fnum := fold_right fadd fzero l.

(** The value of [np.sqrt]: the exact surd of a non-negative rational. *)
Inductive root : Type :=
| Sqrt (q : Qc)
| RootInf
| RootNaN.

Definition np_sqrt (x : fnum) : root :=
  match x with
  | Fin q => if Qc_ltb q (qz 0) then RootNaN else Sqrt q
  | PInf => RootInf
  | NInf | NaN => RootNaN
  end.

Definition root_eqb (a b : root) : bool :=
  match a, b with
  | Sqrt x, Sqrt y => Qc_eqb x y
  | RootInf, RootInf => true
  | _, _ => false
  end.

End Float.
Import Float.

Local Open Scope nat_scope.

(** ** Two-dimensional tables *)

Section Tables.
Context {A : Type}.

Definition nrows (t : list (list A)) : nat := length t.

Definition ncols (t : list (list A)) : nat :=
  match t with
  | [] => 0
  | r :: _ => length r
  end.

(** [DataFrame.shape] / [ndarray.shape] *)
Definition shape (t : list (list A)) : nat * nat := (nrows t, ncols t).

(** [ndarray.size] *)
Definition size (t : list (list A)) : nat := nrows t * ncols t.

(** Every row has the width [c]. *)
Definition rect (c : nat) (t : list (list A)) : bool :=
  forallb (fun r => Nat.eqb (length r) c) t.

Definition col (d : A) (j : nat) (t : list (list A)) : list A :=
  map (fun r => nth j r d) t.

(** [t.T]: the columns of [t] as rows. *)
Definition transpose (d : A) (t : list (list A)) : list (list A) :=
  map (fun j => col d j t) (seq 0 (ncols t)).

Definition table_any (f : A -> bool) (t : list (list A)) : bool :=
  existsb (existsb f) t.
End Tables.

Fixpoint map2 {A B C} (f : A -> B -> C) (l : list A) (l' : list B) : list C :=
  match l, l' with
  | a :: l, b :: l' => f a b :: map2 f l l'
  | _, _ => []
  end.

(** Element-wise operation on two arrays of one shape. *)
Definition tmap2 {A B C} (f : A -> B -> C)
  (t : list (list A)) (t' : list (list B)) : list (list C) :=
  map2 (map2 f) t t'.

(** A contingency table as the code receives it: the cells of a
    [pandas.DataFrame], row by row. *)
Definition DataFrame : Type := list (list Qc).

(** A table of integer counts. *)
Definition counts (t : list (list Z)) : DataFrame := map (map qz) t.

(** [np.asarray(observed)], [DataFrame.values] *)
Definition values (t : DataFrame) : list (list fnum) := map (map Fin) t.

(** [np.sum] over all cells, in exact arithmetic.  On an [int64] table
    NumPy adds modulo [2^64], on a [float64] table it adds floats; both
    give this sum when it is below [2^63]. *)
Definition np_sum (a : list (list fnum)) : fnum := fsum (concat a).

(** A number in the range of [int64]. *)
Definition fits_int64 (x : Qc) : bool :=
  Qc_leb (qz (- 2 ^ 63)) x && Qc_ltb x (qz (2 ^ 63)).

(** A table of whole numbers, as [pd.crosstab] builds it. *)
Definition whole (x : Qc) : bool := Pos.eqb (Qden x) 1.

Definition whole_counts (t : DataFrame) : bool := forallb (forallb whole) t.

(** ** scipy.stats.contingency *)

(** [margins(a)] for a two-dimensional array: the row sums and the column
    sums. *)
Definition margins (a : list (list fnum)) : list fnum * list fnum :=
  (map fsum a, map fsum (transpose fzero a)).

(** [expected_freq(observed)]:
    [reduce(np.multiply, margsums) / observed.sum() ** (d - 1)], [d = 2].
    The quotients are exact here; [float64] rounds each of them. *)
Definition expected_freq (observed : list (list fnum)) : list (list fnum) :=
  let '(rsums, csums) := margins observed in
  let n := np_sum observed in
  map (fun r => map (fun c => fdiv (fmul r c) n) csums) rsums.

(** Yates' correction for continuity, as [chi2_contingency] applies it:
    [observed + np.minimum(0.5, np.abs(diff)) * np.sign(diff)] with
    [diff = expected - observed]. *)
Definition yates_cell (o e : fnum) : fnum :=
  let diff := fsub e o in
  let direction := fsign diff in
  let magnitude := fminimum (Fin half) (fabs diff) in
  fadd o (fmul magnitude direction).

(** One term of the Pearson statistic: [(f_obs - f_exp)**2 / f_exp]. *)
Definition pearson_term (o e : fnum) : fnum := fdiv (fsqr (fsub o e)) e.

Record Chi2ContingencyResult : Type := mkChi2 {
  statistic : fnum;
  pvalue : fnum;
  dof : Z;
  expected_table : list (list fnum)
}.

Section Chi2.
(** [scipy.stats.chi2.sf(x, df)] on finite arguments. *)
Variable chi2_sf : Qc -> Z -> Qc.

Definition sf (x : fnum) (df : Z) : fnum :=
  match x with
  | Fin q => Fin (chi2_sf q df)
  | PInf => fzero
  | NInf => fone
  | NaN => NaN
  end.

(** [power_divergence(f_obs, f_exp, ddof, axis=None, lambda_=None)]: the
    Pearson statistic over all cells and its p-value with
    [num_obs - 1 - ddof] degrees of freedom.  SciPy first tests that the
    observed and the expected frequencies have the same sum up to a
    relative tolerance of [1e-8], and raises [ValueError] otherwise.  In
    exact arithmetic the two sums [chi2_contingency] passes are equal, and
    a [NaN] sum passes the test, so the test is left out; with [float64]
    it can only fail when a sum overflows, far above [2^63]. *)
Definition power_divergence (f_obs f_exp : list (list fnum)) (ddof : Z)
  : fnum * fnum :=
  let terms := tmap2 pearson_term f_obs f_exp in
  let stat := np_sum terms in
  let num_obs := Z.of_nat (length (concat terms)) in
  (stat, sf stat (num_obs - 1 - ddof)).

(** [chi2_contingency(observed)] with its defaults [correction=True],
    [lambda_=None]. *)
Definition chi2_contingency (t : DataFrame) : result Chi2ContingencyResult :=
  let observed := values t in
  if table_any (fun x => fltb x fzero) observed then Raise ValueError
  else if (size observed =? 0)%nat then Raise ValueError
  else
    let expected := expected_freq observed in
    if table_any (fun x => feqb x fzero) expected then Raise ValueError
    else
      let dof :=
        (Z.of_nat (size expected)
         - Z.of_nat (nrows expected + ncols expected) + 2 - 1)%Z in
      if (dof =? 0)%Z then Ok (mkChi2 fzero fone dof expected)
      else
        let observed :=
          if (dof =? 1)%Z then tmap2 yates_cell observed expected
          else observed in
        let '(chi2, p) :=
          power_divergence observed expected
            (Z.of_nat (size observed) - 1 - dof) in
        Ok (mkChi2 chi2 p dof expected).

(** ** categorical_association.py *)

(** What [print] writes: one [line] per call, formatted numbers kept as
    numbers with their format specification. *)
Inductive fragment : Type :=
| Text (s : string)
| FloatFmt (spec : string) (x : fnum)
| IntFmt (z : Z)
| ListFmt (items : list (string * fnum)).

Definition line : Type := list fragment.

(** The two outcomes of the decision rule. *)
Inductive decision : Type := REJECT_H0 | FAIL_TO_REJECT_H0.

Definition decision_message (d : decision) : string :=
  match d with
  | REJECT_H0 => "Decision: Reject H0 (The variables are not independent)."
  | FAIL_TO_REJECT_H0 =>
      "Decision: Fail to reject H0 (No evidence of dependence)."
  end.

Definition decide (p alpha : fnum) : decision :=
  if fltb p alpha then REJECT_H0 else FAIL_TO_REJECT_H0.

(** Python values; a returned tuple is the list of its components. *)
Inductive pyval : Type :=
| PyFloat (x : fnum)
| PyInt (z : Z)
| PyStr (s : string)
| PyArray (a : list (list fnum)).

Definition newline : string := String (ascii_of_nat 10) EmptyString.

(** [chi_square_test(contingency_table, alpha)]: the lines printed and the
    value returned. *)
Definition chi_square_test (contingency_table : DataFrame) (alpha : fnum)
  : result (list line * list pyval) :=
  r <- chi2_contingency contingency_table ;;
  let chi2 := statistic r in
  let p := pvalue r in
  let expected := expected_table r in
  let out :=
    [ [Text "Chi-Square Statistic: "; FloatFmt ".4f" chi2];
      [Text "P-value: "; FloatFmt ".4e" p];
      [Text "Degrees of Freedom: "; IntFmt (dof r)];
      [Text "Significance Level (alpha): "; FloatFmt "" alpha];
      [Text (decision_message (decide p alpha))];
      [Text (newline ++ "Expected Frequencies:")] ]
    ++ map (fun row => [Text "  "; ListFmt (map (fun x => (".2f", x)) row)])
         expected in
  Ok (out, [PyFloat chi2; PyFloat p; PyInt (dof r); PyArray expected]).

(** [cal_cramer_v(contingency_table)] *)
Definition cal_cramer_v (contingency_table : DataFrame) : result root :=
  r <- chi2_contingency contingency_table ;;
  let chi2 := statistic r in
  let n := np_sum (values contingency_table) in
  let k := Nat.min (nrows contingency_table) (ncols contingency_table) in
  let v := np_sqrt (fdiv chi2 (fmul n (Fin (qn k)))) in
  Ok v.

(** Names bound at module level, and the builtins the module uses.  No
    builtin of Python has a one-letter name. *)
Inductive pyobj : Type :=
| Module (name : string)
| Function (name : string)
| Number (x : fnum).

Definition module_globals : list (string * pyobj) :=
  [ ("pd", Module "pandas"); ("np", Module "numpy");
    ("go", Module "plotly.graph_objects");
    ("chi2_contingency", Function "scipy.stats.chi2_contingency");
    ("chi_square_test", Function "chi_square_test");
    ("cal_cramer_v", Function "cal_cramer_v");
    ("cal_cramer_v_adjusted", Function "cal_cramer_v_adjusted") ].

Definition builtins : list (string * pyobj) :=
  [ ("print", Function "print"); ("max", Function "max");
    ("min", Function "min") ].

Fixpoint lookup (x : string) (scope : list (string * pyobj)) : option pyobj :=
  match scope with
  | [] => None
  | (y, o) :: scope => if String.eqb x y then Some o else lookup x scope
  end.

(** A name that no enclosing function binds is looked up in the module's
    globals, then in the builtins. *)
Definition load_global (x : string) : result pyobj :=
  match lookup x module_globals with
  | Some o => Ok o
  | None =>
      match lookup x builtins with
      | Some o => Ok o
      | None => Raise (NameError x)
      end
  end.

Definition to_number (o : pyobj) : result fnum :=
  match o with
  | Number x => Ok x
  | _ => Raise TypeError
  end.

(** The helper nested in [cal_cramer_v_adjusted]:
    [val = num-1/(n-1)*(r-1)**2].  Its parameters are [num] and [n]; [r] is
    bound neither by the helper nor by the enclosing function. *)
Definition cal_k_val (num n : fnum) : result fnum :=
  let inv := fdiv fone (fsub n fone) in
  o <- load_global "r" ;;
  r <- to_number o ;;
  let val := fsub num (fmul inv (fsqr (fsub r fone))) in
  Ok val.

(** The first statements of [cal_cramer_v_adjusted], up to the assignment of
    [numerator]. *)
Definition adjusted_numerator (contingency_table : DataFrame) : result fnum :=
  r <- chi2_contingency contingency_table ;;
  let chi2 := statistic r in
  let n := np_sum (values contingency_table) in
  let '(n_row, n_col) := shape contingency_table in
  let numerator :=
    pymax fzero
      (fsub (fdiv chi2 n)
         (fdiv (Fin (qz ((Z.of_nat n_col - 1) * (Z.of_nat n_row - 1))))
            (fsub n fone))) in
  Ok numerator.

(** [cal_cramer_v_adjusted(contingency_table)] *)
Definition cal_cramer_v_adjusted (contingency_table : DataFrame)
  : result root :=
  numerator <- adjusted_numerator contingency_table ;;
  let n := np_sum (values contingency_table) in
  let '(n_row, n_col) := shape contingency_table in
  k_col <- cal_k_val (Fin (qn n_col)) n ;;
  k_row <- cal_k_val (Fin (qn n_row)) n ;;
  let denominator := pymin k_col k_row in
  let v := np_sqrt (fdiv numerator denominator) in
  Ok v.
End Chi2.

(** A rational stand-in for [scipy.stats.chi2.sf], to run the model on
    concrete tables: [1 / (1 + x)] for [x >= 0], whatever the degrees of
    freedom. *)
Definition sf_sample (x : Qc) (_ : Z) : Qc :=
  if Qc_ltb x (qz 0) then qz 1 else qz 1 / (qz 1 + x).

Definition ex_2x2 := counts [[10; 20]; [20; 10]]%Z.
Definition alpha05 := Fin (Q2Qc (5 # 100)).


(** ** Example tables *)

(** [[0,0],[5,10]]: an empty first row. *)
Definition ex_zero_row : DataFrame := counts [[0; 0]; [5; 10]]%Z.

(** [[5,10]]: a single row. *)
Definition ex_one_row : DataFrame := counts [[5; 10]]%Z.

(** [[0,0],[0,0]]: no observation at all. *)
Definition ex_all_zero : DataFrame := counts [[0; 0]; [0; 0]]%Z.

(** The table of the docstring of [cal_cramer_v_adjusted]. *)
Definition ex_smoker : DataFrame :=
  counts [[123; 203; 9704]; [27; 6; 98]]%Z.


(** A table with complete association: every row determines the
    column. *)
Definition ex_diagonal : DataFrame :=
  counts [[10; 0; 0]; [0; 20; 0]; [0; 0; 30]]%Z.

(** No association at all, and a strong one. *)
Definition ex_even : DataFrame := counts [[10; 10]; [10; 10]]%Z.
Definition ex_strong : DataFrame := counts [[40; 10]; [10; 40]]%Z.


(** ** Auxiliary definitions *)

(** The sum of a list in a monoid. *)
Definition msum {M : Type} (op : M -> M -> M) (e : M) (l : list M) : M :=
  fold_right op e l.

(** The transpose of a table whose width is given. *)
Definition transpose_w {A} (d : A) (c : nat) (t : list (list A))
  : list (list A) :=
  map (fun j => col d j t) (seq 0 c).

(** The first component of the result of [chi2_contingency], as a function
    of the array of observed frequencies (it does not depend on the
    survival function). *)
Definition statistic_of (observed : list (list fnum)) : result fnum :=
  if table_any (fun x => fltb x fzero) observed then Raise ValueError
  else if size observed =? 0 then Raise ValueError
  else
    let expected := expected_freq observed in
    if table_any (fun x => feqb x fzero) expected then Raise ValueError
    else
      let dof :=
        (Z.of_nat (size expected)
         - Z.of_nat (nrows expected + ncols expected) + 2 - 1)%Z in
      if (dof =? 0)%Z then Ok fzero
      else
        Ok (np_sum
              (tmap2 pearson_term
                 (if (dof =? 1)%Z then tmap2 yates_cell observed expected
                  else observed)
                 expected)).

(** ** The test in exact arithmetic *)

Local Open Scope Qc_scope.

Definition qsum (l : list Qc) : Qc := fold_right Qcplus 0 l.

Definition row_totals (t : DataFrame) : list Qc := map qsum t.
Definition col_totals (t : DataFrame) : list Qc := map qsum (transpose 0 t).
Definition grand_total (t : DataFrame) : Qc := qsum (row_totals t).

(** Expected count of a cell under independence:
    [row_total * col_total / grand_total]. *)
Definition expected_counts (t : DataFrame) : DataFrame :=
  map (fun r => map (fun c => r * c / grand_total t) (col_totals t))
    (row_totals t).

(** [(O - E)^2 / E] *)
Definition pearson_q (o e : Qc) : Qc := (o - e) * (o - e) / e.

(** The Pearson chi-square statistic: the sum of [(O - E)^2 / E] over all
    cells. *)
Definition pearson_statistic (t : DataFrame) : Qc :=
  qsum (map qsum (tmap2 pearson_q t (expected_counts t))).

(** An observed count moved towards its expected value by at most [1/2]. *)
Definition yates_q (o e : Qc) : Qc :=
  let d := e - o in
  let ad := if Qc_ltb d 0 then - d else d in
  o + (if Qc_ltb ad half then ad else half) * qz (Qc_sgn d).

(** The Pearson statistic of the counts corrected for continuity. *)
Definition yates_statistic (t : DataFrame) : Qc :=
  qsum (map qsum
          (tmap2 pearson_q (tmap2 yates_q t (expected_counts t))
             (expected_counts t))).

(** Degrees of freedom of an R x C table. *)
Definition degrees_of_freedom (t : DataFrame) : Z :=
  ((Z.of_nat (nrows t) - 1) * (Z.of_nat (ncols t) - 1))%Z.

(** The statistic [chi2_contingency] computes: the Pearson statistic,
    corrected for continuity when there is one degree of freedom. *)
Definition chi2_statistic (t : DataFrame) : Qc :=
  if (degrees_of_freedom t =? 1)%Z then yates_statistic t
  else pearson_statistic t.

(** The p-value [chi2_contingency] computes. *)
Definition chi2_pvalue (chi2_sf : Qc -> Z -> Qc) (t : DataFrame) : fnum :=
  if (degrees_of_freedom t =? 0)%Z then fone
  else Fin (chi2_sf (chi2_statistic t) (degrees_of_freedom t)).

(** [max(0, x)] on rationals. *)
Definition qmax0 (x : Qc) : Qc := if Qc_ltb 0 x then x else 0.

Definition nonneg_cells (t : DataFrame) : bool :=
  forallb (forallb (fun x => negb (Qc_ltb x 0))) t.

Definition positive_margins (t : DataFrame) : bool :=
  forallb (Qc_ltb 0) (row_totals t) && forallb (Qc_ltb 0) (col_totals t).

(** A table on which the test is defined: rectangular, with at least one
    row and one column, no negative cell and no empty row or column. *)
Definition valid_table (t : DataFrame) : bool :=
  rect (ncols t) t && (0 <? nrows t)%nat && (0 <? ncols t)%nat
  && nonneg_cells t && positive_margins t.

Definition all_zero (t : DataFrame) : bool :=
  forallb (forallb (fun x => Qc_eqb x 0)) t.

Local Open Scope nat_scope.

(** ** plotter.py: the grouped bar chart *)

Module Plotter.

(** A cell of a [pandas.DataFrame]: a number, a string, or a missing
    value ([NaN]). *)
Inductive cell : Type :=
| Num (q : Qc)
| Str (s : string)
| NA.

(** [a == b]: a missing value equals nothing, not even itself. *)
Definition cell_eqb (a b : cell) : bool :=
  match a, b with
  | Num x, Num y => Qc_eqb x y
  | Str x, Str y => String.eqb x y
  | _, _ => false
  end.

(** One and the same value, as [unique] and [value_counts] tell values
    apart: there all missing values are one value. *)
Definition same_value (a b : cell) : bool :=
  match a, b with
  | NA, NA => true
  | _, _ => cell_eqb a b
  end.

(** [notna], and [dropna] on a column. *)
Definition notna (c : cell) : bool :=
  match c with NA => false | _ => true end.

Definition dropna (l : list cell) : list cell := filter notna l.

(** A data frame: its column labels and its rows. *)
Record Frame : Type := mkFrame {
  labels : list string;
  rows : list (list cell)
}.

(** The labels are distinct and every row has one cell per label. *)
Definition distinct (l : list string) : bool :=
  (fix go (l : list string) : bool :=
     match l with
     | [] => true
     | a :: l => negb (existsb (String.eqb a) l) && go l
     end) l.

Definition wf_frame (df : Frame) : bool :=
  distinct (labels df) && rect (length (labels df)) (rows df).

Fixpoint index_of (c : string) (l : list string) : option nat :=
  match l with
  | [] => None
  | a :: l =>
      if String.eqb c a then Some 0
      else match index_of c l with
           | Some i => Some (S i)
           | None => None
           end
  end.

Definition position (c : string) (df : Frame) : result nat :=
  match index_of c (labels df) with
  | Some i => Ok i
  | None => Raise (KeyError c)
  end.

(** [df[c]]: one column. *)
Definition column (c : string) (df : Frame) : result (list cell) :=
  i <- position c df ;;
  Ok (map (fun r => nth i r (Str "")) (rows df)).

(** The positions of the labels [cs], when all of them are columns. *)
Fixpoint positions (cs : list string) (df : Frame) : option (list nat) :=
  match cs with
  | [] => Some []
  | c :: cs =>
      match index_of c (labels df), positions cs df with
      | Some i, Some js => Some (i :: js)
      | _, _ => None
      end
  end.

(** The labels of [cs] that are not columns of [df]. *)
Definition missing_labels (cs : list string) (df : Frame) : list string :=
  filter (fun c => negb (existsb (String.eqb c) (labels df))) cs.

(** [Index.unique()] on labels: each label once, in order of first
    appearance. *)
Fixpoint unique_labels (l : list string) : list string :=
  match l with
  | [] => []
  | a :: l => a :: filter (fun b => negb (String.eqb a b)) (unique_labels l)
  end.

(** [df[[c1, ..., ck]]]: the frame of the chosen columns.  When labels are
    missing, pandas raises [KeyError] naming the missing ones, or all of
    them when none is a column. *)
Definition select (cs : list string) (df : Frame) : result Frame :=
  match positions cs df with
  | Some js =>
      Ok (mkFrame cs
            (map (fun r => map (fun i => nth i r (Str "")) js) (rows df)))
  | None =>
      let missing := missing_labels cs df in
      if Nat.eqb (length missing) (length cs)
      then Raise (KeyErrorNoneInColumns cs)
      else Raise (KeyErrorNotInIndex (unique_labels missing))
  end.

(** Ordering of the cells of one column; numbers and strings do not
    compare. *)
Definition cell_ltb (a b : cell) : bool :=
  match a, b with
  | Num x, Num y => Qc_ltb x y
  | Str x, Str y => String.ltb x y
  | _, _ => false
  end.

Definition is_num (c : cell) : bool :=
  match c with Num _ => true | _ => false end.

Definition is_str (c : cell) : bool :=
  match c with Str _ => true | _ => false end.

(** The values of a column can be sorted: missing values apart, they are
    all numbers or all strings. *)
Definition comparable (l : list cell) : bool :=
  forallb is_num (dropna l) || forallb is_str (dropna l).

(** How often a label occurs among the labels of a frame. *)
Definition occurrences (c : string) (l : list string) : nat :=
  length (filter (String.eqb c) l).

(** Insertion of a row into rows sorted by decreasing key. *)
Fixpoint insert_desc (i : nat) (r : list cell) (l : list (list cell))
  : list (list cell) :=
  match l with
  | [] => [r]
  | r' :: l' =>
      if cell_ltb (nth i r (Str "")) (nth i r' (Str ""))
      then r' :: insert_desc i r l'
      else r :: l
  end.

(** [df.sort_values(by=c, ascending=False)]: [KeyError] when [c] is not a
    column, [ValueError] when several columns have the label [c],
    [TypeError] when the values do not compare.  The rows with a missing
    key come last, in the order of the frame.  Rows with equal keys keep an
    order pandas does not specify; here the later row comes first. *)
Definition sort_values_desc (c : string) (df : Frame) : result Frame :=
  i <- position c df ;;
  if Nat.ltb 1 (occurrences c (labels df)) then Raise ValueError
  else if comparable (map (fun r => nth i r (Str "")) (rows df))
  then Ok (mkFrame (labels df)
             (fold_left (fun acc r => insert_desc i r acc)
                (filter (fun r => notna (nth i r (Str ""))) (rows df)) []
              ++ filter (fun r => negb (notna (nth i r (Str ""))))
                   (rows df)))
  else Raise TypeError.

(** [df[df[c] == v]] *)
Definition where_eq (c : string) (v : cell) (df : Frame) : result Frame :=
  i <- position c df ;;
  Ok (mkFrame (labels df)
        (filter (fun r => cell_eqb (nth i r (Str "")) v) (rows df))).

(** [Series.unique()]: the distinct values, in order of first appearance;
    a missing value is one of them when the column has one. *)
Fixpoint unique_from (seen l : list cell) : list cell :=
  match l with
  | [] => []
  | a :: l =>
      if existsb (same_value a) seen then unique_from seen l
      else a :: unique_from (a :: seen) l
  end.

Definition unique (l : list cell) : list cell := unique_from [] l.

(** [enumerate] *)
Definition enumerate {A} (l : list A) : list (nat * A) :=
  combine (seq 0 (length l)) l.

(** [go.Bar] and the figure. *)
Record Bar : Type := mkBar {
  bar_x : list cell;
  bar_y : list cell;
  bar_name : cell;
  marker_color : string
}.

Record Layout : Type := mkLayout {
  title_text : string;
  title_x : Qc;
  title_xanchor : string;
  xaxis_title : string;
  yaxis_title : string;
  height : Z;
  width : Z;
  plot_bgcolor : string;
  paper_bgcolor : string;
  xaxis_showgrid : bool;
  yaxis_showgrid : bool;
  barmode : option string
}.

Record Figure : Type := mkFigure {
  traces : list Bar;
  layout : option Layout
}.

Definition color_list : list string := ["#831010"; "#564d4d"; "#db0000"].

(** [l[i]] for a non-negative index. *)
Definition getitem {A} (l : list A) (i : nat) : result A :=
  match nth_error l i with
  | Some a => Ok a
  | None => Raise IndexError
  end.

(** The body of the [for] loop, for the group [group] at position [i].
    plotly checks the name of a trace: it takes a string or a Python
    number and refuses other values, a NumPy integer among them, with
    [ValueError].  The name is kept as it is given; what is proved of calls
    that end normally on every frame is stated for groups that are
    strings. *)
Definition add_group_trace (sorted_data : Frame)
  (x_column y_column group_column : string) (i : nat) (group : cell)
  (fig : Figure) : result Figure :=
  group_data <- where_eq group_column group sorted_data ;;
  x <- column x_column group_data ;;
  y <- column y_column group_data ;;
  color <- getitem color_list i ;;
  Ok (mkFigure (traces fig ++ [mkBar x y group color]) (layout fig)).

Fixpoint for_groups (sorted_data : Frame)
  (x_column y_column group_column : string)
  (groups : list (nat * cell)) (fig : Figure) : result Figure :=
  match groups with
  | [] => Ok fig
  | (i, group) :: groups =>
      fig <- add_group_trace sorted_data x_column y_column group_column
               i group fig ;;
      for_groups sorted_data x_column y_column group_column groups fig
  end.

(** [fig.update_layout(barmode=mode)] *)
Definition update_layout_barmode (mode : string) (fig : Figure) : Figure :=
  mkFigure (traces fig)
    (option_map
       (fun l => mkLayout (title_text l) (title_x l) (title_xanchor l)
                   (xaxis_title l) (yaxis_title l) (height l) (width l)
                   (plot_bgcolor l) (paper_bgcolor l) (xaxis_showgrid l)
                   (yaxis_showgrid l) (Some mode))
       (layout fig)).

(** [plot_bar_chart_multivariate_y_col] *)
Definition plot_bar_chart_multivariate_y_col (data : Frame)
  (x_column y_column group_column title x_axis_title y_axis_title : string)
  (height width : Z) : result Figure :=
  selected <- select [x_column; group_column; y_column] data ;;
  sorted_data <- sort_values_desc y_column selected ;;
  let fig := mkFigure [] None in
  groups <- column group_column data ;;
  fig <- for_groups sorted_data x_column y_column group_column
           (enumerate (unique groups)) fig ;;
  let fig :=
    mkFigure (traces fig)
      (Some (mkLayout ("<b>" ++ title ++ "</b>") (Q2Qc (1 # 2)) "center"
               x_axis_title y_axis_title height width
               "rgba(0,0,0,0)" "rgba(0,0,0,0)" false false None)) in
  Ok (update_layout_barmode "group" fig).

Definition ex_frame (groups : list string) : Frame :=
  mkFrame ["year"; "kind"; "titles"]
    (map (fun g => [Num (qz 2020); Str g; Num (qz 7)]) groups).

End Plotter.

(** ** plotter.py: the other charts *)

Module Charts.
Import Plotter.

Local Open Scope nat_scope.

(** A trace of a figure: [go.Bar] with its marker colour, or [go.Scatter]
    with its mode, name, marker size, marker colour and hover text.  The
    name [str(group)] is kept as the group itself. *)
Inductive Trace : Type :=
| BarTrace (x y : list cell) (color : string)
| ScatterTrace (x y : list cell) (mode : string) (name : option cell)
    (marker_size : option Z) (marker_color : option string)
    (text : option (list cell)).

Record Chart : Type := mkChart {
  chart_traces : list Trace;
  chart_layout : Layout
}.

(** The layout the three functions set with [fig.update_layout]. *)
Definition chart_layout_of (title x_axis_title y_axis_title : string)
  (height width : Z) : Layout :=
  mkLayout ("<b>" ++ title ++ "</b>") (Q2Qc (1 # 2)) "center"
    x_axis_title y_axis_title height width
    "rgba(0,0,0,0)" "rgba(0,0,0,0)" false false None.

(** Number of cells of [l] equal to [v]. *)
Definition count_cell (v : cell) (l : list cell) : nat :=
  length (filter (cell_eqb v) l).

(** Rows sorted by decreasing key, the key being the cell at position
    [i]. *)
Definition sort_rows_desc (i : nat) (rows : list (list cell))
  : list (list cell) :=
  fold_left (fun acc r => insert_desc i r acc) rows [].

(** [Series.value_counts().reset_index()] with the columns renamed
    [[c, 'count']]: one row per distinct value that is not missing, with
    the number of its occurrences, by decreasing count. *)
Definition value_counts (c : string) (col : list cell) : Frame :=
  mkFrame [c; "count"]
    (sort_rows_desc 1
       (map (fun v => [v; Num (qn (count_cell v col))])
          (unique (dropna col)))).

(** [plot_bar_chart_univariate].  When [column] is itself ['count'] the
    renamed frame has two columns of that label and [sort_values] raises
    [ValueError]. *)
Definition plot_bar_chart_univariate (data : Frame)
  (column title x_axis_title y_axis_title : string) (height width : Z)
  : result Chart :=
  col <- Plotter.column column data ;;
  let value_counts := value_counts column col in
  sorted_data <- sort_values_desc "count" value_counts ;;
  x <- Plotter.column column sorted_data ;;
  y <- Plotter.column "count" sorted_data ;;
  Ok (mkChart [BarTrace x y "#db0000"]
        (chart_layout_of title x_axis_title y_axis_title height width)).

(** [plot_bar_chart_univariate_y_col] *)
Definition plot_bar_chart_univariate_y_col (data : Frame)
  (x_column y_column title x_axis_title y_axis_title : string)
  (height width : Z) : result Chart :=
  selected <- select [x_column; y_column] data ;;
  sorted_data <- sort_values_desc y_column selected ;;
  xs <- Plotter.column x_column sorted_data ;;
  let x := map (fun r => nth 0 r (Str "")) (rows (value_counts x_column xs)) in
  y <- Plotter.column y_column sorted_data ;;
  Ok (mkChart [BarTrace x y "#db0000"]
        (chart_layout_of title x_axis_title y_axis_title height width)).

(** Truth value of the optional argument [color_column]. *)
Definition truthy (s : option string) : option string :=
  match s with
  | Some c => if String.eqb c "" then None else Some c
  | None => None
  end.

(** The body of the loop of [plot_scatter_plot] for one group. *)
Definition add_scatter_trace (data : Frame)
  (x_column y_column color_column : string) (group : cell)
  (traces : list Trace) : result (list Trace) :=
  group_data <- where_eq color_column group data ;;
  x <- Plotter.column x_column group_data ;;
  y <- Plotter.column y_column group_data ;;
  text <- Plotter.column color_column group_data ;;
  Ok (traces
      ++ [ScatterTrace x y "markers" (Some group) (Some 10%Z) None
            (Some text)]).

Fixpoint for_scatter_groups (data : Frame)
  (x_column y_column color_column : string) (groups : list cell)
  (traces : list Trace) : result (list Trace) :=
  match groups with
  | [] => Ok traces
  | group :: groups =>
      traces <- add_scatter_trace data x_column y_column color_column
                  group traces ;;
      for_scatter_groups data x_column y_column color_column groups traces
  end.

(** [plot_scatter_plot]; the axis titles are the column names. *)
Definition plot_scatter_plot (data : Frame) (x_column y_column title : string)
  (color_column : option string) (height width : Z) : result Chart :=
  traces <-
    match truthy color_column with
    | Some c =>
        groups <- Plotter.column c data ;;
        for_scatter_groups data x_column y_column c (unique groups) []
    | None =>
        x <- Plotter.column x_column data ;;
        y <- Plotter.column y_column data ;;
        Ok [ScatterTrace x y "markers" None None (Some "#db0000") None]
    end ;;
  Ok (mkChart traces (chart_layout_of title x_column y_column height width)).

(** ** What a chart shows *)

(** The value of a row in the column at position [i]. *)
Definition at_pos (i : nat) (r : list cell) : cell := nth i r (Str "").

(** The points of a trace: its x and y values, paired. *)
Definition trace_points (t : Trace) : list (cell * cell) :=
  match t with
  | BarTrace x y _ => combine x y
  | ScatterTrace x y _ _ _ _ _ => combine x y
  end.

Definition trace_name (t : Trace) : option cell :=
  match t with
  | BarTrace _ _ _ => None
  | ScatterTrace _ _ _ name _ _ _ => name
  end.

(** The points of a trace, each with the name of the trace. *)
Definition named_points (t : Trace) : list (cell * cell * option cell) :=
  map (fun p => (p, trace_name t)) (trace_points t).

(** The bars of one trace of the grouped bar chart: x, y and the group
    the trace is named after. *)
Definition bar_points (b : Bar) : list (cell * cell * cell) :=
  map (fun p => (p, bar_name b)) (combine (bar_x b) (bar_y b)).

(** [a] does not have a smaller key than [b], the key being the cell at
    position [i]. *)
Definition not_below (i : nat) (a b : list cell) : Prop :=
  cell_ltb (at_pos i a) (at_pos i b) = false.

(** Every row has a number at position [i]. *)
Definition num_keys (i : nat) (l : list (list cell)) : Prop :=
  Forall (fun r => is_num (at_pos i r) = true) l.

(** The rows with a value at position [i], and the others. *)
Definition with_value (i : nat) (l : list (list cell)) : list (list cell) :=
  filter (fun r => notna (at_pos i r)) l.

Definition without_value (i : nat) (l : list (list cell))
  : list (list cell) :=
  filter (fun r => negb (notna (at_pos i r))) l.

(** Rows sorted by decreasing key, those without a key last. *)
Definition sort_na_last (i : nat) (l : list (list cell))
  : list (list cell) :=
  sort_rows_desc i (with_value i l) ++ without_value i l.

(** No cell is followed by a larger one. *)
Definition non_increasing (l : list cell) : Prop :=
  StronglySorted (fun a b => cell_ltb a b = false) l.

(** Titles per country and kind. *)
Definition ex_titles : Frame :=
  mkFrame ["country"; "kind"; "titles"]
    [ [Str "US"; Str "Movie"; Num (qz 30)];
      [Str "IN"; Str "Movie"; Num (qz 50)];
      [Str "US"; Str "Show"; Num (qz 20)];
      [Str "JP"; Str "Show"; Num (qz 20)];
      [Str "US"; Str "Movie"; Num (qz 10)] ].

(** Titles with a country and a kind missing. *)
Definition ex_gaps : Frame :=
  mkFrame ["country"; "kind"; "titles"]
    [ [Str "US"; Str "Movie"; Num (qz 30)];
      [NA; Str "Movie"; Num (qz 50)];
      [Str "US"; NA; Num (qz 20)];
      [Str "JP"; Str "Show"; Num (qz 20)] ].

(** A frame whose column of titles mixes numbers and strings. *)
Definition ex_mixed : Frame :=
  mkFrame ["country"; "kind"; "titles"]
    [ [Str "US"; Str "Movie"; Num (qz 30)];
      [Str "IN"; Str "Movie"; Str "many"] ].

End Charts.


(** * Properties *)

(** ** Rationals and idealised floats *)

Lemma qz_0 : qz 0 = 0%Qc.
Proof. reflexivity. Qed.

Lemma Qc_eqb_eq (a b : Qc) : Qc_eqb a b = true <-> a = b.
Proof.
  unfold Qc_eqb. rewrite Qeq_bool_iff. split.
  - apply Qc_is_canon.
  - intros ->. reflexivity.
Qed.

Lemma Qc_eqb_neq (a b : Qc) : Qc_eqb a b = false <-> a <> b.
Proof.
  rewrite <- Qc_eqb_eq. destruct (Qc_eqb a b); split; congruence.
Qed.

Lemma Qc_eqb_refl (a : Qc) : Qc_eqb a a = true.
Proof. apply Qc_eqb_eq. reflexivity. Qed.

Lemma Qc_ltb_lt (a b : Qc) : Qc_ltb a b = true <-> (a < b)%Qc.
Proof.
  unfold Qc_ltb, Qclt. rewrite negb_true_iff.
  rewrite <- not_true_iff_false, Qle_bool_iff. split.
  - apply Qnot_le_lt.
  - apply Qlt_not_le.
Qed.

Lemma Qc_ltb_ge (a b : Qc) : Qc_ltb a b = false <-> (b <= a)%Qc.
Proof.
  unfold Qc_ltb, Qcle. rewrite negb_false_iff. apply Qle_bool_iff.
Qed.


Lemma fadd_comm (x y : fnum) : fadd x y = fadd y x.
Proof.
  destruct x, y; simpl; try reflexivity. f_equal. apply Qcplus_comm.
Qed.

Lemma fadd_assoc (x y z : fnum) : fadd x (fadd y z) = fadd (fadd x y) z.
Proof.
  destruct x, y, z; simpl; try reflexivity. f_equal. apply Qcplus_assoc.
Qed.

Lemma fadd_0_l (x : fnum) : fadd fzero x = x.
Proof.
  destruct x; simpl; try reflexivity. f_equal. apply Qcplus_0_l.
Qed.

Lemma fmul_comm (x y : fnum) : fmul x y = fmul y x.
Proof.
  destruct x, y; simpl; try reflexivity.
  - f_equal. apply Qcmult_comm.
  - rewrite Z.mul_comm. reflexivity.
  - rewrite Z.mul_comm. reflexivity.
  - rewrite Z.mul_comm. reflexivity.
  - rewrite Z.mul_comm. reflexivity.
Qed.

(** [max(0, x)] is never negative, whatever [x] is. *)
Lemma pymax_0_nonneg (x : fnum) : fltb (pymax fzero x) fzero = false.
Proof.
  unfold pymax. destruct (fltb fzero x) eqn:E.
  - destruct x; simpl in *; try reflexivity; try discriminate.
    apply Qc_ltb_lt in E. apply Qc_ltb_ge. apply Qclt_le_weak. exact E.
  - reflexivity.
Qed.

(** ** Sums over a commutative monoid, and transposition *)

Section Monoid.
Variables (M : Type) (op : M -> M -> M) (e : M).
Hypothesis op_assoc : forall x y z, op x (op y z) = op (op x y) z.
Hypothesis op_comm : forall x y, op x y = op y x.
Hypothesis op_e_l : forall x, op e x = x.

Lemma msum_app (l l' : list M) :
  msum op e (l ++ l') = op (msum op e l) (msum op e l').
Proof.
  induction l as [|a l IH]; simpl.
  - symmetry. apply op_e_l.
  - rewrite IH. apply op_assoc.
Qed.

Lemma msum_concat (t : list (list M)) :
  msum op e (concat t) = msum op e (map (msum op e) t).
Proof.
  induction t as [|r t IH]; simpl.
  - reflexivity.
  - rewrite msum_app, IH. reflexivity.
Qed.

Lemma msum_map_op {A} (f g : A -> M) (l : list A) :
  msum op e (map (fun x => op (f x) (g x)) l)
  = op (msum op e (map f l)) (msum op e (map g l)).
Proof.
  induction l as [|a l IH]; simpl.
  - symmetry. apply op_e_l.
  - rewrite IH. rewrite !op_assoc. f_equal.
    rewrite <- !op_assoc. f_equal. apply op_comm.
Qed.

Lemma msum_map_e {A} (l : list A) : msum op e (map (fun _ => e) l) = e.
Proof.
  induction l as [|a l IH]; simpl.
  - reflexivity.
  - rewrite IH. apply op_e_l.
Qed.
End Monoid.

Lemma map_nth_seq {A} (d : A) (l : list A) :
  map (fun j => nth j l d) (seq 0 (length l)) = l.
Proof.
  induction l as [|a l IH]; simpl.
  - reflexivity.
  - f_equal. rewrite <- seq_shift, map_map. exact IH.
Qed.

Lemma rect_cons {A} (c : nat) (r : list A) (t : list (list A)) :
  rect c (r :: t) = true <-> length r = c /\ rect c t = true.
Proof.
  unfold rect. simpl. rewrite andb_true_iff, Nat.eqb_eq. reflexivity.
Qed.

Lemma rect_In {A} (c : nat) (t : list (list A)) (r : list A) :
  rect c t = true -> In r t -> length r = c.
Proof.
  unfold rect. rewrite forallb_forall. intros H Hr.
  apply Nat.eqb_eq. apply H. exact Hr.
Qed.

Lemma transpose_w_eq {A} (d : A) (t : list (list A)) :
  transpose d t = transpose_w d (ncols t) t.
Proof. reflexivity. Qed.

Lemma length_transpose_w {A} (d : A) (c : nat) (t : list (list A)) :
  length (transpose_w d c t) = c.
Proof. unfold transpose_w. rewrite length_map, length_seq. reflexivity. Qed.

Lemma rect_transpose_w {A} (d : A) (c : nat) (t : list (list A)) :
  rect (length t) (transpose_w d c t) = true.
Proof.
  unfold rect, transpose_w. rewrite forallb_forall. intros r Hr.
  apply in_map_iff in Hr. destruct Hr as [j [<- _]].
  unfold col. rewrite length_map. apply Nat.eqb_refl.
Qed.

Section MonoidTranspose.
Variables (M : Type) (op : M -> M -> M) (e : M).
Hypothesis op_assoc : forall x y z, op x (op y z) = op (op x y) z.
Hypothesis op_comm : forall x y, op x y = op y x.
Hypothesis op_e_l : forall x, op e x = x.

(** Summing by columns or by rows gives the same total. *)
Lemma msum_transpose_w (d : M) (c : nat) (t : list (list M)) :
  rect c t = true ->
  msum op e (map (msum op e) (transpose_w d c t))
  = msum op e (map (msum op e) t).
Proof.
  unfold transpose_w. rewrite map_map.
  induction t as [|r t IH]; intros H.
  - simpl. apply msum_map_e. exact op_e_l.
  - apply rect_cons in H. destruct H as [Hr Ht].
    simpl. rewrite msum_map_op by assumption.
    rewrite (IH Ht). f_equal.
    rewrite <- Hr, map_nth_seq. reflexivity.
Qed.
End MonoidTranspose.

Lemma map2_map_map {A B C D} (f : B -> C -> D) (g : A -> B) (h : A -> C)
  (l : list A) :
  map2 f (map g l) (map h l) = map (fun x => f (g x) (h x)) l.
Proof.
  induction l as [|a l IH]; simpl; [reflexivity | now rewrite IH].
Qed.

Lemma length_map2 {A B C} (f : A -> B -> C) (l : list A) (l' : list B) :
  length l = length l' -> length (map2 f l l') = length l.
Proof.
  revert l'. induction l as [|a l IH]; intros [|b l'] H; simpl in *;
    try reflexivity; try discriminate.
  f_equal. apply IH. now injection H.
Qed.

Lemma nth_map2 {A B C} (f : A -> B -> C) (d1 : A) (d2 : B) (d3 : C)
  (l : list A) (l' : list B) (j : nat) :
  j < length l -> j < length l' ->
  nth j (map2 f l l') d3 = f (nth j l d1) (nth j l' d2).
Proof.
  revert l' j. induction l as [|a l IH]; intros [|b l'] [|j] H H'; simpl in *;
    try lia; try reflexivity.
  apply IH; lia.
Qed.

Lemma nth_map_in {A B} (f : A -> B) (d : A) (d' : B) (l : list A) (j : nat) :
  j < length l -> nth j (map f l) d' = f (nth j l d).
Proof.
  intros H. rewrite (nth_indep _ d' (f d)).
  - apply map_nth.
  - rewrite length_map. exact H.
Qed.

Lemma col_map {A B} (g : A -> list B) (d : B) (i : nat) (l : list A) :
  col d i (map g l) = map (fun j => nth i (g j) d) l.
Proof. unfold col. apply map_map. Qed.

(** Transposition commutes with a cell-wise map. *)
Lemma transpose_w_map {A B} (f : A -> B) (d : A) (c : nat)
  (t : list (list A)) :
  transpose_w (f d) c (map (map f) t) = map (map f) (transpose_w d c t).
Proof.
  unfold transpose_w. rewrite map_map. apply map_ext. intros j.
  unfold col. rewrite !map_map. apply map_ext. intros r. apply map_nth.
Qed.

(** Transposition commutes with a cell-wise operation on two tables. *)
Lemma transpose_w_tmap2 {A B C} (f : A -> B -> C) (d1 : A) (d2 : B) (d3 : C)
  (c : nat) (a : list (list A)) (b : list (list B)) :
  rect c a = true -> rect c b = true ->
  transpose_w d3 c (tmap2 f a b)
  = tmap2 f (transpose_w d1 c a) (transpose_w d2 c b).
Proof.
  intros Ha Hb. unfold transpose_w, tmap2. rewrite map2_map_map.
  apply map_ext_in. intros j Hj. apply in_seq in Hj.
  revert b Hb. induction a as [|ra a IH]; intros [|rb b] Hb; simpl;
    try reflexivity.
  apply rect_cons in Ha. apply rect_cons in Hb.
  destruct Ha as [Hra Ha], Hb as [Hrb Hb]. f_equal.
  - apply nth_map2; lia.
  - apply IH; assumption.
Qed.

Lemma rect_tmap2 {A B C} (f : A -> B -> C) (c : nat)
  (a : list (list A)) (b : list (list B)) :
  rect c a = true -> rect c b = true -> rect c (tmap2 f a b) = true.
Proof.
  revert b. induction a as [|ra a IH]; intros [|rb b] Ha Hb; simpl;
    try reflexivity.
  apply rect_cons in Ha. apply rect_cons in Hb.
  destruct Ha as [Hra Ha], Hb as [Hrb Hb].
  apply rect_cons. split.
  - rewrite length_map2; congruence.
  - apply IH; assumption.
Qed.

(** Transposing twice gives the table back. *)
Lemma transpose_w_involutive {A} (d : A) (c : nat) (t : list (list A)) :
  rect c t = true ->
  transpose_w d (length t) (transpose_w d c t) = t.
Proof.
  intros H. unfold transpose_w at 1.
  transitivity (map (fun i => nth i t []) (seq 0 (length t)));
    [| apply map_nth_seq].
  apply map_ext_in. intros i Hi. apply in_seq in Hi.
  unfold transpose_w. rewrite col_map.
  assert (Hlen : length (nth i t []) = c).
  { apply (rect_In c t); [exact H | apply nth_In; lia]. }
  transitivity (map (fun j => nth j (nth i t []) d) (seq 0 c)).
  - apply map_ext. intros j. unfold col.
    rewrite (nth_map_in _ [] d) by lia. reflexivity.
  - rewrite <- Hlen. apply map_nth_seq.
Qed.

(** The transpose of an outer product. *)
Lemma transpose_w_outer {A B C} (g : A -> B -> C) (d : C)
  (rs : list A) (cs : list B) :
  transpose_w d (length cs) (map (fun r => map (g r) cs) rs)
  = map (fun c => map (fun r => g r c) rs) cs.
Proof.
  destruct cs as [|c0 cs']; [reflexivity|].
  set (cs := c0 :: cs').
  transitivity (map (fun c => map (fun r => g r c) rs)
                  (map (fun j => nth j cs c0) (seq 0 (length cs))));
    [| now rewrite map_nth_seq].
  unfold transpose_w.
  rewrite map_map. apply map_ext_in. intros j Hj. apply in_seq in Hj.
  rewrite col_map. apply map_ext. intros r.
  apply nth_map_in. lia.
Qed.

Lemma existsb_msum {A} (f : A -> bool) (l : list A) :
  existsb f l = msum orb false (map f l).
Proof.
  induction l as [|a l IH]; simpl; [reflexivity | now rewrite IH].
Qed.

Lemma table_any_msum {A} (f : A -> bool) (t : list (list A)) :
  table_any f t = msum orb false (map (msum orb false) (map (map f) t)).
Proof.
  unfold table_any. rewrite existsb_msum, map_map. f_equal.
  apply map_ext. intros r. apply existsb_msum.
Qed.

Lemma rect_map {A B} (f : A -> B) (c : nat) (t : list (list A)) :
  rect c (map (map f) t) = rect c t.
Proof.
  unfold rect. induction t as [|r t IH]; simpl; [reflexivity|].
  now rewrite length_map, IH.
Qed.

(** A cell satisfies [f] in the transpose exactly when one does in the
    table. *)
Lemma table_any_transpose_w {A} (f : A -> bool) (d : A) (c : nat)
  (t : list (list A)) :
  rect c t = true ->
  table_any f (transpose_w d c t) = table_any f t.
Proof.
  intros H. rewrite !table_any_msum, <- transpose_w_map.
  apply msum_transpose_w.
  - intros x y z. apply orb_assoc.
  - apply orb_comm.
  - reflexivity.
  - rewrite rect_map. exact H.
Qed.

(** ** The statistic of [chi2_contingency] *)

Lemma chi2_contingency_statistic (chi2_sf : Qc -> Z -> Qc) (t : DataFrame) :
  (r <- chi2_contingency chi2_sf t ;; Ok (statistic r))
  = statistic_of (values t).
Proof.
  unfold chi2_contingency, statistic_of.
  destruct (table_any _ (values t)); [reflexivity|].
  destruct (size (values t) =? 0); [reflexivity|].
  cbv zeta.
  destruct (table_any _ (expected_freq (values t))); [reflexivity|].
  destruct (_ =? 0)%Z; reflexivity.
Qed.

Lemma chi2_contingency_raises (chi2_sf : Qc -> Z -> Qc) (t : DataFrame) (e : exn) :
  chi2_contingency chi2_sf t = Raise e <-> statistic_of (values t) = Raise e.
Proof.
  rewrite <- (chi2_contingency_statistic chi2_sf).
  destruct (chi2_contingency chi2_sf t); simpl; split; congruence.
Qed.

Lemma chi2_contingency_ok (chi2_sf : Qc -> Z -> Qc) (t : DataFrame) (x : fnum) :
  statistic_of (values t) = Ok x ->
  exists r, chi2_contingency chi2_sf t = Ok r /\ statistic r = x.
Proof.
  rewrite <- (chi2_contingency_statistic chi2_sf).
  destruct (chi2_contingency chi2_sf t) as [r|e]; simpl; intros H.
  - exists r. split; congruence.
  - discriminate.
Qed.

Lemma ncols_transpose_w {A} (d : A) (c : nat) (t : list (list A)) :
  1 <= c -> ncols (transpose_w d c t) = length t.
Proof.
  destruct c as [|c]; [lia|]. intros _. unfold transpose_w. simpl.
  unfold col. apply length_map.
Qed.

Lemma ncols_rect {A} (c : nat) (r : list A) (t : list (list A)) :
  rect c (r :: t) = true -> ncols (r :: t) = c.
Proof. intros H. apply rect_cons in H. simpl. tauto. Qed.

Lemma np_sum_rows (a : list (list fnum)) : np_sum a = fsum (map fsum a).
Proof.
  unfold np_sum. apply (msum_concat fadd fzero fadd_assoc fadd_0_l).
Qed.

Lemma np_sum_transpose_w (c : nat) (a : list (list fnum)) :
  rect c a = true -> np_sum (transpose_w fzero c a) = np_sum a.
Proof.
  intros H. rewrite !np_sum_rows.
  apply msum_transpose_w;
    [exact fadd_assoc | exact fadd_comm | exact fadd_0_l | exact H].
Qed.

Lemma rect_outer {A B C} (g : A -> B -> C) (rs : list A) (cs : list B) :
  rect (length cs) (map (fun r => map (g r) cs) rs) = true.
Proof.
  unfold rect. rewrite forallb_forall. intros r Hr.
  apply in_map_iff in Hr. destruct Hr as [x [<- _]].
  rewrite length_map. apply Nat.eqb_refl.
Qed.

Lemma expected_freq_shape (c : nat) (r : list fnum) (a : list (list fnum)) :
  rect c (r :: a) = true ->
  rect c (expected_freq (r :: a)) = true
  /\ length (expected_freq (r :: a)) = length (r :: a).
Proof.
  intros H. unfold expected_freq, margins. split.
  - rewrite transpose_w_eq, (ncols_rect _ _ _ H).
    rewrite <- (length_transpose_w fzero c (r :: a)) at 1.
    rewrite <- (length_map fsum). apply rect_outer.
  - now rewrite !length_map.
Qed.

(** The expected frequencies of the transposed table are the transposed
    expected frequencies. *)
Lemma expected_freq_transpose_w (c : nat) (r : list fnum)
  (a : list (list fnum)) :
  rect c (r :: a) = true -> 1 <= c ->
  expected_freq (transpose_w fzero c (r :: a))
  = transpose_w fzero c (expected_freq (r :: a)).
Proof.
  intros H Hc.
  assert (Hn : ncols (r :: a) = c) by exact (ncols_rect _ _ _ H).
  remember (r :: a) as t eqn:Et.
  unfold expected_freq, margins.
  rewrite (transpose_w_eq fzero (transpose_w fzero c t)).
  rewrite (ncols_transpose_w fzero t Hc).
  rewrite (transpose_w_involutive fzero c t H).
  rewrite (np_sum_transpose_w c t H).
  rewrite (transpose_w_eq fzero t), Hn.
  set (cs := map fsum (transpose_w fzero c t)).
  assert (Hcs : length cs = c).
  { unfold cs. now rewrite length_map, length_transpose_w. }
  rewrite <- Hcs at 1. rewrite transpose_w_outer.
  apply map_ext. intros x. apply map_ext. intros y.
  now rewrite fmul_comm.
Qed.

(** The statistic of the transposed table is the statistic of the table. *)
Lemma statistic_of_transpose_w (c : nat) (r : list fnum)
  (a : list (list fnum)) :
  rect c (r :: a) = true -> 1 <= c ->
  statistic_of (transpose_w fzero c (r :: a)) = statistic_of (r :: a).
Proof.
  intros H Hc.
  destruct (expected_freq_shape _ _ _ H) as [HE HEl].
  pose proof (expected_freq_transpose_w _ _ H Hc) as HT.
  remember (r :: a) as t eqn:Et.
  assert (Hn : ncols t = c) by (subst t; exact (ncols_rect _ _ _ H)).
  assert (Hl : 1 <= length t) by (subst t; simpl; lia).
  unfold statistic_of.
  rewrite (table_any_transpose_w _ fzero c t H).
  destruct (table_any _ t); [reflexivity|].
  assert (Hs : size (transpose_w fzero c t) = size t).
  { unfold size, nrows. rewrite length_transpose_w, ncols_transpose_w, Hn by lia.
    apply Nat.mul_comm. }
  rewrite Hs. destruct (size t =? 0); [reflexivity|].
  cbv zeta. rewrite HT.
  set (E := expected_freq t) in *.
  rewrite (table_any_transpose_w _ fzero c E HE).
  destruct (table_any _ E); [reflexivity|].
  assert (HnE : ncols E = c).
  { destruct E as [|rE E']; [simpl in HEl; lia|]. exact (ncols_rect _ _ _ HE). }
  assert (Hd : (Z.of_nat (size (transpose_w fzero c E))
                - Z.of_nat (nrows (transpose_w fzero c E)
                            + ncols (transpose_w fzero c E)) + 2 - 1
               = Z.of_nat (size E) - Z.of_nat (nrows E + ncols E) + 2 - 1)%Z).
  { unfold size, nrows.
    rewrite length_transpose_w, ncols_transpose_w, HnE by lia. lia. }
  rewrite Hd. destruct (_ =? 0)%Z; [reflexivity|].
  f_equal.
  assert (Ho : (if (Z.of_nat (size E) - Z.of_nat (nrows E + ncols E) + 2 - 1 =? 1)%Z
                then tmap2 yates_cell (transpose_w fzero c t) (transpose_w fzero c E)
                else transpose_w fzero c t)
               = transpose_w fzero c
                   (if (Z.of_nat (size E) - Z.of_nat (nrows E + ncols E) + 2 - 1 =? 1)%Z
                    then tmap2 yates_cell t E else t)).
  { destruct (_ =? 1)%Z; [|reflexivity].
    symmetry. apply transpose_w_tmap2; assumption. }
  rewrite Ho.
  set (o := if (_ =? 1)%Z then _ else t).
  assert (Hro : rect c o = true).
  { unfold o. destruct (_ =? 1)%Z; [apply rect_tmap2|]; assumption. }
  rewrite <- (transpose_w_tmap2 pearson_term fzero fzero fzero c o E Hro HE).
  apply np_sum_transpose_w. apply rect_tmap2; assumption.
Qed.

(** ** Cramer's V *)

Lemma cal_cramer_v_statistic (chi2_sf : Qc -> Z -> Qc) (t : DataFrame) :
  cal_cramer_v chi2_sf t
  = (chi2 <- statistic_of (values t) ;;
     Ok (np_sqrt
           (fdiv chi2
              (fmul (np_sum (values t))
                 (Fin (qn (Nat.min (nrows t) (ncols t)))))))).
Proof.
  rewrite <- (chi2_contingency_statistic chi2_sf). unfold cal_cramer_v.
  destruct (chi2_contingency chi2_sf t); reflexivity.
Qed.

Lemma values_transpose (t : DataFrame) :
  values (transpose 0%Qc t) = transpose_w fzero (ncols t) (values t).
Proof.
  unfold values. rewrite transpose_w_eq.
  symmetry. apply (transpose_w_map Fin 0%Qc).
Qed.

Lemma rect_values (c : nat) (t : DataFrame) : rect c (values t) = rect c t.
Proof. apply rect_map. Qed.

Lemma cal_cramer_v_transpose (chi2_sf : Qc -> Z -> Qc) (t : DataFrame) :
  rect (ncols t) t = true -> 0 < nrows t -> 0 < ncols t ->
  cal_cramer_v chi2_sf (transpose 0%Qc t) = cal_cramer_v chi2_sf t.
Proof.
  intros H Hr Hc. rewrite !cal_cramer_v_statistic.
  rewrite values_transpose.
  destruct t as [|r a]; [simpl in Hr; lia|].
  set (t := r :: a) in *.
  assert (Hv : rect (ncols t) (values t) = true) by now rewrite rect_values.
  change (values t) with (map Fin r :: values a) in Hv |- * at 1.
  rewrite (statistic_of_transpose_w _ _ Hv) by lia.
  change (map Fin r :: values a) with (values t) in *.
  rewrite (np_sum_transpose_w _ _ Hv).
  rewrite transpose_w_eq.
  unfold nrows. rewrite length_transpose_w, ncols_transpose_w by lia.
  now rewrite Nat.min_comm.
Qed.

(** ** The statistic in exact arithmetic *)

Local Open Scope Qc_scope.

Lemma fsum_Fin (l : list Qc) : fsum (map Fin l) = Fin (qsum l).
Proof.
  induction l as [|a l IH]; [reflexivity|].
  change (fadd (Fin a) (fsum (map Fin l)) = Fin (a + qsum l)).
  rewrite IH. reflexivity.
Qed.

Lemma map_fsum_values (t : DataFrame) :
  map fsum (values t) = map Fin (map qsum t).
Proof.
  unfold values. rewrite !map_map. apply map_ext. intros r. apply fsum_Fin.
Qed.

Lemma np_sum_values (t : DataFrame) : np_sum (values t) = Fin (grand_total t).
Proof.
  rewrite np_sum_rows, map_fsum_values. apply fsum_Fin.
Qed.

Lemma ncols_values (t : DataFrame) : ncols (values t) = ncols t.
Proof. destruct t; simpl; [reflexivity | apply length_map]. Qed.

Lemma margins_values (t : DataFrame) :
  margins (values t) = (map Fin (row_totals t), map Fin (col_totals t)).
Proof.
  unfold margins. rewrite map_fsum_values. f_equal.
  rewrite transpose_w_eq, ncols_values. change fzero with (Fin 0).
  unfold values. rewrite (transpose_w_map Fin 0).
  apply map_fsum_values.
Qed.

Lemma fdiv_Fin (a b : Qc) : b <> 0 -> fdiv (Fin a) (Fin b) = Fin (a / b).
Proof.
  intros H. simpl. apply Qc_eqb_neq in H. change (qz 0) with 0%Qc.
  now rewrite H.
Qed.

Lemma expected_freq_values (t : DataFrame) :
  grand_total t <> 0 ->
  expected_freq (values t) = values (expected_counts t).
Proof.
  intros H. unfold expected_freq. rewrite margins_values, np_sum_values.
  unfold expected_counts, values. rewrite !map_map. apply map_ext. intros r.
  rewrite !map_map. apply map_ext. intros c. simpl fmul.
  apply fdiv_Fin. exact H.
Qed.

Lemma qsum_nonneg_pos (l : list Qc) :
  forallb (Qc_ltb 0) l = true -> 0 <= qsum l.
Proof.
  induction l as [|a l IH]; simpl; intros H.
  - apply Qcle_refl.
  - apply andb_true_iff in H. destruct H as [Ha Hl].
    apply Qc_ltb_lt in Ha. specialize (IH Hl).
    apply Qcle_trans with (0 + 0).
    + rewrite Qcplus_0_l. apply Qcle_refl.
    + apply Qcplus_le_compat; [apply Qclt_le_weak|]; assumption.
Qed.

Lemma qsum_pos (l : list Qc) :
  forallb (Qc_ltb 0) l = true -> l <> [] -> 0 < qsum l.
Proof.
  destruct l as [|a l]; [congruence|]. simpl. intros H _.
  apply andb_true_iff in H. destruct H as [Ha Hl].
  apply Qc_ltb_lt in Ha. apply qsum_nonneg_pos in Hl.
  apply Qclt_le_trans with (a + 0).
  - now rewrite Qcplus_0_r.
  - apply Qcplus_le_compat; [apply Qcle_refl | assumption].
Qed.

Lemma Qcdiv_nonzero (a b : Qc) : a <> 0 -> b <> 0 -> a / b <> 0.
Proof.
  intros Ha Hb H. unfold Qcdiv in H.
  apply Qcmult_integral in H. destruct H as [H|H]; [contradiction|].
  apply (Qcmult_inv_r b) in Hb. rewrite H, Qcmult_0_r in Hb.
  symmetry in Hb. exact (Q_apart_0_1 Hb).
Qed.

Lemma Qcmult_nonzero (a b : Qc) : a <> 0 -> b <> 0 -> a * b <> 0.
Proof.
  intros Ha Hb H. apply Qcmult_integral in H. tauto.
Qed.

Lemma Qc_pos_nonzero (a : Qc) : Qc_ltb 0 a = true -> a <> 0.
Proof.
  intros H. apply Qc_ltb_lt in H. intros ->.
  exact (Qclt_not_eq _ _ H eq_refl).
Qed.

Section Valid.
Variable t : DataFrame.
Hypothesis Hvalid : valid_table t = true.

Lemma valid_rect : rect (ncols t) t = true.
Proof.
  unfold valid_table in Hvalid. rewrite !andb_true_iff in Hvalid. tauto.
Qed.

Lemma valid_nrows : (0 < nrows t)%nat.
Proof.
  unfold valid_table in Hvalid. rewrite !andb_true_iff in Hvalid.
  apply Nat.ltb_lt. tauto.
Qed.

Lemma valid_ncols : (0 < ncols t)%nat.
Proof.
  unfold valid_table in Hvalid. rewrite !andb_true_iff in Hvalid.
  apply Nat.ltb_lt. tauto.
Qed.

Lemma valid_nonneg : nonneg_cells t = true.
Proof.
  unfold valid_table in Hvalid. rewrite !andb_true_iff in Hvalid. tauto.
Qed.

Lemma valid_rows_pos : forallb (Qc_ltb 0) (row_totals t) = true.
Proof.
  unfold valid_table, positive_margins in Hvalid.
  rewrite !andb_true_iff in Hvalid. tauto.
Qed.

Lemma valid_cols_pos : forallb (Qc_ltb 0) (col_totals t) = true.
Proof.
  unfold valid_table, positive_margins in Hvalid.
  rewrite !andb_true_iff in Hvalid. tauto.
Qed.

Lemma valid_total_pos : 0 < grand_total t.
Proof.
  apply qsum_pos; [exact valid_rows_pos|].
  pose proof valid_nrows as H. unfold row_totals, nrows in *.
  destruct t; simpl in *; [lia | discriminate].
Qed.

Lemma valid_total_nonzero : grand_total t <> 0.
Proof.
  intros H. pose proof valid_total_pos as Hp. rewrite H in Hp.
  exact (Qclt_not_eq _ _ Hp eq_refl).
Qed.

Lemma length_col_totals : length (col_totals t) = ncols t.
Proof.
  unfold col_totals. rewrite length_map, transpose_w_eq.
  apply length_transpose_w.
Qed.

Lemma expected_counts_rect : rect (ncols t) (expected_counts t) = true.
Proof.
  unfold expected_counts. rewrite <- length_col_totals. apply rect_outer.
Qed.

Lemma expected_counts_nrows : nrows (expected_counts t) = nrows t.
Proof. unfold expected_counts, nrows, row_totals. now rewrite !length_map. Qed.

Lemma expected_counts_ncols : ncols (expected_counts t) = ncols t.
Proof.
  pose proof expected_counts_rect as H. pose proof expected_counts_nrows as Hn.
  pose proof valid_nrows as Hr. unfold nrows in *.
  destruct (expected_counts t) as [|r E]; [simpl in Hn; lia|].
  exact (ncols_rect _ _ _ H).
Qed.

(** No expected count of a valid table is zero. *)
Lemma expected_counts_nonzero :
  table_any (fun e => Qc_eqb e 0) (expected_counts t) = false.
Proof.
  unfold table_any, expected_counts.
  apply not_true_iff_false. intros H.
  apply existsb_exists in H. destruct H as [row [Hrow H]].
  apply in_map_iff in Hrow. destruct Hrow as [r [<- Hr]].
  apply existsb_exists in H. destruct H as [e [He H]].
  apply in_map_iff in He. destruct He as [c [<- Hc]].
  apply Qc_eqb_eq in H. revert H.
  pose proof valid_rows_pos as Hrp. pose proof valid_cols_pos as Hcp.
  rewrite forallb_forall in Hrp, Hcp.
  apply Qcdiv_nonzero; [apply Qcmult_nonzero|].
  - apply Qc_pos_nonzero, Hrp, Hr.
  - apply Qc_pos_nonzero, Hcp, Hc.
  - exact valid_total_nonzero.
Qed.
End Valid.

Lemma table_any_values (f : fnum -> bool) (t : DataFrame) :
  table_any f (values t) = table_any (fun x => f (Fin x)) t.
Proof.
  unfold table_any, values. induction t as [|r t IH]; simpl; [reflexivity|].
  rewrite IH. f_equal.
  induction r as [|x r IHr]; simpl; [reflexivity | now rewrite IHr].
Qed.

Lemma negative_cells (t : DataFrame) :
  table_any (fun x => fltb x fzero) (values t) = negb (nonneg_cells t).
Proof.
  rewrite table_any_values. unfold table_any, nonneg_cells.
  induction t as [|r t IH]; [reflexivity|].
  cbn [existsb forallb]. rewrite IH, negb_andb. f_equal.
  induction r as [|x r IHr]; [reflexivity|].
  cbn [existsb forallb]. rewrite IHr, negb_andb, negb_involutive.
  reflexivity.
Qed.

Lemma zero_cells (E : DataFrame) :
  table_any (fun x => feqb x fzero) (values E)
  = table_any (fun e => Qc_eqb e 0) E.
Proof. apply table_any_values. Qed.

Lemma size_values (t : DataFrame) : size (values t) = size t.
Proof. unfold size, nrows, values. now rewrite length_map, ncols_values. Qed.

Lemma pearson_term_Fin (o e : Qc) :
  e <> 0 -> pearson_term (Fin o) (Fin e) = Fin (pearson_q o e).
Proof.
  intros H. unfold pearson_term, pearson_q. simpl fsqr.
  apply fdiv_Fin. exact H.
Qed.

Lemma yates_cell_Fin (o e : Qc) : yates_cell (Fin o) (Fin e) = Fin (yates_q o e).
Proof.
  cbv [yates_cell yates_q fsub fopp fadd fsign fsgn fabs fminimum fltb fmul
       Qcminus].
  change (qz 0) with 0.
  destruct (Qc_ltb (if Qc_ltb (e + - o) 0 then - (e + - o) else e + - o) half);
    reflexivity.
Qed.

Lemma tmap2_pearson_values (o E : DataFrame) :
  table_any (fun e => Qc_eqb e 0) E = false ->
  tmap2 pearson_term (values o) (values E) = values (tmap2 pearson_q o E).
Proof.
  unfold table_any, tmap2, values.
  revert E. induction o as [|ro o IH]; intros [|rE E] H; simpl;
    try reflexivity.
  simpl in H. apply orb_false_iff in H. destruct H as [HrE HE].
  rewrite (IH E HE). f_equal. clear IH HE.
  revert rE HrE. induction ro as [|x ro IHr]; intros [|e rE] H; simpl;
    try reflexivity.
  simpl in H. apply orb_false_iff in H. destruct H as [He HrE].
  rewrite (IHr rE HrE). f_equal.
  apply pearson_term_Fin. apply Qc_eqb_neq. exact He.
Qed.

Lemma tmap2_yates_values (o E : DataFrame) :
  tmap2 yates_cell (values o) (values E) = values (tmap2 yates_q o E).
Proof.
  unfold tmap2, values.
  revert E. induction o as [|ro o IH]; intros [|rE E]; simpl;
    try reflexivity.
  rewrite IH. f_equal. clear IH.
  revert rE. induction ro as [|x ro IHr]; intros [|e rE]; simpl;
    try reflexivity.
  rewrite IHr. f_equal. apply yates_cell_Fin.
Qed.

Lemma length_concat_rect {A} (c : nat) (t : list (list A)) :
  rect c t = true -> length (concat t) = (length t * c)%nat.
Proof.
  induction t as [|r t IH]; intros H; [reflexivity|].
  apply rect_cons in H. destruct H as [Hr Ht].
  simpl. rewrite length_app, (IH Ht), Hr. reflexivity.
Qed.

Lemma length_tmap2 {A B C} (f : A -> B -> C)
  (a : list (list A)) (b : list (list B)) :
  length a = length b -> length (tmap2 f a b) = length a.
Proof. apply length_map2. Qed.

Lemma dof_formula (R C : nat) :
  (Z.of_nat (R * C) - Z.of_nat (R + C) + 2 - 1
   = (Z.of_nat R - 1) * (Z.of_nat C - 1))%Z.
Proof. rewrite Nat2Z.inj_mul, Nat2Z.inj_add. ring. Qed.

Lemma size_rect {A} (c : nat) (t : list (list A)) :
  rect c t = true -> (0 < length t)%nat -> size t = (length t * c)%nat.
Proof.
  intros H Hl. unfold size, nrows. f_equal.
  destruct t as [|r t]; [simpl in Hl; lia|]. exact (ncols_rect _ _ _ H).
Qed.

(** ** Tables with no degree of freedom *)

Lemma pearson_q_diag (x : Qc) : pearson_q x x = 0.
Proof.
  unfold pearson_q, Qcminus, Qcdiv. rewrite Qcplus_opp_r, !Qcmult_0_l.
  reflexivity.
Qed.

Lemma pearson_diag (t : DataFrame) : qsum (map qsum (tmap2 pearson_q t t)) = 0.
Proof.
  unfold tmap2. induction t as [|r t IH]; [reflexivity|].
  simpl. rewrite IH, Qcplus_0_r. clear IH.
  induction r as [|x r IHr]; [reflexivity|].
  simpl. rewrite IHr, pearson_q_diag. apply Qcplus_0_l.
Qed.

Lemma Qc_ratio (n x : Qc) : n <> 0 -> n * x / n = x.
Proof. intros H. rewrite Qcmult_comm. apply Qcdiv_mult_l. exact H. Qed.

Lemma qsum_transpose_w (c : nat) (t : DataFrame) :
  rect c t = true ->
  qsum (map qsum (transpose_w 0 c t)) = qsum (map qsum t).
Proof.
  intros H. change qsum with (msum Qcplus 0). apply msum_transpose_w.
  - apply Qcplus_assoc.
  - apply Qcplus_comm.
  - apply Qcplus_0_l.
  - exact H.
Qed.

(** With a single row or a single column the expected counts are the
    observed ones. *)
Lemma expected_counts_degenerate (t : DataFrame) :
  valid_table t = true -> degrees_of_freedom t = 0%Z ->
  expected_counts t = t.
Proof.
  intros Hv Hd.
  pose proof (valid_rect t Hv) as Hrect.
  pose proof (valid_nrows t Hv) as Hr.
  pose proof (valid_ncols t Hv) as Hc.
  pose proof (valid_total_nonzero t Hv) as Hn.
  unfold degrees_of_freedom in Hd.
  assert (Hcase : nrows t = 1%nat \/ ncols t = 1%nat) by nia.
  clear Hd. unfold expected_counts.
  destruct Hcase as [H1 | H1].
  - (* one row *)
    unfold nrows in H1. destruct t as [|r [|r' t']]; simpl in H1; try lia.
    unfold col_totals, row_totals, grand_total, row_totals in *.
    rewrite transpose_w_eq. cbn [ncols map qsum fold_right] in *.
    unfold transpose_w, col. rewrite !map_map. cbn [map qsum fold_right].
    f_equal. rewrite Qcplus_0_r in *.
    transitivity (map (fun j => nth j r 0) (seq 0 (length r)));
      [| apply map_nth_seq].
    apply map_ext. intros j. rewrite Qcplus_0_r. apply Qc_ratio. exact Hn.
  - (* one column *)
    unfold col_totals. rewrite transpose_w_eq, H1.
    pose proof (qsum_transpose_w 1 t) as Ht. rewrite H1 in Hrect.
    specialize (Ht Hrect).
    unfold transpose_w in *. cbn [seq map qsum fold_right] in *.
    rewrite Qcplus_0_r in Ht. rewrite Ht. fold (row_totals t).
    fold (grand_total t). unfold row_totals. rewrite map_map.
    transitivity (map (fun r : list Qc => r) t); [| apply map_id].
    apply map_ext_in. intros r Hin.
    pose proof (rect_In 1 t r Hrect Hin) as Hlen.
    destruct r as [|a [|b r']]; simpl in Hlen; try lia.
    cbn [qsum fold_right]. rewrite Qcplus_0_r. f_equal.
    unfold Qcdiv. rewrite <- Qcmult_assoc, Qcmult_inv_r by exact Hn.
    apply Qcmult_1_r.
Qed.

Lemma pearson_statistic_degenerate (t : DataFrame) :
  valid_table t = true -> degrees_of_freedom t = 0%Z ->
  pearson_statistic t = 0.
Proof.
  intros Hv Hd. unfold pearson_statistic.
  rewrite (expected_counts_degenerate t Hv Hd). apply pearson_diag.
Qed.

(** On a valid table [chi2_contingency] returns, and its result is the one
    of exact arithmetic. *)
Lemma chi2_contingency_valid (chi2_sf : Qc -> Z -> Qc) (t : DataFrame) :
  valid_table t = true ->
  chi2_contingency chi2_sf t
  = Ok (mkChi2 (Fin (chi2_statistic t)) (chi2_pvalue chi2_sf t)
          (degrees_of_freedom t) (values (expected_counts t))).
Proof.
  intros Hv.
  pose proof (valid_rect t Hv) as Hrect.
  pose proof (valid_nrows t Hv) as Hr.
  pose proof (valid_ncols t Hv) as Hc.
  pose proof (expected_counts_rect t) as HE.
  pose proof (expected_counts_nrows t) as HEr.
  pose proof (expected_counts_ncols t Hv) as HEc.
  pose proof (expected_counts_nonzero t Hv) as HEz.
  unfold chi2_contingency.
  rewrite negative_cells, (valid_nonneg t Hv). cbn [negb].
  rewrite size_values.
  assert (Hs : (size t =? 0)%nat = false).
  { apply Nat.eqb_neq. unfold size. nia. }
  rewrite Hs. cbv zeta.
  rewrite (expected_freq_values t (valid_total_nonzero t Hv)).
  rewrite zero_cells, HEz.
  set (E := expected_counts t) in *.
  assert (Hd : (Z.of_nat (size (values E))
                - Z.of_nat (nrows (values E) + ncols (values E)) + 2 - 1
                = degrees_of_freedom t)%Z).
  { rewrite size_values, ncols_values.
    assert (Hn : nrows (values E) = nrows E)
      by (unfold nrows, values; apply length_map).
    rewrite Hn. unfold size. rewrite HEr, HEc.
    apply dof_formula. }
  rewrite Hd. unfold chi2_pvalue.
  destruct (degrees_of_freedom t =? 0)%Z eqn:E0.
  { apply Z.eqb_eq in E0. unfold chi2_statistic.
    rewrite (pearson_statistic_degenerate t Hv E0), E0. reflexivity. }
  unfold chi2_statistic.
  unfold power_divergence.
  assert (Hobs : exists o : DataFrame,
             (if (degrees_of_freedom t =? 1)%Z
              then tmap2 yates_cell (values t) (values E) else values t)
             = values o
             /\ rect (ncols t) o = true /\ length o = length t
             /\ qsum (map qsum (tmap2 pearson_q o E))
                = (if (degrees_of_freedom t =? 1)%Z
                   then yates_statistic t else pearson_statistic t)).
  { destruct (degrees_of_freedom t =? 1)%Z.
    - exists (tmap2 yates_q t E). rewrite tmap2_yates_values.
      repeat split.
      + apply rect_tmap2; assumption.
      + apply length_tmap2. unfold nrows in HEr. congruence.
    - exists t. repeat split. exact Hrect. }
  destruct Hobs as [o [-> [Ho [Hol Hstat]]]].
  rewrite (tmap2_pearson_values o E HEz).
  set (T := tmap2 pearson_q o E).
  assert (HT : rect (ncols t) T = true) by (apply rect_tmap2; assumption).
  assert (HTl : length T = length t).
  { unfold T. rewrite length_tmap2; [exact Hol|].
    unfold nrows in HEr. congruence. }
  rewrite np_sum_values. unfold grand_total, row_totals.
  change (qsum (map qsum T)) with (qsum (map qsum (tmap2 pearson_q o E))).
  rewrite Hstat. cbn [sf].
  assert (Hdf : (Z.of_nat (length (concat (values T))) - 1
                 - (Z.of_nat (size (values o)) - 1 - degrees_of_freedom t)
                 = degrees_of_freedom t)%Z).
  { rewrite (length_concat_rect (ncols t)) by (now rewrite rect_values).
    rewrite size_values, (size_rect _ _ Ho) by (unfold nrows in Hr; lia).
    unfold values at 1. rewrite length_map, HTl, Hol. lia. }
  rewrite Hdf. reflexivity.
Qed.

(** ** The independence test *)

Lemma decision_message_inj (d d' : decision) :
  decision_message d = decision_message d' -> d = d'.
Proof. destruct d, d'; simpl; intros H; try reflexivity; discriminate. Qed.

(** What a successful call of [chi_square_test] returns and prints. *)
Lemma chi_square_test_inv (chi2_sf : Qc -> Z -> Qc) (t : DataFrame)
  (alpha : fnum) (out : list line) (ret : list pyval) :
  chi_square_test chi2_sf t alpha = Ok (out, ret) ->
  exists r,
    chi2_contingency chi2_sf t = Ok r
    /\ ret = [PyFloat (statistic r); PyFloat (pvalue r); PyInt (dof r);
              PyArray (expected_table r)]
    /\ forall d, In [Text (decision_message d)] out
                 <-> d = decide (pvalue r) alpha.
Proof.
  unfold chi_square_test.
  destruct (chi2_contingency chi2_sf t) as [r|e]; simpl; [|discriminate].
  intros H. injection H as <- <-. exists r. repeat split.
  - intros [H|[H|[H|[H|[H|[H|H]]]]]]; try discriminate;
      try (destruct d; discriminate).
    + injection H as H. symmetry. now apply decision_message_inj.
    + apply in_map_iff in H. destruct H as [row [H _]]. discriminate.
  - intros ->. do 4 right. left. reflexivity.
Qed.

Lemma chi_square_test_valid (chi2_sf : Qc -> Z -> Qc) (t : DataFrame)
  (alpha : fnum) :
  valid_table t = true ->
  exists out,
    chi_square_test chi2_sf t alpha
    = Ok (out, [PyFloat (Fin (chi2_statistic t));
                PyFloat (chi2_pvalue chi2_sf t);
                PyInt (degrees_of_freedom t);
                PyArray (values (expected_counts t))])
    /\ In [Text (decision_message (decide (chi2_pvalue chi2_sf t) alpha))] out.
Proof.
  intros Hv. unfold chi_square_test.
  rewrite (chi2_contingency_valid chi2_sf t Hv). simpl.
  eexists. split; [reflexivity|]. do 4 right. left. reflexivity.
Qed.

(** C1.  [chi_square_test] prints "Reject H0" exactly when the p-value
    that [chi2_contingency] computed for the table is strictly below
    [alpha], and "Fail to reject H0" otherwise.  This holds of every call
    that runs to its end; and on a valid table of whole counts with a
    total in the range of [int64] the call does run to its end, the
    p-value being that of the statistic of the table with [(R-1)(C-1)]
    degrees of freedom. *)
Theorem chi_square_test_decision_rule (chi2_sf : Qc -> Z -> Qc)
  (t : DataFrame) (alpha : fnum) :
  (forall out ret,
      chi_square_test chi2_sf t alpha = Ok (out, ret) ->
      exists r,
        chi2_contingency chi2_sf t = Ok r
        /\ ret = [PyFloat (statistic r); PyFloat (pvalue r); PyInt (dof r);
                  PyArray (expected_table r)]
        /\ (In [Text (decision_message REJECT_H0)] out
            <-> fltb (pvalue r) alpha = true)
        /\ (In [Text (decision_message FAIL_TO_REJECT_H0)] out
            <-> fltb (pvalue r) alpha = false))
  /\ (valid_table t = true -> whole_counts t = true ->
      fits_int64 (grand_total t) = true ->
      exists out ret,
        chi_square_test chi2_sf t alpha = Ok (out, ret)
        /\ (In [Text (decision_message REJECT_H0)] out
            <-> fltb (chi2_pvalue chi2_sf t) alpha = true)
        /\ (In [Text (decision_message FAIL_TO_REJECT_H0)] out
            <-> fltb (chi2_pvalue chi2_sf t) alpha = false)).
Proof.
  assert (Hrule : forall out ret,
            chi_square_test chi2_sf t alpha = Ok (out, ret) ->
            exists r,
              chi2_contingency chi2_sf t = Ok r
              /\ ret = [PyFloat (statistic r); PyFloat (pvalue r);
                        PyInt (dof r); PyArray (expected_table r)]
              /\ (In [Text (decision_message REJECT_H0)] out
                  <-> fltb (pvalue r) alpha = true)
              /\ (In [Text (decision_message FAIL_TO_REJECT_H0)] out
                  <-> fltb (pvalue r) alpha = false)).
  { intros out ret H. apply chi_square_test_inv in H.
    destruct H as [r [Hr [-> Hd]]]. exists r.
    split; [exact Hr|]. split; [reflexivity|].
    rewrite !Hd. unfold decide.
    destruct (fltb (pvalue r) alpha); split; split; congruence. }
  split; [exact Hrule|].
  intros Hv _ _.
  destruct (chi_square_test_valid chi2_sf t alpha Hv) as [out [H _]].
  destruct (Hrule _ _ H) as [r [Hr [_ [Hrej Hfail]]]].
  rewrite (chi2_contingency_valid chi2_sf t Hv) in Hr.
  injection Hr as <-. cbn [pvalue] in Hrej, Hfail.
  eexists. eexists. split; [exact H|]. split; assumption.
Qed.

Lemma chi_square_test_decision_rule_witness :
  (exists out ret,
      chi_square_test sf_sample ex_strong alpha05 = Ok (out, ret)
      /\ In [Text (decision_message REJECT_H0)] out
      /\ ~ In [Text (decision_message FAIL_TO_REJECT_H0)] out)
  /\ (exists out ret,
         chi_square_test sf_sample ex_even alpha05 = Ok (out, ret)
         /\ In [Text (decision_message FAIL_TO_REJECT_H0)] out
         /\ ~ In [Text (decision_message REJECT_H0)] out).
Proof.
  assert (Hs : valid_table ex_strong = true) by (vm_compute; reflexivity).
  assert (Hsw : whole_counts ex_strong = true) by (vm_compute; reflexivity).
  assert (Hsb : fits_int64 (grand_total ex_strong) = true)
    by (vm_compute; reflexivity).
  assert (He : valid_table ex_even = true) by (vm_compute; reflexivity).
  assert (Hew : whole_counts ex_even = true) by (vm_compute; reflexivity).
  assert (Heb : fits_int64 (grand_total ex_even) = true)
    by (vm_compute; reflexivity).
  split.
  - destruct (proj2 (chi_square_test_decision_rule sf_sample ex_strong
                       alpha05) Hs Hsw Hsb) as [out [ret [H [Hr Hf]]]].
    exists out, ret. split; [exact H|]. split.
    + apply Hr. vm_compute. reflexivity.
    + intros Hin. apply Hf in Hin. vm_compute in Hin. discriminate Hin.
  - destruct (proj2 (chi_square_test_decision_rule sf_sample ex_even
                       alpha05) He Hew Heb) as [out [ret [H [Hr Hf]]]].
    exists out, ret. split; [exact H|]. split.
    + apply Hf. vm_compute. reflexivity.
    + intros Hin. apply Hr in Hin. vm_compute in Hin. discriminate Hin.
Defined.

(** C6, as the code has it.  For every valid contingency table
    [chi_square_test] returns a tuple of four components: the statistic, the
    p-value, the degrees of freedom and the table of expected frequencies.
    The decision is printed; it is not part of the returned value. *)
Theorem chi_square_test_components (chi2_sf : Qc -> Z -> Qc) (t : DataFrame)
  (alpha : fnum) :
  valid_table t = true ->
  exists out ret,
    chi_square_test chi2_sf t alpha = Ok (out, ret)
    /\ ret = [PyFloat (Fin (chi2_statistic t));
              PyFloat (chi2_pvalue chi2_sf t);
              PyInt (degrees_of_freedom t);
              PyArray (values (expected_counts t))]
    /\ In [Text (decision_message (decide (chi2_pvalue chi2_sf t) alpha))] out
    /\ forall s, ~ In (PyStr s) ret.
Proof.
  intros Hv. destruct (chi_square_test_valid chi2_sf t alpha Hv) as [out [H Hd]].
  exists out. eexists. split; [exact H|]. split; [reflexivity|].
  split; [exact Hd|].
  intros s [E|[E|[E|[E|[]]]]]; discriminate.
Qed.

Lemma chi_square_test_components_witness :
  valid_table ex_2x2 = true
  /\ exists out ret,
       chi_square_test sf_sample ex_2x2 alpha05 = Ok (out, ret)
       /\ ret = [PyFloat (Fin (chi2_statistic ex_2x2));
                 PyFloat (chi2_pvalue sf_sample ex_2x2);
                 PyInt (degrees_of_freedom ex_2x2);
                 PyArray (values (expected_counts ex_2x2))]
       /\ In [Text (decision_message
                      (decide (chi2_pvalue sf_sample ex_2x2) alpha05))] out
       /\ forall s, ~ In (PyStr s) ret.
Proof.
  assert (Hv : valid_table ex_2x2 = true) by (vm_compute; reflexivity).
  split; [exact Hv|].
  exact (chi_square_test_components sf_sample ex_2x2 alpha05 Hv).
Defined.

(** C6, as stated, fails: on [[10,20],[20,10]] the returned tuple has four
    components and none of them is a decision label. *)
Lemma chi_square_test_returns_no_decision :
  exists out ret,
    chi_square_test sf_sample ex_2x2 alpha05 = Ok (out, ret)
    /\ length ret = 4%nat
    /\ forall s, ~ In (PyStr s) ret.
Proof.
  destruct (chi_square_test sf_sample ex_2x2 alpha05) as [[out ret]|e] eqn:E.
  - exists out, ret. split; [reflexivity|].
    destruct (chi_square_test_inv _ _ _ E) as [r [_ [-> _]]].
    split; [reflexivity|].
    intros s [H|[H|[H|[H|[]]]]]; discriminate.
  - vm_compute in E. discriminate E.
Qed.

(** The degrees of freedom of any result of [chi2_contingency] on a
    rectangular table. *)
Lemma chi2_contingency_dof (chi2_sf : Qc -> Z -> Qc) (t : DataFrame)
  (r : Chi2ContingencyResult) :
  rect (ncols t) t = true -> (0 < nrows t)%nat ->
  chi2_contingency chi2_sf t = Ok r ->
  dof r = degrees_of_freedom t.
Proof.
  intros Hrect Hr. unfold chi2_contingency.
  destruct (table_any _ (values t)); [discriminate|].
  destruct (size (values t) =? 0)%nat; [discriminate|].
  cbv zeta.
  destruct (table_any _ (expected_freq (values t))); [discriminate|].
  assert (Hd : (Z.of_nat (size (expected_freq (values t)))
                - Z.of_nat (nrows (expected_freq (values t))
                            + ncols (expected_freq (values t))) + 2 - 1
                = degrees_of_freedom t)%Z).
  { destruct t as [|r0 a]; [simpl in Hr; lia|].
    assert (Hv : rect (ncols (r0 :: a)) (values (r0 :: a)) = true)
      by now rewrite rect_values.
    change (values (r0 :: a)) with (map Fin r0 :: values a) in *.
    destruct (expected_freq_shape _ _ _ Hv) as [HE HEl].
    destruct (expected_freq (map Fin r0 :: values a)) as [|rE E];
      [simpl in HEl; lia|].
    unfold size, nrows. rewrite (ncols_rect _ _ _ HE), HEl.
    assert (Hl : length (map Fin r0 :: values a) = length (r0 :: a))
      by (unfold values; simpl; now rewrite length_map).
    rewrite Hl. apply dof_formula. }
  rewrite Hd.
  destruct (degrees_of_freedom t =? 0)%Z.
  - intros H. injection H as <-. reflexivity.
  - destruct (power_divergence _ _ _ _) as [chi2 p].
    intros H. injection H as <-. reflexivity.
Qed.

(** C9.  On a rectangular R x C table with R >= 2 and C >= 2, every result
    of [chi_square_test] carries [(R-1)*(C-1)] degrees of freedom; and the
    call does return when no cell is negative and no row or column is
    empty. *)
Theorem chi_square_test_degrees_of_freedom (chi2_sf : Qc -> Z -> Qc)
  (t : DataFrame) (alpha : fnum) :
  rect (ncols t) t = true -> (2 <= nrows t)%nat -> (2 <= ncols t)%nat ->
  (forall out ret,
      chi_square_test chi2_sf t alpha = Ok (out, ret) ->
      exists chi2 p expected,
        ret = [PyFloat chi2; PyFloat p;
               PyInt ((Z.of_nat (nrows t) - 1) * (Z.of_nat (ncols t) - 1));
               PyArray expected])
  /\ (valid_table t = true ->
      is_ok (chi_square_test chi2_sf t alpha) = true).
Proof.
  intros Hrect Hr Hc. split.
  - intros out ret H. apply chi_square_test_inv in H.
    destruct H as [r [Hr' [-> _]]].
    exists (statistic r), (pvalue r), (expected_table r).
    rewrite (chi2_contingency_dof chi2_sf t Hrect) by (assumption || lia).
    reflexivity.
  - intros Hv. destruct (chi_square_test_valid chi2_sf t alpha Hv) as [out [H _]].
    rewrite H. reflexivity.
Qed.

Lemma chi_square_test_degrees_of_freedom_witness :
  (forall out ret,
      chi_square_test sf_sample ex_smoker alpha05 = Ok (out, ret) ->
      exists chi2 p expected,
        ret = [PyFloat chi2; PyFloat p;
               PyInt ((Z.of_nat (nrows ex_smoker) - 1)
                      * (Z.of_nat (ncols ex_smoker) - 1));
               PyArray expected])
  /\ (valid_table ex_smoker = true ->
      is_ok (chi_square_test sf_sample ex_smoker alpha05) = true).
Proof.
  apply (chi_square_test_degrees_of_freedom sf_sample ex_smoker alpha05).
  - vm_compute. reflexivity.
  - vm_compute. lia.
  - vm_compute. lia.
Defined.

(** ** Cramer's V and its adjusted variant *)

Lemma qn_nonzero (k : nat) : (0 < k)%nat -> qn k <> 0.
Proof.
  intros Hk H. unfold qn, qz in H.
  apply Q2Qc_eq_iff in H. unfold Qeq in H. simpl in H. lia.
Qed.

(** On a valid table [cal_cramer_v] returns [sqrt(chi2 / (n * k))], in
    exact arithmetic. *)
Lemma cal_cramer_v_valid (chi2_sf : Qc -> Z -> Qc) (t : DataFrame) :
  valid_table t = true ->
  cal_cramer_v chi2_sf t
  = Ok (np_sqrt
          (Fin (chi2_statistic t
                / (grand_total t * qn (Nat.min (nrows t) (ncols t)))))).
Proof.
  intros Hv. unfold cal_cramer_v.
  rewrite (chi2_contingency_valid chi2_sf t Hv). cbn [bind statistic].
  rewrite np_sum_values. cbn [fmul]. rewrite fdiv_Fin; [reflexivity|].
  apply Qcmult_nonzero.
  - exact (valid_total_nonzero t Hv).
  - apply qn_nonzero.
    pose proof (valid_nrows t Hv). pose proof (valid_ncols t Hv). lia.
Qed.

(** C2, as the code has it.  For every valid contingency table (no negative
    cell, no empty row or column) of whole counts whose total [n], times
    [k], is in the range of [int64], [cal_cramer_v] returns
    [sqrt(chi2 / (n * k))] with
    [k = min(R, C)], where [chi2] is the statistic of [chi2_contingency]:
    the Pearson chi-square statistic, corrected for continuity when the
    table has one degree of freedom. *)
Theorem cal_cramer_v_formula (chi2_sf : Qc -> Z -> Qc) (t : DataFrame) :
  valid_table t = true -> whole_counts t = true ->
  fits_int64 (grand_total t * qn (Nat.min (nrows t) (ncols t))) = true ->
  cal_cramer_v chi2_sf t
  = Ok (np_sqrt
          (Fin (chi2_statistic t
                / (grand_total t * qn (Nat.min (nrows t) (ncols t)))))).
Proof.
  intros Hv _ _. unfold cal_cramer_v.
  rewrite (chi2_contingency_valid chi2_sf t Hv). cbn [bind statistic].
  rewrite np_sum_values. cbn [fmul]. rewrite fdiv_Fin; [reflexivity|].
  apply Qcmult_nonzero.
  - exact (valid_total_nonzero t Hv).
  - apply qn_nonzero.
    pose proof (valid_nrows t Hv). pose proof (valid_ncols t Hv). lia.
Qed.

Lemma cal_cramer_v_formula_witness :
  (valid_table ex_2x2 = true /\ whole_counts ex_2x2 = true
   /\ fits_int64 (grand_total ex_2x2
                  * qn (Nat.min (nrows ex_2x2) (ncols ex_2x2))) = true)
  /\ cal_cramer_v sf_sample ex_2x2
     = Ok (np_sqrt
             (Fin (chi2_statistic ex_2x2
                   / (grand_total ex_2x2
                      * qn (Nat.min (nrows ex_2x2) (ncols ex_2x2)))))).
Proof.
  assert (Hv : valid_table ex_2x2 = true) by (vm_compute; reflexivity).
  assert (Hb : fits_int64 (grand_total ex_2x2
                           * qn (Nat.min (nrows ex_2x2) (ncols ex_2x2)))
               = true) by (vm_compute; reflexivity).
  assert (Hw : whole_counts ex_2x2 = true) by (vm_compute; reflexivity).
  split; [repeat split; assumption|].
  exact (cal_cramer_v_formula sf_sample ex_2x2 Hv Hw Hb).
Defined.

(** C2, as stated, fails twice.  [[0,0],[5,10]] has the grand total 15 and
    [cal_cramer_v] raises [ValueError] on it.  On [[10,20],[20,10]] the
    value returned is [sqrt(9/200)], from the corrected statistic [27/5],
    and not [sqrt(1/18)], which the Pearson statistic [20/3] gives. *)
Lemma cal_cramer_v_not_pearson :
  (Qc_ltb 0 (grand_total ex_zero_row) = true
   /\ raises (cal_cramer_v sf_sample ex_zero_row) ValueError = true)
  /\ (Qc_eqb (pearson_statistic ex_2x2) (Q2Qc (20 # 3)) = true
      /\ exists v,
           cal_cramer_v sf_sample ex_2x2 = Ok v
           /\ root_eqb v (Sqrt (Q2Qc (9 # 200))) = true
           /\ root_eqb v
                (np_sqrt
                   (Fin (pearson_statistic ex_2x2
                         / (grand_total ex_2x2 * qn 2)))) = false).
Proof.
  split; [split; vm_compute; reflexivity|].
  split; [vm_compute; reflexivity|].
  destruct (cal_cramer_v sf_sample ex_2x2) as [v|e] eqn:E.
  - exists v. split; [reflexivity|].
    vm_compute in E. injection E as <-.
    split; vm_compute; reflexivity.
  - vm_compute in E. discriminate E.
Qed.

(** C3.  [cal_cramer_v_adjusted] never returns a value: its helper
    [cal_k_val] raises [NameError] for the unbound name [r] whatever its
    arguments, so every call that gets as far as the helper ends with that
    [NameError]. *)
Theorem cal_cramer_v_adjusted_never_returns (chi2_sf : Qc -> Z -> Qc)
  (t : DataFrame) :
  is_ok (cal_cramer_v_adjusted chi2_sf t) = false
  /\ (forall num n, cal_k_val num n = Raise (NameError "r"))
  /\ (forall numerator,
         adjusted_numerator chi2_sf t = Ok numerator ->
         cal_cramer_v_adjusted chi2_sf t = Raise (NameError "r")).
Proof.
  assert (Hk : forall num n, cal_k_val num n = Raise (NameError "r"))
    by reflexivity.
  unfold cal_cramer_v_adjusted.
  destruct (adjusted_numerator chi2_sf t) as [numerator|e]; cbn [bind].
  - unfold shape. rewrite Hk. cbn [bind]. repeat split; try assumption.
  - repeat split; try assumption. intros numerator H. discriminate H.
Qed.

(** The helper is reached on the table of the docstring. *)
Example cal_cramer_v_adjusted_docstring :
  is_ok (adjusted_numerator sf_sample ex_smoker) = true
  /\ raises (cal_cramer_v_adjusted sf_sample ex_smoker) (NameError "r") = true.
Proof. split; vm_compute; reflexivity. Qed.

Lemma qmax0_nonneg (x : Qc) : 0 <= qmax0 x.
Proof.
  unfold qmax0. destruct (Qc_ltb 0 x) eqn:E.
  - apply Qclt_le_weak, Qc_ltb_lt, E.
  - apply Qcle_refl.
Qed.

(** C8, as the code has it.  For every valid contingency table of whole
    counts with grand total [n > 1] in the range of [int64] the numerator of
    [cal_cramer_v_adjusted] is [max(0, chi2/n - (C-1)*(R-1)/(n-1))], where
    [chi2] is the statistic of [chi2_contingency] (Pearson, corrected for
    continuity with one degree of freedom); it is never negative. *)
Theorem adjusted_numerator_formula (chi2_sf : Qc -> Z -> Qc) (t : DataFrame) :
  valid_table t = true -> Qc_ltb 1 (grand_total t) = true ->
  whole_counts t = true -> fits_int64 (grand_total t) = true ->
  adjusted_numerator chi2_sf t
  = Ok (Fin (qmax0 (chi2_statistic t / grand_total t
                    - qz ((Z.of_nat (ncols t) - 1) * (Z.of_nat (nrows t) - 1))
                      / (grand_total t - 1))))
  /\ 0 <= qmax0 (chi2_statistic t / grand_total t
                 - qz ((Z.of_nat (ncols t) - 1) * (Z.of_nat (nrows t) - 1))
                   / (grand_total t - 1)).
Proof.
  intros Hv Hn _ _. split; [|apply qmax0_nonneg].
  unfold adjusted_numerator.
  rewrite (chi2_contingency_valid chi2_sf t Hv). cbn [bind statistic].
  rewrite np_sum_values. unfold shape.
  rewrite (fdiv_Fin _ (valid_total_nonzero t Hv)).
  assert (H1 : grand_total t - 1 <> 0).
  { apply Qc_ltb_lt in Hn. intros H.
    apply Qclt_minus_iff in Hn. unfold Qcminus in H. rewrite H in Hn.
    exact (Qclt_not_eq _ _ Hn eq_refl). }
  change (fsub (Fin (grand_total t)) fone) with (Fin (grand_total t - 1)).
  rewrite (fdiv_Fin _ H1).
  change (fsub (Fin ?a) (Fin ?b)) with (Fin (a - b)).
  unfold pymax, qmax0, fzero. cbn [fltb]. change (qz 0) with 0.
  destruct (Qc_ltb 0 _); reflexivity.
Qed.

Lemma adjusted_numerator_formula_witness :
  (valid_table ex_smoker = true /\ Qc_ltb 1 (grand_total ex_smoker) = true
   /\ whole_counts ex_smoker = true
   /\ fits_int64 (grand_total ex_smoker) = true)
  /\ adjusted_numerator sf_sample ex_smoker
     = Ok (Fin (qmax0 (chi2_statistic ex_smoker / grand_total ex_smoker
                       - qz ((Z.of_nat (ncols ex_smoker) - 1)
                             * (Z.of_nat (nrows ex_smoker) - 1))
                         / (grand_total ex_smoker - 1))))
  /\ 0 <= qmax0 (chi2_statistic ex_smoker / grand_total ex_smoker
                 - qz ((Z.of_nat (ncols ex_smoker) - 1)
                       * (Z.of_nat (nrows ex_smoker) - 1))
                   / (grand_total ex_smoker - 1)).
Proof.
  assert (Hv : valid_table ex_smoker = true) by (vm_compute; reflexivity).
  assert (Hn : Qc_ltb 1 (grand_total ex_smoker) = true)
    by (vm_compute; reflexivity).
  assert (Hw : whole_counts ex_smoker = true) by (vm_compute; reflexivity).
  assert (Hb : fits_int64 (grand_total ex_smoker) = true)
    by (vm_compute; reflexivity).
  split; [repeat split; assumption|].
  exact (adjusted_numerator_formula sf_sample ex_smoker Hv Hn Hw Hb).
Defined.

(** C8, as stated, fails twice.  [[0,0],[5,10]] has the grand total 15 and
    no numerator is computed: [chi2_contingency] raises [ValueError].  On
    [[10,20],[20,10]] the numerator is [431/5900], from the corrected
    statistic [27/5], and not [50/531], which the Pearson statistic [20/3]
    gives. *)
Lemma adjusted_numerator_not_pearson :
  (Qc_ltb 1 (grand_total ex_zero_row) = true
   /\ raises (adjusted_numerator sf_sample ex_zero_row) ValueError = true)
  /\ (Qc_ltb 1 (grand_total ex_2x2) = true
      /\ exists v,
           adjusted_numerator sf_sample ex_2x2 = Ok v
           /\ feqb v (Fin (Q2Qc (431 # 5900))) = true
           /\ feqb v
                (Fin (qmax0 (pearson_statistic ex_2x2 / grand_total ex_2x2
                             - qz ((2 - 1) * (2 - 1))
                               / (grand_total ex_2x2 - 1)))) = false).
Proof.
  split; [split; vm_compute; reflexivity|].
  split; [vm_compute; reflexivity|].
  destruct (adjusted_numerator sf_sample ex_2x2) as [v|e] eqn:E.
  - exists v. split; [reflexivity|].
    vm_compute in E. injection E as <-.
    split; vm_compute; reflexivity.
  - vm_compute in E. discriminate E.
Qed.

(** ** Failures of the test *)

Lemma Qc_zero_ratio (c n : Qc) : 0 * c / n = 0.
Proof. unfold Qcdiv. now rewrite !Qcmult_0_l. Qed.

Lemma Qc_ratio_zero (r n : Qc) : r * 0 / n = 0.
Proof. unfold Qcdiv. now rewrite Qcmult_0_r, Qcmult_0_l. Qed.

(** An empty row or column gives a zero expected count. *)
Lemma expected_counts_zero_margin (t : DataFrame) :
  (0 < nrows t)%nat -> (0 < ncols t)%nat ->
  existsb (fun x => Qc_eqb x 0) (row_totals t)
  || existsb (fun x => Qc_eqb x 0) (col_totals t) = true ->
  table_any (fun e => Qc_eqb e 0) (expected_counts t) = true.
Proof.
  intros Hr Hc H. unfold table_any, expected_counts.
  assert (Hrows : exists r0 rs, row_totals t = r0 :: rs).
  { unfold row_totals, nrows in *. destruct t; simpl in *; [lia|].
    eexists. eexists. reflexivity. }
  assert (Hcols : exists c0 cs, col_totals t = c0 :: cs).
  { pose proof (length_col_totals t) as Hl.
    destruct (col_totals t); simpl in Hl; [lia|].
    eexists. eexists. reflexivity. }
  destruct Hrows as [r0 [rs Hrows]]. destruct Hcols as [c0 [cs Hcols]].
  apply orb_true_iff in H. destruct H as [H|H];
    apply existsb_exists in H; destruct H as [x [Hx Hz]];
    apply Qc_eqb_eq in Hz; subst x; apply existsb_exists.
  - exists (map (fun c => 0 * c / grand_total t) (col_totals t)). split.
    + apply (in_map (fun r => map (fun c => r * c / grand_total t)
                                (col_totals t))). exact Hx.
    + apply existsb_exists. exists (0 * c0 / grand_total t). split.
      * rewrite Hcols. left. reflexivity.
      * apply Qc_eqb_eq. apply Qc_zero_ratio.
  - exists (map (fun c => r0 * c / grand_total t) (col_totals t)). split.
    + rewrite Hrows. left. reflexivity.
    + apply existsb_exists. exists (r0 * 0 / grand_total t). split.
      * apply (in_map (fun c => r0 * c / grand_total t)). exact Hx.
      * apply Qc_eqb_eq. apply Qc_ratio_zero.
Qed.

Lemma chi2_contingency_zero_margin (chi2_sf : Qc -> Z -> Qc) (t : DataFrame) :
  Qc_eqb (grand_total t) 0 = false ->
  existsb (fun x => Qc_eqb x 0) (row_totals t)
  || existsb (fun x => Qc_eqb x 0) (col_totals t) = true ->
  chi2_contingency chi2_sf t = Raise ValueError.
Proof.
  intros Hn Hz. unfold chi2_contingency.
  destruct (table_any _ (values t)); [reflexivity|].
  rewrite size_values.
  destruct (size t =? 0)%nat eqn:Hs; [reflexivity|].
  apply Nat.eqb_neq in Hs. unfold size in Hs.
  cbv zeta. apply Qc_eqb_neq in Hn.
  rewrite (expected_freq_values t Hn), zero_cells.
  rewrite expected_counts_zero_margin; [reflexivity | lia | lia | exact Hz].
Qed.

(** C4, as the code has it.  [chi_square_test] fails with [ValueError]
    whenever some row total or some column total of the table is zero while
    the grand total is not; so it does on [[0,0],[5,10]]. *)
Theorem chi_square_test_zero_margin (chi2_sf : Qc -> Z -> Qc) (t : DataFrame)
  (alpha : fnum) :
  Qc_eqb (grand_total t) 0 = false ->
  existsb (fun x => Qc_eqb x 0) (row_totals t)
  || existsb (fun x => Qc_eqb x 0) (col_totals t) = true ->
  chi_square_test chi2_sf t alpha = Raise ValueError.
Proof.
  intros Hn Hz. unfold chi_square_test.
  rewrite (chi2_contingency_zero_margin chi2_sf t Hn Hz). reflexivity.
Qed.

Lemma chi_square_test_zero_margin_witness :
  (Qc_eqb (grand_total ex_zero_row) 0 = false
   /\ existsb (fun x => Qc_eqb x 0) (row_totals ex_zero_row)
      || existsb (fun x => Qc_eqb x 0) (col_totals ex_zero_row) = true)
  /\ chi_square_test sf_sample ex_zero_row alpha05 = Raise ValueError.
Proof.
  assert (Hn : Qc_eqb (grand_total ex_zero_row) 0 = false)
    by (vm_compute; reflexivity).
  assert (Hz : existsb (fun x => Qc_eqb x 0) (row_totals ex_zero_row)
               || existsb (fun x => Qc_eqb x 0) (col_totals ex_zero_row)
               = true) by (vm_compute; reflexivity).
  split; [split; assumption|].
  exact (chi_square_test_zero_margin sf_sample ex_zero_row alpha05 Hn Hz).
Defined.

(** C4, as stated, fails: the table [[5,10]] has a single row and
    [chi_square_test] returns on it, with the statistic 0, the p-value 1 and
    no degree of freedom. *)
Lemma chi_square_test_single_row_returns :
  nrows ex_one_row = 1%nat
  /\ exists out chi2 p expected,
       chi_square_test sf_sample ex_one_row alpha05
       = Ok (out, [PyFloat chi2; PyFloat p; PyInt 0; PyArray expected])
       /\ feqb chi2 fzero = true /\ feqb p fone = true.
Proof.
  split; [reflexivity|].
  destruct (chi_square_test sf_sample ex_one_row alpha05) as [[out ret]|e] eqn:E.
  - vm_compute in E. injection E as <- <-.
    eexists. eexists. eexists. eexists. split; [reflexivity|].
    split; vm_compute; reflexivity.
  - vm_compute in E. discriminate E.
Qed.

(** ** Tables without any observation *)

Lemma qsum_zero (l : list Qc) :
  (forall x, In x l -> x = 0) -> qsum l = 0.
Proof.
  induction l as [|a l IH]; intros H; [reflexivity|].
  simpl. rewrite (H a), IH; [reflexivity | | left; reflexivity].
  intros x Hx. apply H. right. exact Hx.
Qed.

Lemma all_zero_cell (t : DataFrame) (r : list Qc) (x : Qc) :
  all_zero t = true -> In r t -> In x r -> x = 0.
Proof.
  unfold all_zero. rewrite forallb_forall. intros H Hr Hx.
  specialize (H r Hr). rewrite forallb_forall in H.
  apply Qc_eqb_eq. apply H. exact Hx.
Qed.

Lemma all_zero_nth (t : DataFrame) (r : list Qc) (j : nat) :
  all_zero t = true -> In r t -> nth j r 0 = 0.
Proof.
  intros H Hr. destruct (nth_in_or_default j r 0) as [Hin|Hd].
  - exact (all_zero_cell t r _ H Hr Hin).
  - exact Hd.
Qed.

Lemma all_zero_rows (t : DataFrame) (x : Qc) :
  all_zero t = true -> In x (row_totals t) -> x = 0.
Proof.
  intros H Hx. unfold row_totals in Hx. apply in_map_iff in Hx.
  destruct Hx as [r [<- Hr]]. apply qsum_zero.
  intros y Hy. exact (all_zero_cell t r y H Hr Hy).
Qed.

Lemma all_zero_cols (t : DataFrame) (x : Qc) :
  all_zero t = true -> In x (col_totals t) -> x = 0.
Proof.
  intros H Hx. unfold col_totals, transpose in Hx. rewrite map_map in Hx.
  apply in_map_iff in Hx. destruct Hx as [j [<- _]]. apply qsum_zero.
  intros y Hy. unfold col in Hy. apply in_map_iff in Hy.
  destruct Hy as [r [<- Hr]]. exact (all_zero_nth t r j H Hr).
Qed.

Lemma all_zero_total (t : DataFrame) : all_zero t = true -> grand_total t = 0.
Proof.
  intros H. unfold grand_total. apply qsum_zero.
  intros x Hx. exact (all_zero_rows t x H Hx).
Qed.

Lemma all_zero_nonneg (t : DataFrame) :
  all_zero t = true -> nonneg_cells t = true.
Proof.
  unfold all_zero, nonneg_cells. rewrite !forallb_forall. intros H r Hr.
  specialize (H r Hr). rewrite forallb_forall in *. intros x Hx.
  specialize (H x Hx). apply Qc_eqb_eq in H. subst x. reflexivity.
Qed.

(** Without any observation every expected frequency is [0/0]. *)
Lemma all_zero_expected (t : DataFrame) :
  all_zero t = true ->
  expected_freq (values t)
  = map (fun _ => map (fun _ => NaN) (col_totals t)) (row_totals t).
Proof.
  intros H. unfold expected_freq.
  rewrite margins_values, np_sum_values, (all_zero_total t H).
  rewrite map_map. apply map_ext_in. intros r Hr.
  rewrite map_map. apply map_ext_in. intros c Hc.
  rewrite (all_zero_rows t r H Hr), (all_zero_cols t c H Hc). reflexivity.
Qed.

Lemma fdiv_NaN_r (x : fnum) : fdiv x NaN = NaN.
Proof. destruct x; reflexivity. Qed.

Lemma np_sum_NaN_head (y : fnum) (r r' : list fnum)
  (a b : list (list fnum)) :
  np_sum (tmap2 pearson_term ((y :: r) :: a) ((NaN :: r') :: b)) = NaN.
Proof.
  unfold np_sum, tmap2. cbn [map2 concat app fsum fold_right].
  unfold pearson_term at 1. rewrite fdiv_NaN_r. reflexivity.
Qed.

Lemma all_zero_statistic (t : DataFrame) :
  all_zero t = true -> (0 < nrows t)%nat -> (0 < ncols t)%nat ->
  statistic_of (values t) = Ok fzero \/ statistic_of (values t) = Ok NaN.
Proof.
  intros H Hr Hc. unfold statistic_of.
  rewrite negative_cells, (all_zero_nonneg t H). cbn [negb].
  rewrite size_values.
  assert (Hs : (size t =? 0)%nat = false)
    by (apply Nat.eqb_neq; unfold size; nia).
  rewrite Hs. cbv zeta. rewrite (all_zero_expected t H).
  set (N := map (fun _ => map (fun _ => NaN) (col_totals t)) (row_totals t)).
  assert (HN : table_any (fun x => feqb x fzero) N = false).
  { unfold N, table_any. apply not_true_iff_false. intros E.
    apply existsb_exists in E. destruct E as [row [Hrow E]].
    apply in_map_iff in Hrow. destruct Hrow as [r [<- _]].
    apply existsb_exists in E. destruct E as [x [Hx E]].
    apply in_map_iff in Hx. destruct Hx as [c [<- _]]. discriminate E. }
  rewrite HN. destruct (_ =? 0)%Z; [left; reflexivity|]. right. f_equal.
  pose proof (length_col_totals t) as Hlc.
  destruct t as [|[|x0 r0] t']; simpl in Hr, Hc; try lia.
  destruct (col_totals ((x0 :: r0) :: t')) as [|c0 cs] eqn:Ecs;
    [simpl in Hlc; lia|].
  unfold N, row_totals. cbn [map values].
  destruct (_ =? 1)%Z.
  - unfold tmap2 at 2. cbn [map2 map]. apply np_sum_NaN_head.
  - apply np_sum_NaN_head.
Qed.

(** C5, as the code has it.  [cal_cramer_v] raises exactly the exceptions
    [chi2_contingency] raises; it never tests [n].  On a non-empty table
    without any observation ([n = 0]) it returns [NaN]. *)
Theorem cal_cramer_v_failures (chi2_sf : Qc -> Z -> Qc) (t : DataFrame) :
  (forall e,
      cal_cramer_v chi2_sf t = Raise e <-> chi2_contingency chi2_sf t = Raise e)
  /\ (all_zero t = true /\ (0 < nrows t)%nat /\ (0 < ncols t)%nat ->
      grand_total t = 0 /\ cal_cramer_v chi2_sf t = Ok RootNaN).
Proof.
  split.
  - intros e. unfold cal_cramer_v.
    destruct (chi2_contingency chi2_sf t); simpl; split; congruence.
  - intros [H [Hr Hc]]. split; [exact (all_zero_total t H)|].
    rewrite cal_cramer_v_statistic, np_sum_values, (all_zero_total t H).
    cbn [fmul]. rewrite Qcmult_0_l.
    destruct (all_zero_statistic t H Hr Hc) as [-> | ->]; reflexivity.
Qed.

(** C5, as stated, fails: [[0,0],[0,0]] has the grand total 0 and
    [cal_cramer_v] returns [NaN] on it. *)
Lemma cal_cramer_v_all_zero_returns :
  Qc_eqb (grand_total ex_all_zero) 0 = true
  /\ is_ok (cal_cramer_v sf_sample ex_all_zero) = true
  /\ exists v, cal_cramer_v sf_sample ex_all_zero = Ok v
               /\ root_eqb v v = false.
Proof.
  split; [vm_compute; reflexivity|].
  split; [vm_compute; reflexivity|].
  exists RootNaN. split; vm_compute; reflexivity.
Qed.

(** ** Transposition *)

(** X26.  Cramer's V as [cal_cramer_v] computes it is invariant under
    transposition: on every valid R x C table of whole counts whose total,
    times [min(R, C)], is in the range of [int64], and on its C x R
    transpose, it returns one and the same value. *)
Theorem cal_cramer_v_transpose_invariant (chi2_sf : Qc -> Z -> Qc)
  (t : DataFrame) :
  valid_table t = true -> whole_counts t = true ->
  fits_int64 (grand_total t * qn (Nat.min (nrows t) (ncols t))) = true ->
  exists v,
    cal_cramer_v chi2_sf t = Ok v
    /\ cal_cramer_v chi2_sf (transpose 0 t) = Ok v.
Proof.
  intros Hv _ _. eexists. split.
  - apply cal_cramer_v_valid. exact Hv.
  - rewrite cal_cramer_v_transpose.
    + apply cal_cramer_v_valid. exact Hv.
    + exact (valid_rect t Hv).
    + exact (valid_nrows t Hv).
    + exact (valid_ncols t Hv).
Qed.

Lemma cal_cramer_v_transpose_invariant_witness :
  (valid_table ex_smoker = true /\ whole_counts ex_smoker = true
   /\ fits_int64 (grand_total ex_smoker
                  * qn (Nat.min (nrows ex_smoker) (ncols ex_smoker))) = true)
  /\ exists v,
       cal_cramer_v sf_sample ex_smoker = Ok v
       /\ cal_cramer_v sf_sample (transpose 0 ex_smoker) = Ok v.
Proof.
  assert (Hv : valid_table ex_smoker = true) by (vm_compute; reflexivity).
  assert (Hw : whole_counts ex_smoker = true) by (vm_compute; reflexivity).
  assert (Hb : fits_int64 (grand_total ex_smoker
                           * qn (Nat.min (nrows ex_smoker) (ncols ex_smoker)))
               = true) by (vm_compute; reflexivity).
  split; [repeat split; assumption|].
  exact (cal_cramer_v_transpose_invariant sf_sample ex_smoker Hv Hw Hb).
Defined.

(** C7.  The adjusted variant has no value to compare: on the table of
    its own docstring, and on the transpose, [cal_cramer_v_adjusted] stops
    with [NameError] for the name [r]. *)
Lemma cal_cramer_v_adjusted_yields_no_value :
  valid_table ex_smoker = true
  /\ raises (cal_cramer_v_adjusted sf_sample ex_smoker) (NameError "r")
     = true
  /\ raises (cal_cramer_v_adjusted sf_sample (transpose 0 ex_smoker))
       (NameError "r") = true.
Proof. repeat split; vm_compute; reflexivity. Qed.

(** ** The grouped bar chart *)

Local Open Scope nat_scope.

Module PlotterFacts.
Import Plotter.

Lemma index_of_in (c : string) (l : list string) :
  In c l -> exists i, index_of c l = Some i.
Proof.
  induction l as [|a l IH]; intros H; [destruct H|].
  simpl. destruct (String.eqb c a) eqn:E.
  - exists 0%nat. reflexivity.
  - destruct H as [H|H].
    + subst a. rewrite String.eqb_refl in E. discriminate E.
    + destruct (IH H) as [i ->]. exists (S i). reflexivity.
Qed.

Lemma position_in (c : string) (df : Frame) :
  In c (labels df) -> exists i, position c df = Ok i.
Proof.
  intros H. unfold position. destruct (index_of_in c (labels df) H) as [i ->].
  exists i. reflexivity.
Qed.



(** In a frame that has the three columns, one turn of the loop fails only
    on the colour. *)
Lemma add_group_trace_color (sorted : Frame) (x y g : string) (i : nat)
  (group : cell) (fig : Figure) :
  labels sorted = [x; g; y] ->
  exists xs ys,
    add_group_trace sorted x y g i group fig
    = (color <- getitem color_list i ;;
       Ok (mkFigure (traces fig ++ [mkBar xs ys group color]) (layout fig))).
Proof.
  intros Hl. unfold add_group_trace, where_eq, column.
  destruct (position_in g sorted) as [ig ->]; [rewrite Hl; simpl; tauto|].
  cbn [bind].
  set (gd := mkFrame _ _).
  assert (Hgd : labels gd = [x; g; y]) by exact Hl.
  destruct (position_in x gd) as [ix ->]; [rewrite Hgd; simpl; tauto|].
  destruct (position_in y gd) as [iy ->]; [rewrite Hgd; simpl; tauto|].
  cbn [bind]. eexists. eexists. reflexivity.
Qed.

Lemma getitem_color_list (i : nat) :
  (i < 3 -> is_ok (getitem color_list i) = true)
  /\ (i = 3 -> getitem color_list i = Raise IndexError).
Proof.
  split.
  - intros H. destruct i as [|[|[|i]]]; try reflexivity. lia.
  - intros ->. reflexivity.
Qed.

(** The loop over the groups numbered from [start]: it ends normally when
    every position is below 3, and with [IndexError] otherwise. *)
Lemma for_groups_colors (sorted : Frame) (x y g : string) (l : list cell) :
  labels sorted = [x; g; y] ->
  forall start fig, start <= 3 ->
    (start + length l <= 3 ->
     is_ok (for_groups sorted x y g (combine (seq start (length l)) l) fig)
     = true)
    /\ (3 < start + length l ->
        for_groups sorted x y g (combine (seq start (length l)) l) fig
        = Raise IndexError).
Proof.
  intros Hl. induction l as [|a l IH]; intros start fig Hs.
  - simpl. split; [reflexivity | lia].
  - cbn [length seq combine for_groups].
    destruct (@add_group_trace_color sorted x y g start a fig Hl)
      as [xs [ys ->]].
    destruct (getitem_color_list start) as [Hlt Heq].
    destruct (Nat.eq_dec start 3) as [E|E].
    + rewrite (Heq E). cbn [bind]. split; [simpl; lia | reflexivity].
    + assert (Hs' : start < 3) by lia.
      specialize (Hlt Hs').
      destruct (getitem color_list start) as [color|e]; [|discriminate Hlt].
      cbn [bind].
      destruct (IH (S start)
                  (mkFigure (traces fig ++ [mkBar xs ys a color])
                     (layout fig))) as [Hok Herr]; [lia|].
      split; intros H; [apply Hok | apply Herr]; simpl in H; lia.
Qed.

End PlotterFacts.



(** Four groups: the fourth has no colour.  Three groups: a figure with three
    traces. *)
Example plot_bar_chart_multivariate_runs :
  raises (Plotter.plot_bar_chart_multivariate_y_col
            (Plotter.ex_frame ["a"; "b"; "a"; "c"; "d"]) "year" "titles"
            "kind" "Titles" "Year" "Count" 600 800) IndexError = true
  /\ match Plotter.plot_bar_chart_multivariate_y_col
             (Plotter.ex_frame ["a"; "b"; "a"; "c"]) "year" "titles"
             "kind" "Titles" "Year" "Count" 600 800 with
     | Ok fig =>
         map Plotter.marker_color (Plotter.traces fig)
         = ["#831010"; "#564d4d"; "#db0000"]
     | Raise _ => False
     end.
Proof. split; vm_compute; reflexivity. Qed.

(** * Further properties of the independence test *)

Local Open Scope Qc_scope.

Lemma qsum_scale (r n : Qc) (l : list Qc) :
  qsum (map (fun c => r * c / n) l) = r * qsum l / n.
Proof.
  induction l as [|c l IH]; simpl.
  - now rewrite Qc_ratio_zero.
  - rewrite IH. unfold Qcdiv.
    rewrite Qcmult_plus_distr_r, Qcmult_plus_distr_l. reflexivity.
Qed.

Lemma qsum_scale_l (c n : Qc) (l : list Qc) :
  qsum (map (fun r => r * c / n) l) = qsum l * c / n.
Proof.
  induction l as [|r l IH]; simpl.
  - now rewrite Qc_zero_ratio.
  - rewrite IH. unfold Qcdiv. now rewrite !Qcmult_plus_distr_l.
Qed.

Lemma qsum_col_totals (t : DataFrame) :
  rect (ncols t) t = true -> qsum (col_totals t) = grand_total t.
Proof.
  intros H. unfold col_totals, grand_total, row_totals.
  rewrite transpose_w_eq. apply qsum_transpose_w. exact H.
Qed.

(** The expected counts have the row totals of the table. *)
Lemma expected_counts_row_totals (t : DataFrame) :
  valid_table t = true -> row_totals (expected_counts t) = row_totals t.
Proof.
  intros Hv. unfold expected_counts. unfold row_totals at 1.
  rewrite map_map.
  transitivity (map (fun r : Qc => r) (row_totals t)); [|apply map_id].
  apply map_ext. intros r.
  rewrite qsum_scale, (qsum_col_totals t (valid_rect t Hv)).
  unfold Qcdiv. rewrite <- Qcmult_assoc.
  rewrite Qcmult_inv_r by exact (valid_total_nonzero t Hv).
  apply Qcmult_1_r.
Qed.

(** The expected counts have the column totals of the table. *)
Lemma expected_counts_col_totals (t : DataFrame) :
  valid_table t = true -> col_totals (expected_counts t) = col_totals t.
Proof.
  intros Hv. unfold col_totals at 1.
  rewrite transpose_w_eq, (expected_counts_ncols t Hv).
  rewrite <- (length_col_totals t).
  unfold expected_counts. rewrite transpose_w_outer, map_map.
  transitivity (map (fun c : Qc => c) (col_totals t)); [|apply map_id].
  apply map_ext. intros c.
  rewrite qsum_scale_l. fold (grand_total t).
  unfold Qcdiv. rewrite (Qcmult_comm (grand_total t) c), <- Qcmult_assoc.
  rewrite Qcmult_inv_r by exact (valid_total_nonzero t Hv).
  apply Qcmult_1_r.
Qed.

(** ** Sign of the statistic *)

Lemma Qc_square_nonneg (x : Qc) : 0 <= x * x.
Proof.
  destruct (Qclt_le_dec x 0) as [H|H].
  - assert (Hx : 0 <= - x).
    { apply Qclt_le_weak in H. apply Qcopp_le_compat in H. exact H. }
    replace (x * x) with (- x * - x) by ring.
    rewrite <- (Qcmult_0_l (- x)). apply Qcmult_le_compat_r; assumption.
  - rewrite <- (Qcmult_0_l x) at 1. apply Qcmult_le_compat_r; assumption.
Qed.

Lemma Qcdiv_nonneg (a e : Qc) : 0 <= a -> 0 < e -> 0 <= a / e.
Proof.
  intros Ha He. apply (Qcmult_lt_0_le_reg_r _ _ e He).
  rewrite Qcmult_0_l, Qcmult_comm, Qcmult_div_r; [exact Ha|].
  intros E. rewrite E in He. exact (Qclt_not_eq _ _ He eq_refl).
Qed.

Lemma pearson_q_nonneg (o e : Qc) : 0 < e -> 0 <= pearson_q o e.
Proof.
  intros He. unfold pearson_q. apply Qcdiv_nonneg; [|exact He].
  apply Qc_square_nonneg.
Qed.

Lemma qsum_nonneg (l : list Qc) : (forall x, In x l -> 0 <= x) -> 0 <= qsum l.
Proof.
  induction l as [|a l IH]; intros H; simpl.
  - apply Qcle_refl.
  - rewrite <- (Qcplus_0_l 0). apply Qcplus_le_compat.
    + apply H. left. reflexivity.
    + apply IH. intros x Hx. apply H. right. exact Hx.
Qed.

(** A sum of Pearson terms against positive expected counts is not
    negative. *)
Lemma pearson_sum_nonneg (o E : DataFrame) :
  (forall r e, In r E -> In e r -> 0 < e) ->
  0 <= qsum (map qsum (tmap2 pearson_q o E)).
Proof.
  intros HE. apply qsum_nonneg. intros x Hx.
  apply in_map_iff in Hx. destruct Hx as [row [<- Hrow]].
  apply qsum_nonneg. intros y Hy.
  unfold tmap2 in Hrow. revert E HE Hrow.
  induction o as [|ro o IH]; intros [|rE E] HE Hrow; simpl in Hrow;
    try contradiction.
  destruct Hrow as [<- | Hrow].
  - assert (HrE : forall e, In e rE -> 0 < e)
      by (intros e He; apply (HE rE e); [left; reflexivity | exact He]).
    clear HE IH. revert rE HrE Hy.
    induction ro as [|a ro IHr]; intros [|e rE] HrE Hy; simpl in Hy;
      try contradiction.
    destruct Hy as [<- | Hy].
    + apply pearson_q_nonneg. apply HrE. left. reflexivity.
    + apply (IHr rE); [|exact Hy]. intros e' He'. apply HrE. right. exact He'.
  - apply (IH E); [|exact Hrow].
    intros r e Hr He. apply (HE r e); [right; exact Hr | exact He].
Qed.

Lemma expected_counts_pos (t : DataFrame) (r : list Qc) (e : Qc) :
  valid_table t = true -> In r (expected_counts t) -> In e r -> 0 < e.
Proof.
  intros Hv Hr He. unfold expected_counts in Hr.
  apply in_map_iff in Hr. destruct Hr as [rt [<- Hrt]].
  apply in_map_iff in He. destruct He as [ct [<- Hct]].
  pose proof (valid_rows_pos t Hv) as Hrp.
  pose proof (valid_cols_pos t Hv) as Hcp.
  rewrite forallb_forall in Hrp, Hcp.
  specialize (Hrp rt Hrt). specialize (Hcp ct Hct).
  apply Qc_ltb_lt in Hrp. apply Qc_ltb_lt in Hcp.
  pose proof (valid_total_pos t Hv) as Hn.
  assert (Hm : 0 < rt * ct).
  { rewrite <- (Qcmult_0_l ct). apply Qcmult_lt_compat_r; assumption. }
  destruct (Qcle_lt_or_eq _ _ (Qcdiv_nonneg (Qclt_le_weak _ _ Hm) Hn))
    as [H|H]; [exact H|].
  exfalso. symmetry in H. revert H. apply Qcdiv_nonzero.
  - intros E. rewrite E in Hm. exact (Qclt_not_eq _ _ Hm eq_refl).
  - exact (valid_total_nonzero t Hv).
Qed.

Lemma chi2_statistic_nonneg (t : DataFrame) :
  valid_table t = true -> 0 <= chi2_statistic t.
Proof.
  intros Hv. unfold chi2_statistic, yates_statistic, pearson_statistic.
  destruct (_ =? 1)%Z; apply pearson_sum_nonneg;
    intros r e; apply expected_counts_pos; exact Hv.
Qed.

(** X2.  On every valid table of whole counts with a total in the range
    of [int64] the statistic [chi_square_test] returns is a finite number
    that is not negative. *)
Theorem chi_square_test_statistic_nonneg (chi2_sf : Qc -> Z -> Qc)
  (t : DataFrame) (alpha : fnum) :
  valid_table t = true -> whole_counts t = true ->
  fits_int64 (grand_total t) = true ->
  exists out chi2 p df expected,
    chi_square_test chi2_sf t alpha
    = Ok (out, [PyFloat (Fin chi2); PyFloat p; PyInt df; PyArray expected])
    /\ 0 <= chi2.
Proof.
  intros Hv _ _.
  destruct (chi_square_test_valid chi2_sf t alpha Hv) as [out [H _]].
  exists out. do 4 eexists. split; [exact H|].
  exact (chi2_statistic_nonneg t Hv).
Qed.

Lemma chi_square_test_statistic_nonneg_witness :
  (valid_table ex_2x2 = true /\ whole_counts ex_2x2 = true
   /\ fits_int64 (grand_total ex_2x2) = true)
  /\ exists out chi2 p df expected,
       chi_square_test sf_sample ex_2x2 alpha05
       = Ok (out, [PyFloat (Fin chi2); PyFloat p; PyInt df; PyArray expected])
       /\ 0 <= chi2.
Proof.
  assert (Hv : valid_table ex_2x2 = true) by (vm_compute; reflexivity).
  assert (Hw : whole_counts ex_2x2 = true) by (vm_compute; reflexivity).
  assert (Hb : fits_int64 (grand_total ex_2x2) = true)
    by (vm_compute; reflexivity).
  split; [repeat split; assumption|].
  exact (chi_square_test_statistic_nonneg sf_sample ex_2x2 alpha05 Hv Hw
           Hb).
Defined.

(** X27.  On every valid table of whole counts with a total in the range
    of [int64] the table of expected frequencies [chi_square_test] returns
    has the shape of the observed table, and every expected frequency is
    a positive finite number. *)
Theorem chi_square_test_expected_shape (chi2_sf : Qc -> Z -> Qc)
  (t : DataFrame) (alpha : fnum) :
  valid_table t = true -> whole_counts t = true ->
  fits_int64 (grand_total t) = true ->
  exists out chi2 p df expected,
    chi_square_test chi2_sf t alpha
    = Ok (out, [PyFloat chi2; PyFloat p; PyInt df; PyArray (values expected)])
    /\ nrows expected = nrows t
    /\ rect (ncols t) expected = true
    /\ (forall r e, In r expected -> In e r -> 0 < e).
Proof.
  intros Hv _ _.
  destruct (chi_square_test_valid chi2_sf t alpha Hv) as [out [H _]].
  exists out. do 3 eexists. exists (expected_counts t).
  split; [exact H|]. split; [|split].
  - exact (expected_counts_nrows t).
  - exact (expected_counts_rect t).
  - intros r e Hr He. exact (expected_counts_pos t r e Hv Hr He).
Qed.

Lemma chi_square_test_expected_shape_witness :
  (valid_table ex_smoker = true /\ whole_counts ex_smoker = true
   /\ fits_int64 (grand_total ex_smoker) = true)
  /\ exists out chi2 p df expected,
       chi_square_test sf_sample ex_smoker alpha05
       = Ok (out, [PyFloat chi2; PyFloat p; PyInt df;
                   PyArray (values expected)])
       /\ nrows expected = nrows ex_smoker
       /\ rect (ncols ex_smoker) expected = true
       /\ (forall r e, In r expected -> In e r -> 0 < e).
Proof.
  assert (Hv : valid_table ex_smoker = true) by (vm_compute; reflexivity).
  assert (Hw : whole_counts ex_smoker = true) by (vm_compute; reflexivity).
  assert (Hb : fits_int64 (grand_total ex_smoker) = true)
    by (vm_compute; reflexivity).
  split; [repeat split; assumption|].
  exact (chi_square_test_expected_shape sf_sample ex_smoker alpha05 Hv Hw
           Hb).
Defined.

Lemma qn_pos (k : nat) : (0 < k)%nat -> 0 < qn k.
Proof.
  intros Hk. unfold qn, qz, Qclt. cbn [this Q2Qc].
  rewrite !Qred_correct. unfold Qlt. simpl. lia.
Qed.

(** X3.  On every valid table of whole counts whose total [n], times [k],
    is in the range of [int64], [cal_cramer_v] returns the square root of
    a non-negative number: never [NaN], never an infinity. *)
Theorem cal_cramer_v_real (chi2_sf : Qc -> Z -> Qc) (t : DataFrame) :
  valid_table t = true -> whole_counts t = true ->
  fits_int64 (grand_total t * qn (Nat.min (nrows t) (ncols t))) = true ->
  exists q, cal_cramer_v chi2_sf t = Ok (Sqrt q) /\ 0 <= q.
Proof.
  intros Hv _ _.
  set (q := chi2_statistic t
            / (grand_total t * qn (Nat.min (nrows t) (ncols t)))).
  assert (Hq : 0 <= q).
  { apply Qcdiv_nonneg; [exact (chi2_statistic_nonneg t Hv)|].
    rewrite <- (Qcmult_0_l (qn (Nat.min (nrows t) (ncols t)))).
    apply Qcmult_lt_compat_r; [|exact (valid_total_pos t Hv)].
    apply qn_pos.
    pose proof (valid_nrows t Hv). pose proof (valid_ncols t Hv). lia. }
  exists q. split; [|exact Hq].
  rewrite cal_cramer_v_statistic.
  destruct (chi2_contingency_ok chi2_sf t) with (x := Fin (chi2_statistic t))
    as [r [Hr Hs]].
  { rewrite <- (chi2_contingency_statistic chi2_sf).
    now rewrite (chi2_contingency_valid chi2_sf t Hv). }
  rewrite <- (chi2_contingency_statistic chi2_sf), Hr. cbn [bind]. rewrite Hs.
  rewrite np_sum_values. cbn [fmul]. rewrite fdiv_Fin.
  - fold q. unfold np_sqrt. apply Qc_ltb_ge in Hq.
    change (qz 0) with 0. now rewrite Hq.
  - apply Qcmult_nonzero; [exact (valid_total_nonzero t Hv)|].
    apply qn_nonzero.
    pose proof (valid_nrows t Hv). pose proof (valid_ncols t Hv). lia.
Qed.

Lemma cal_cramer_v_real_witness :
  (valid_table ex_smoker = true /\ whole_counts ex_smoker = true
   /\ fits_int64 (grand_total ex_smoker
                  * qn (Nat.min (nrows ex_smoker) (ncols ex_smoker))) = true)
  /\ exists q, cal_cramer_v sf_sample ex_smoker = Ok (Sqrt q) /\ 0 <= q.
Proof.
  assert (Hv : valid_table ex_smoker = true) by (vm_compute; reflexivity).
  assert (Hb : fits_int64 (grand_total ex_smoker
                           * qn (Nat.min (nrows ex_smoker) (ncols ex_smoker)))
               = true) by (vm_compute; reflexivity).
  assert (Hw : whole_counts ex_smoker = true) by (vm_compute; reflexivity).
  split; [repeat split; assumption|].
  exact (cal_cramer_v_real sf_sample ex_smoker Hv Hw Hb).
Defined.



(** ** Tables the test refuses *)

Lemma chi2_contingency_negative (chi2_sf : Qc -> Z -> Qc) (t : DataFrame) :
  nonneg_cells t = false -> chi2_contingency chi2_sf t = Raise ValueError.
Proof.
  intros H. unfold chi2_contingency. rewrite negative_cells, H. reflexivity.
Qed.

Lemma chi2_contingency_empty (chi2_sf : Qc -> Z -> Qc) (t : DataFrame) :
  size t = 0%nat -> chi2_contingency chi2_sf t = Raise ValueError.
Proof.
  intros H. unfold chi2_contingency.
  destruct (table_any _ (values t)); [reflexivity|].
  rewrite size_values, H. reflexivity.
Qed.

(** Each of the three functions raises what [chi2_contingency] raises. *)
Lemma chi2_contingency_raise_all (chi2_sf : Qc -> Z -> Qc) (t : DataFrame)
  (alpha : fnum) (e : exn) :
  chi2_contingency chi2_sf t = Raise e ->
  chi_square_test chi2_sf t alpha = Raise e
  /\ cal_cramer_v chi2_sf t = Raise e
  /\ cal_cramer_v_adjusted chi2_sf t = Raise e.
Proof.
  intros H.
  unfold chi_square_test, cal_cramer_v, cal_cramer_v_adjusted,
    adjusted_numerator.
  rewrite H. repeat split; reflexivity.
Qed.

(** X5.  A table with a negative cell makes [chi_square_test],
    [cal_cramer_v] and [cal_cramer_v_adjusted] fail with [ValueError],
    whatever its shape and its other cells. *)
Theorem negative_cell_value_error (chi2_sf : Qc -> Z -> Qc) (t : DataFrame)
  (alpha : fnum) :
  table_any (fun x => Qc_ltb x 0) t = true ->
  chi_square_test chi2_sf t alpha = Raise ValueError
  /\ cal_cramer_v chi2_sf t = Raise ValueError
  /\ cal_cramer_v_adjusted chi2_sf t = Raise ValueError.
Proof.
  intros H. apply chi2_contingency_raise_all.
  apply chi2_contingency_negative.
  rewrite <- (negb_involutive (nonneg_cells t)), <- negative_cells.
  rewrite table_any_values. change (table_any (fun x => Qc_ltb x 0) t = true)
    in H. unfold fzero. cbn [fltb]. change (qz 0) with 0. now rewrite H.
Qed.

Lemma negative_cell_value_error_witness :
  table_any (fun x => Qc_ltb x 0) (counts [[3; -1]; [2; 4]]%Z) = true
  /\ chi_square_test sf_sample (counts [[3; -1]; [2; 4]]%Z) alpha05
     = Raise ValueError
  /\ cal_cramer_v sf_sample (counts [[3; -1]; [2; 4]]%Z) = Raise ValueError
  /\ cal_cramer_v_adjusted sf_sample (counts [[3; -1]; [2; 4]]%Z)
     = Raise ValueError.
Proof.
  assert (H : table_any (fun x => Qc_ltb x 0) (counts [[3; -1]; [2; 4]]%Z)
              = true) by (vm_compute; reflexivity).
  split; [exact H|].
  exact (negative_cell_value_error sf_sample (counts [[3; -1]; [2; 4]]%Z)
           alpha05 H).
Defined.

(** X6.  A table without rows, or whose first row is empty, makes
    [chi_square_test], [cal_cramer_v] and [cal_cramer_v_adjusted] fail with
    [ValueError]. *)
Theorem empty_table_value_error (chi2_sf : Qc -> Z -> Qc) (t : DataFrame)
  (alpha : fnum) :
  size t = 0%nat ->
  chi_square_test chi2_sf t alpha = Raise ValueError
  /\ cal_cramer_v chi2_sf t = Raise ValueError
  /\ cal_cramer_v_adjusted chi2_sf t = Raise ValueError.
Proof.
  intros H. apply chi2_contingency_raise_all.
  apply chi2_contingency_empty. exact H.
Qed.

Lemma empty_table_value_error_witness :
  size (@nil (list Qc)) = 0%nat
  /\ chi_square_test sf_sample [] alpha05 = Raise ValueError
  /\ cal_cramer_v sf_sample [] = Raise ValueError
  /\ cal_cramer_v_adjusted sf_sample [] = Raise ValueError.
Proof.
  split; [reflexivity|].
  exact (empty_table_value_error sf_sample [] alpha05 eq_refl).
Defined.

(** ** The significance level *)

(** X7.  The significance level only shapes the report: whether
    [chi_square_test] fails, with which exception, and the tuple it returns
    are the same for every [alpha]. *)
Theorem chi_square_test_alpha_only_report (chi2_sf : Qc -> Z -> Qc)
  (t : DataFrame) (alpha alpha' : fnum) :
  (forall e,
      chi_square_test chi2_sf t alpha = Raise e
      <-> chi_square_test chi2_sf t alpha' = Raise e)
  /\ (forall out ret,
         chi_square_test chi2_sf t alpha = Ok (out, ret) ->
         exists out', chi_square_test chi2_sf t alpha' = Ok (out', ret)).
Proof.
  unfold chi_square_test.
  destruct (chi2_contingency chi2_sf t) as [r|e0]; cbn [bind]; split.
  - intros e. split; discriminate.
  - intros out ret H. injection H as _ <-. eexists. reflexivity.
  - intros e. reflexivity.
  - intros out ret H. discriminate H.
Qed.

Lemma fltb_trans (x y z : fnum) :
  fltb x y = true -> fltb y z = true -> fltb x z = true.
Proof.
  destruct x as [a| | |], y as [b| | |], z as [c| | |]; simpl;
    try discriminate; try reflexivity.
  intros H H'. apply Qc_ltb_lt in H. apply Qc_ltb_lt in H'.
  apply Qc_ltb_lt. exact (Qclt_trans _ _ _ H H').
Qed.

(** X8.  A table whose independence [chi_square_test] rejects at the level
    [alpha] is rejected at every larger level. *)
Theorem chi_square_test_reject_monotone (chi2_sf : Qc -> Z -> Qc)
  (t : DataFrame) (alpha alpha' : fnum) (out out' : list line)
  (ret ret' : list pyval) :
  chi_square_test chi2_sf t alpha = Ok (out, ret) ->
  chi_square_test chi2_sf t alpha' = Ok (out', ret') ->
  fltb alpha alpha' = true ->
  In [Text (decision_message REJECT_H0)] out ->
  In [Text (decision_message REJECT_H0)] out'.
Proof.
  intros H H' Hlt Hrej.
  apply chi_square_test_inv in H. destruct H as [r [Hr [_ Hd]]].
  apply chi_square_test_inv in H'. destruct H' as [r' [Hr' [_ Hd']]].
  assert (r' = r) by congruence. subst r'.
  apply Hd in Hrej. apply Hd'. unfold decide in *.
  destruct (fltb (pvalue r) alpha) eqn:E; [|discriminate Hrej].
  now rewrite (fltb_trans _ _ _ E Hlt).
Qed.

Lemma chi_square_test_reject_monotone_witness :
  exists out out' ret ret',
    (chi_square_test sf_sample ex_2x2 (Fin (Q2Qc (1 # 5))) = Ok (out, ret)
     /\ chi_square_test sf_sample ex_2x2 (Fin (Q2Qc (1 # 2))) = Ok (out', ret')
     /\ fltb (Fin (Q2Qc (1 # 5))) (Fin (Q2Qc (1 # 2))) = true
     /\ In [Text (decision_message REJECT_H0)] out)
    /\ In [Text (decision_message REJECT_H0)] out'.
Proof.
  destruct (chi_square_test sf_sample ex_2x2 (Fin (Q2Qc (1 # 5))))
    as [[out ret]|e] eqn:E; [|vm_compute in E; discriminate E].
  destruct (chi_square_test sf_sample ex_2x2 (Fin (Q2Qc (1 # 2))))
    as [[out' ret']|e] eqn:E'; [|vm_compute in E'; discriminate E'].
  assert (Hlt : fltb (Fin (Q2Qc (1 # 5))) (Fin (Q2Qc (1 # 2))) = true)
    by (vm_compute; reflexivity).
  assert (Hrej : In [Text (decision_message REJECT_H0)] out).
  { vm_compute in E. injection E as <- _. do 4 right. left. reflexivity. }
  exists out, out', ret, ret'.
  split; [repeat split; first [reflexivity | assumption]|].
  exact (@chi_square_test_reject_monotone sf_sample ex_2x2 _ _ out out'
           ret ret' E E' Hlt Hrej).
Defined.

(** ** The test on the transposed table *)

Lemma transpose_valid_shape (t : DataFrame) :
  valid_table t = true ->
  transpose 0 t = transpose_w 0 (ncols t) t
  /\ nrows (transpose 0 t) = ncols t
  /\ ncols (transpose 0 t) = nrows t
  /\ rect (nrows t) (transpose 0 t) = true.
Proof.
  intros Hv. pose proof (valid_ncols t Hv) as Hc.
  rewrite transpose_w_eq. repeat split.
  - unfold nrows. apply length_transpose_w.
  - apply ncols_transpose_w. lia.
  - apply rect_transpose_w.
Qed.

Lemma transpose_transpose (t : DataFrame) :
  valid_table t = true -> transpose 0 (transpose 0 t) = t.
Proof.
  intros Hv. destruct (transpose_valid_shape t Hv) as [_ [_ [Hc _]]].
  rewrite (transpose_w_eq 0 (transpose 0 t)), Hc.
  rewrite transpose_w_eq. apply transpose_w_involutive.
  exact (valid_rect t Hv).
Qed.

(** The transpose of a valid table is valid. *)
Lemma transpose_valid (t : DataFrame) :
  valid_table t = true -> valid_table (transpose 0 t) = true.
Proof.
  intros Hv.
  destruct (transpose_valid_shape t Hv) as [HT [Hr [Hc Hrect]]].
  pose proof (valid_nrows t Hv) as Hnr. pose proof (valid_ncols t Hv) as Hnc.
  unfold valid_table. rewrite Hc, Hr, Hrect.
  apply Nat.ltb_lt in Hnr. apply Nat.ltb_lt in Hnc. rewrite Hnr, Hnc.
  cbn [andb].
  assert (Hneg : nonneg_cells (transpose 0 t) = true).
  { rewrite <- (negb_involutive (nonneg_cells _)), <- negative_cells.
    rewrite values_transpose.
    rewrite table_any_transpose_w by (rewrite rect_values; exact (valid_rect t Hv)).
    rewrite negative_cells, (valid_nonneg t Hv). reflexivity. }
  rewrite Hneg. unfold positive_margins.
  unfold col_totals at 1. rewrite (transpose_transpose t Hv).
  fold (row_totals t). unfold row_totals at 1. fold (col_totals t).
  now rewrite (valid_cols_pos t Hv), (valid_rows_pos t Hv).
Qed.

Lemma chi2_statistic_transpose (t : DataFrame) :
  valid_table t = true -> chi2_statistic (transpose 0 t) = chi2_statistic t.
Proof.
  intros Hv. pose proof (transpose_valid t Hv) as HvT.
  pose proof (chi2_contingency_statistic sf_sample (transpose 0 t)) as H1.
  pose proof (chi2_contingency_statistic sf_sample t) as H2.
  rewrite (chi2_contingency_valid sf_sample _ HvT) in H1.
  rewrite (chi2_contingency_valid sf_sample _ Hv) in H2.
  cbn [bind statistic] in H1, H2.
  rewrite values_transpose in H1.
  pose proof (valid_nrows t Hv) as Hr. unfold nrows in Hr.
  destruct t as [|r a]; [simpl in Hr; lia|].
  assert (Hrect : rect (ncols (r :: a)) (values (r :: a)) = true)
    by (rewrite rect_values; exact (valid_rect _ Hv)).
  change (values (r :: a)) with (map Fin r :: values a) in *.
  rewrite (statistic_of_transpose_w _ _ Hrect) in H1
    by exact (valid_ncols _ Hv).
  congruence.
Qed.





(** ** The adjusted numerator at [n = 1] *)




(** * Further properties of the charts *)

Module FrameFacts.
Import Plotter Charts.

Local Open Scope nat_scope.
Local Unset Implicit Arguments.

(** ** Lists *)

Lemma filter_all {A} (p : A -> bool) (l : list A) :
  (forall x, In x l -> p x = true) -> filter p l = l.
Proof.
  induction l as [|a l IH]; simpl; intros H; [reflexivity|].
  rewrite (H a (or_introl eq_refl)). f_equal. apply IH.
  intros x Hx. apply H. now right.
Qed.

Lemma filter_none {A} (p : A -> bool) (l : list A) :
  (forall x, In x l -> p x = false) -> filter p l = [].
Proof.
  induction l as [|a l IH]; simpl; intros H; [reflexivity|].
  rewrite (H a (or_introl eq_refl)). apply IH.
  intros x Hx. apply H. now right.
Qed.

Lemma filter_split_perm {A} (p : A -> bool) (l : list A) :
  Permutation (filter p l ++ filter (fun x => negb (p x)) l) l.
Proof.
  induction l as [|a l IH]; simpl; [constructor|].
  destruct (p a); simpl.
  - now constructor.
  - eapply perm_trans; [apply Permutation_sym, Permutation_middle|].
    now constructor.
Qed.

Lemma filter_length_all {A} (p : A -> bool) (l : list A) :
  length (filter p l) = length l -> forall x, In x l -> p x = true.
Proof.
  induction l as [|a l IH]; simpl; [intros _ x []|].
  destruct (p a) eqn:E; simpl.
  - intros H x [Hx|Hx]; [now subst | apply IH; [lia | assumption]].
  - intros H. pose proof (filter_length_le p l). lia.
Qed.

Lemma NoDup_filter {A} (p : A -> bool) (l : list A) :
  NoDup l -> NoDup (filter p l).
Proof.
  induction 1 as [|a l Ha Hn IH]; simpl; [constructor|].
  destruct (p a); [|assumption].
  constructor; [|assumption]. intros H. apply filter_In in H. tauto.
Qed.

Lemma filter_perm {A} (p : A -> bool) (l l' : list A) :
  Permutation l l' -> Permutation (filter p l) (filter p l').
Proof.
  induction 1; simpl.
  - constructor.
  - destruct (p x); [now constructor | assumption].
  - destruct (p x), (p y); try apply Permutation_refl. apply perm_swap.
  - eapply perm_trans; eassumption.
Qed.

(** ** Cells *)

Lemma cell_eqb_true (a b : cell) : cell_eqb a b = true -> a = b.
Proof.
  destruct a as [x|x|], b as [y|y|]; simpl; try discriminate.
  - intros H. apply Qc_eqb_eq in H. now subst.
  - intros H. apply String.eqb_eq in H. now subst.
Qed.

Lemma cell_eqb_refl (a : cell) : notna a = true -> cell_eqb a a = true.
Proof.
  destruct a as [x|x|]; simpl; intros H.
  - apply Qc_eqb_refl.
  - apply String.eqb_refl.
  - discriminate H.
Qed.

Lemma cell_eqb_notna (a b : cell) :
  cell_eqb a b = true -> notna a = true /\ notna b = true.
Proof. destruct a, b; simpl; try discriminate; auto. Qed.

Lemma cell_eqb_neq (a b : cell) : a <> b -> cell_eqb a b = false.
Proof.
  intros H. destruct (cell_eqb a b) eqn:E; [|reflexivity].
  apply cell_eqb_true in E. contradiction.
Qed.

Lemma same_value_eq (a b : cell) : same_value a b = true <-> a = b.
Proof.
  destruct a as [x|x|], b as [y|y|]; simpl;
    try (split; [discriminate | intros H; discriminate H]).
  - rewrite Qc_eqb_eq. split; [intros ->; reflexivity | intros H; now inversion H].
  - rewrite String.eqb_eq. split; [intros ->; reflexivity | intros H; now inversion H].
  - split; reflexivity.
Qed.

Lemma cell_eq_dec (a b : cell) : {a = b} + {a <> b}.
Proof.
  destruct (same_value a b) eqn:E.
  - left. now apply same_value_eq.
  - right. intros H. apply same_value_eq in H. congruence.
Defined.

Lemma existsb_same_value (a : cell) (l : list cell) :
  existsb (same_value a) l = true <-> In a l.
Proof.
  rewrite existsb_exists. split.
  - intros [x [Hx E]]. apply same_value_eq in E. now subst.
  - intros H. exists a. split; [assumption | now apply same_value_eq].
Qed.

Lemma dropna_notna (l : list cell) : forallb notna (dropna l) = true.
Proof.
  apply forallb_forall. intros x Hx. apply filter_In in Hx. tauto.
Qed.

Lemma dropna_id (l : list cell) : forallb notna l = true -> dropna l = l.
Proof.
  unfold dropna. induction l as [|a l IH]; simpl; [reflexivity|].
  intros H. apply andb_true_iff in H. destruct H as [Ha Hl].
  rewrite Ha. f_equal. now apply IH.
Qed.

Lemma dropna_length (l : list cell) :
  length (dropna l) = length l <-> forallb notna l = true.
Proof.
  split; [|intros H; now rewrite dropna_id].
  unfold dropna. induction l as [|a l IH]; simpl; [reflexivity|].
  destruct (notna a); simpl.
  - intros H. apply IH. lia.
  - intros H. pose proof (filter_length_le notna l). lia.
Qed.

(** ** Labels and positions *)

Lemma index_of_some (c : string) (l : list string) (i : nat) :
  index_of c l = Some i -> nth_error l i = Some c.
Proof.
  revert i. induction l as [|a l IH]; intros i; simpl.
  - discriminate.
  - destruct (String.eqb c a) eqn:E.
    + apply String.eqb_eq in E. subst a. intros H. inversion H. reflexivity.
    + destruct (index_of c l) as [j|]; [|discriminate].
      intros H. inversion H. simpl. now apply IH.
Qed.

Lemma index_of_some_in (c : string) (l : list string) (i : nat) :
  index_of c l = Some i -> In c l.
Proof. intros H. apply index_of_some in H. now apply nth_error_In in H. Qed.

Lemma index_of_none (c : string) (l : list string) :
  ~ In c l -> index_of c l = None.
Proof.
  intros H. destruct (index_of c l) as [i|] eqn:E; [|reflexivity].
  exfalso. apply H. exact (index_of_some_in _ _ _ E).
Qed.

Lemma index_of_head (c : string) (l : list string) :
  index_of c (c :: l) = Some 0.
Proof. simpl. now rewrite String.eqb_refl. Qed.

Lemma index_of_tail (c a : string) (l : list string) :
  c <> a ->
  index_of c (a :: l)
  = match index_of c l with Some i => Some (S i) | None => None end.
Proof. intros H. simpl. apply String.eqb_neq in H. now rewrite H. Qed.

Lemma position_missing (c : string) (df : Frame) :
  ~ In c (labels df) -> position c df = Raise (KeyError c).
Proof. intros H. unfold position. now rewrite (index_of_none _ _ H). Qed.

Lemma position_ok (c : string) (df : Frame) (i : nat) :
  position c df = Ok i -> index_of c (labels df) = Some i.
Proof.
  unfold position. destruct (index_of c (labels df)); [|discriminate].
  intros H. now inversion H.
Qed.

Lemma position_raise (c : string) (df : Frame) (e : exn) :
  position c df = Raise e -> e = KeyError c /\ ~ In c (labels df).
Proof.
  unfold position. destruct (index_of c (labels df)) as [i|] eqn:E;
    [discriminate|].
  intros H. inversion H. split; [reflexivity|].
  intros Hin. destruct (@PlotterFacts.index_of_in _ _ Hin) as [i Hi].
  congruence.
Qed.

Lemma string_in_dec (c : string) (l : list string) : {In c l} + {~ In c l}.
Proof. apply in_dec. exact String.string_dec. Defined.

Lemma column_at (c : string) (df : Frame) (i : nat) :
  position c df = Ok i -> column c df = Ok (map (at_pos i) (rows df)).
Proof. intros H. unfold column. rewrite H. reflexivity. Qed.

Lemma column_missing (c : string) (df : Frame) :
  ~ In c (labels df) -> column c df = Raise (KeyError c).
Proof. intros H. unfold column. now rewrite (position_missing _ _ H). Qed.

Lemma column_raise (c : string) (df : Frame) (e : exn) :
  column c df = Raise e -> e = KeyError c /\ ~ In c (labels df).
Proof.
  unfold column. destruct (position c df) as [i|e'] eqn:E; [discriminate|].
  cbn [bind]. intros H. inversion H. subst e'. exact (position_raise _ _ _ E).
Qed.

Lemma column_in (c : string) (df : Frame) :
  In c (labels df) ->
  exists i, position c df = Ok i
            /\ column c df = Ok (map (at_pos i) (rows df)).
Proof.
  intros H. destruct (@PlotterFacts.position_in _ _ H) as [i Hi].
  exists i. split; [assumption | now apply column_at].
Qed.

(** ** Selecting columns *)

Lemma positions_some (cs : list string) (df : Frame) :
  (forall c, In c cs -> In c (labels df)) ->
  exists js, positions cs df = Some js.
Proof.
  induction cs as [|a cs IH]; simpl; intros H; [eauto|].
  destruct (@PlotterFacts.index_of_in a (labels df) (H a (or_introl eq_refl)))
    as [i ->].
  destruct IH as [js ->]; [intros c Hc; apply H; now right|]. eauto.
Qed.

Lemma positions_none (cs : list string) (df : Frame) (c : string) :
  In c cs -> ~ In c (labels df) -> positions cs df = None.
Proof.
  induction cs as [|a cs IH]; simpl; [intros []|].
  intros [H|H] Hm.
  - subst a. now rewrite (index_of_none _ _ Hm).
  - rewrite (IH H Hm). now destruct (index_of a (labels df)).
Qed.

Lemma positions_in (cs : list string) (df : Frame) (js : list nat)
  (c : string) :
  positions cs df = Some js -> In c cs -> In c (labels df).
Proof.
  intros H Hc.
  destruct (string_in_dec c (labels df)) as [Hin|Hm]; [exact Hin|].
  rewrite (positions_none cs df c Hc Hm) in H. discriminate H.
Qed.

(** In the selected frame the column [c] is at the position [k] it has in
    the list of the chosen labels, and holds what it held in the frame. *)
Lemma positions_nth (cs : list string) (df : Frame) (js : list nat)
  (c : string) (k : nat) :
  positions cs df = Some js -> index_of c cs = Some k ->
  exists i, index_of c (labels df) = Some i /\ nth_error js k = Some i.
Proof.
  revert js k. induction cs as [|a cs IH]; simpl; intros js k;
    [discriminate|].
  destruct (index_of a (labels df)) as [i|] eqn:Ep; [|discriminate].
  destruct (positions cs df) as [js'|]; [|discriminate].
  intros H. inversion H. subst js. clear H.
  destruct (String.eqb c a) eqn:E.
  - apply String.eqb_eq in E. subst a. intros H. inversion H. subst k.
    exists i. split; [exact Ep | reflexivity].
  - destruct (index_of c cs) as [k'|] eqn:Ek; [|discriminate].
    intros H. inversion H. subst k.
    destruct (IH js' k' eq_refl eq_refl) as [i' [Hi Hn]].
    exists i'. split; assumption.
Qed.

Lemma nth_map_positions (js : list nat) (r : list cell) (k i : nat) :
  nth_error js k = Some i ->
  at_pos k (map (fun i => nth i r (Str "")) js) = at_pos i r.
Proof.
  revert k. induction js as [|j js IH]; intros [|k]; simpl; try discriminate.
  - intros H. inversion H. reflexivity.
  - intros H. unfold at_pos in *. simpl. now apply IH.
Qed.

(** When a label is missing, [df[[...]]] raises an exception of the class
    [KeyError]. *)
Lemma select_missing (cs : list string) (df : Frame) (c : string) :
  In c cs -> ~ In c (labels df) ->
  exists e, select cs df = Raise e /\ is_key_error e = true.
Proof.
  intros Hin Hm. unfold select. rewrite (positions_none cs df c Hin Hm).
  cbv zeta. destruct (Nat.eqb _ _); eexists; split; reflexivity.
Qed.

Lemma select_raise (cs : list string) (df : Frame) (e : exn) :
  select cs df = Raise e ->
  is_key_error e = true /\ exists c, In c cs /\ ~ In c (labels df).
Proof.
  unfold select. destruct (positions cs df) as [js|] eqn:E; [discriminate|].
  intros H. split.
  - cbv zeta in H. destruct (Nat.eqb _ _); inversion H; reflexivity.
  - clear H. induction cs as [|a cs IH]; simpl in E; [discriminate|].
    destruct (string_in_dec a (labels df)) as [Ha|Ha].
    + destruct (@PlotterFacts.index_of_in a (labels df) Ha) as [i Hi].
      rewrite Hi in E.
      destruct (positions cs df) as [js|]; [discriminate|].
      destruct (IH eq_refl) as [c [Hc Hm]].
      exists c. split; [now right | exact Hm].
    + exists a. split; [now left | exact Ha].
Qed.

Lemma select_ok (cs : list string) (df : Frame) :
  (forall c, In c cs -> In c (labels df)) ->
  exists sel, select cs df = Ok sel.
Proof.
  intros H. destruct (positions_some cs df H) as [js Hjs].
  unfold select. rewrite Hjs. eauto.
Qed.

(** The rows of the selected frame are the rows of the frame, each cut
    down to the chosen columns. *)
Lemma select_rows (cs : list string) (df sel : Frame) :
  select cs df = Ok sel ->
  exists js, positions cs df = Some js
             /\ labels sel = cs
             /\ rows sel
                = map (fun r => map (fun i => nth i r (Str "")) js) (rows df).
Proof.
  unfold select. destruct (positions cs df) as [js|] eqn:E.
  - intros H. inversion H. subst sel. exists js. simpl. auto.
  - cbv zeta. destruct (Nat.eqb _ _); discriminate.
Qed.

Lemma select_at (cs : list string) (df sel : Frame) (c : string) (k : nat) :
  select cs df = Ok sel -> index_of c cs = Some k ->
  exists i, index_of c (labels df) = Some i
            /\ map (at_pos k) (rows sel) = map (at_pos i) (rows df).
Proof.
  intros Hs Hk. destruct (select_rows _ _ _ Hs) as [js [Hjs [_ Hr]]].
  destruct (positions_nth _ _ _ _ _ Hjs Hk) as [i [Hi Hn]].
  exists i. split; [assumption|].
  rewrite Hr, map_map. apply map_ext. intros r.
  now apply nth_map_positions.
Qed.

Lemma existsb_label (c : string) (l : list string) :
  existsb (String.eqb c) l = true <-> In c l.
Proof.
  rewrite existsb_exists. split.
  - intros [a [Ha E]]. apply String.eqb_eq in E. now subst.
  - intros H. exists c. split; [assumption | apply String.eqb_refl].
Qed.

Lemma missing_labels_in (cs : list string) (df : Frame) (c : string) :
  In c (missing_labels cs df) <-> In c cs /\ ~ In c (labels df).
Proof.
  unfold missing_labels. rewrite filter_In, Bool.negb_true_iff.
  rewrite <- (existsb_label c (labels df)).
  destruct (existsb (String.eqb c) (labels df)).
  - split; [intros [_ H]; discriminate H | intros [_ H]; now destruct H].
  - split; [intros [H _]; split; [exact H | discriminate] | tauto].
Qed.

Lemma unique_labels_in (l : list string) (c : string) :
  In c (unique_labels l) <-> In c l.
Proof.
  induction l as [|a l IH]; simpl; [tauto|].
  rewrite filter_In, IH, Bool.negb_true_iff, String.eqb_neq.
  destruct (String.eqb a c) eqn:E.
  - apply String.eqb_eq in E. tauto.
  - apply String.eqb_neq in E. tauto.
Qed.

Lemma unique_labels_NoDup (l : list string) : NoDup (unique_labels l).
Proof.
  induction l as [|a l IH]; simpl; constructor.
  - intros H. apply filter_In in H. destruct H as [_ H].
    rewrite String.eqb_refl in H. discriminate H.
  - now apply NoDup_filter.
Qed.

(** No label is a column: the exception names them all. *)
Lemma select_none_in_columns (cs : list string) (df : Frame) :
  cs <> [] -> (forall c, In c cs -> ~ In c (labels df)) ->
  select cs df = Raise (KeyErrorNoneInColumns cs).
Proof.
  intros Hne H. unfold select.
  destruct cs as [|a cs]; [congruence|].
  rewrite (positions_none (a :: cs) df a (or_introl eq_refl)
             (H a (or_introl eq_refl))).
  cbv zeta. unfold missing_labels.
  rewrite filter_all.
  - now rewrite Nat.eqb_refl.
  - intros c Hc. apply Bool.negb_true_iff.
    destruct (existsb (String.eqb c) (labels df)) eqn:E; [|reflexivity].
    apply existsb_label in E. destruct (H c Hc E).
Qed.

(** Some labels are columns and some are not: the exception names the
    missing ones, each once. *)
Lemma select_not_in_index (cs : list string) (df : Frame) (a b : string) :
  In a cs -> In a (labels df) -> In b cs -> ~ In b (labels df) ->
  exists m, select cs df = Raise (KeyErrorNotInIndex m)
            /\ NoDup m
            /\ (forall c, In c m <-> In c cs /\ ~ In c (labels df)).
Proof.
  intros Ha Ha' Hb Hb'. unfold select.
  rewrite (positions_none cs df b Hb Hb'). cbv zeta.
  destruct (Nat.eqb (length (missing_labels cs df)) (length cs)) eqn:E.
  - apply Nat.eqb_eq in E. unfold missing_labels in E.
    pose proof (filter_length_all _ cs E a Ha) as H.
    apply Bool.negb_true_iff in H.
    apply existsb_label in Ha'. congruence.
  - exists (unique_labels (missing_labels cs df)).
    split; [reflexivity|]. split; [apply unique_labels_NoDup|].
    intros c. rewrite unique_labels_in. apply missing_labels_in.
Qed.

(** ** Sorting *)

Lemma insert_desc_perm (i : nat) (r : list cell) (l : list (list cell)) :
  Permutation (insert_desc i r l) (r :: l).
Proof.
  induction l as [|r' l IH]; simpl.
  - apply Permutation_refl.
  - destruct (cell_ltb _ _).
    + eapply perm_trans; [apply perm_skip; exact IH | apply perm_swap].
    + apply Permutation_refl.
Qed.

Lemma fold_insert_desc_perm (i : nat) (l acc : list (list cell)) :
  Permutation (fold_left (fun acc r => insert_desc i r acc) l acc) (l ++ acc).
Proof.
  revert acc. induction l as [|r l IH]; intros acc; simpl.
  - apply Permutation_refl.
  - eapply perm_trans; [apply IH|].
    eapply perm_trans;
      [apply Permutation_app_head; apply insert_desc_perm|].
    apply Permutation_sym, Permutation_middle.
Qed.

Lemma sort_rows_desc_perm (i : nat) (l : list (list cell)) :
  Permutation (sort_rows_desc i l) l.
Proof.
  unfold sort_rows_desc.
  eapply perm_trans; [apply fold_insert_desc_perm|].
  rewrite app_nil_r. apply Permutation_refl.
Qed.

Lemma not_below_trans (i : nat) (a b c : list cell) :
  is_num (at_pos i a) = true -> is_num (at_pos i b) = true ->
  is_num (at_pos i c) = true ->
  not_below i a b -> not_below i b c -> not_below i a c.
Proof.
  unfold not_below.
  destruct (at_pos i a) as [x|x|], (at_pos i b) as [y|y|],
    (at_pos i c) as [z|z|]; simpl; try discriminate.
  intros _ _ _. rewrite !Qc_ltb_ge. intros H1 H2.
  eapply Qcle_trans; eassumption.
Qed.

Lemma ltb_not_below (i : nat) (a b : list cell) :
  is_num (at_pos i a) = true -> is_num (at_pos i b) = true ->
  cell_ltb (at_pos i a) (at_pos i b) = true -> not_below i b a.
Proof.
  unfold not_below.
  destruct (at_pos i a) as [x|x|], (at_pos i b) as [y|y|]; simpl;
    try discriminate.
  intros _ _. rewrite Qc_ltb_lt, Qc_ltb_ge. apply Qclt_le_weak.
Qed.

Lemma insert_desc_sorted (i : nat) (r : list cell) (l : list (list cell)) :
  num_keys i (r :: l) ->
  StronglySorted (not_below i) l ->
  StronglySorted (not_below i) (insert_desc i r l).
Proof.
  intros Hn Hs. induction Hs as [|r' l Hs IH Hall]; simpl.
  - constructor; constructor.
  - inversion Hn as [|? ? Hr Hl]. subst.
    inversion Hl as [|? ? Hr' Hl']. subst.
    destruct (cell_ltb (nth i r (Str "")) (nth i r' (Str ""))) eqn:E.
    + constructor.
      * apply IH. constructor; assumption.
      * apply Forall_forall. intros x Hx.
        apply (Permutation_in _ (insert_desc_perm i r l)) in Hx.
        destruct Hx as [Hx|Hx].
        -- subst x. apply ltb_not_below; assumption.
        -- rewrite Forall_forall in Hall. now apply Hall.
    + constructor.
      * constructor; assumption.
      * constructor; [exact E|].
        apply Forall_forall. intros x Hx.
        rewrite Forall_forall in Hall, Hl'.
        apply not_below_trans with r'; auto.
Qed.

Lemma fold_insert_desc_sorted (i : nat) (l acc : list (list cell)) :
  num_keys i (l ++ acc) ->
  StronglySorted (not_below i) acc ->
  StronglySorted (not_below i)
    (fold_left (fun acc r => insert_desc i r acc) l acc).
Proof.
  revert acc. induction l as [|r l IH]; intros acc Hn Hs; simpl.
  - assumption.
  - apply IH.
    + unfold num_keys in *. rewrite Forall_forall in *. intros x Hx.
      apply Hn. apply in_app_or in Hx. destruct Hx as [Hx|Hx].
      * simpl. right. apply in_or_app. now left.
      * apply (Permutation_in _ (insert_desc_perm i r acc)) in Hx.
        destruct Hx as [Hx|Hx]; [now left|].
        simpl. right. apply in_or_app. now right.
    + apply insert_desc_sorted; [|assumption].
      unfold num_keys in *. rewrite Forall_forall in *. intros x Hx.
      apply Hn. destruct Hx as [Hx|Hx]; [now left|].
      simpl. right. apply in_or_app. now right.
Qed.

Lemma sort_rows_desc_sorted (i : nat) (l : list (list cell)) :
  num_keys i l -> StronglySorted (not_below i) (sort_rows_desc i l).
Proof.
  intros H. apply fold_insert_desc_sorted; [|constructor].
  now rewrite app_nil_r.
Qed.

Lemma StronglySorted_filter {A} (R : A -> A -> Prop) (p : A -> bool)
  (l : list A) :
  StronglySorted R l -> StronglySorted R (filter p l).
Proof.
  induction 1 as [|a l Hs IH Hall]; simpl; [constructor|].
  destruct (p a); [|assumption].
  constructor; [assumption|].
  rewrite Forall_forall in *. intros x Hx.
  apply filter_In in Hx. now apply Hall.
Qed.

Lemma StronglySorted_map {A B} (R : B -> B -> Prop) (f : A -> B)
  (l : list A) :
  StronglySorted (fun a b => R (f a) (f b)) l -> StronglySorted R (map f l).
Proof.
  induction 1 as [|a l Hs IH Hall]; simpl; constructor; [assumption|].
  rewrite Forall_forall in *. intros y Hy.
  apply in_map_iff in Hy. destruct Hy as [x [<- Hx]]. now apply Hall.
Qed.

(** Rows whose keys are numbers all have a key. *)
Lemma is_num_notna (c : cell) : is_num c = true -> notna c = true.
Proof. destruct c; simpl; auto; discriminate. Qed.

Lemma is_str_notna (c : cell) : is_str c = true -> notna c = true.
Proof. destruct c; simpl; auto; discriminate. Qed.

Lemma with_value_num (i : nat) (l : list (list cell)) :
  num_keys i l -> with_value i l = l.
Proof.
  unfold num_keys, with_value. rewrite Forall_forall. intros H.
  apply filter_all. intros r Hr. apply is_num_notna. now apply H.
Qed.

Lemma without_value_num (i : nat) (l : list (list cell)) :
  num_keys i l -> without_value i l = [].
Proof.
  unfold num_keys, without_value. rewrite Forall_forall. intros H.
  apply filter_none. intros r Hr. rewrite (is_num_notna _ (H r Hr)).
  reflexivity.
Qed.

Lemma sort_na_last_num (i : nat) (l : list (list cell)) :
  num_keys i l -> sort_na_last i l = sort_rows_desc i l.
Proof.
  intros H. unfold sort_na_last.
  rewrite (with_value_num i l H), (without_value_num i l H).
  apply app_nil_r.
Qed.

Lemma sort_na_last_perm (i : nat) (l : list (list cell)) :
  Permutation (sort_na_last i l) l.
Proof.
  unfold sort_na_last, with_value, without_value.
  eapply perm_trans;
    [apply Permutation_app_tail; apply sort_rows_desc_perm|].
  apply filter_split_perm.
Qed.

(** The rows with a key come first, by decreasing key when the keys are
    numbers. *)
Lemma sort_na_last_with_value (i : nat) (l : list (list cell)) :
  with_value i (sort_na_last i l) = sort_rows_desc i (with_value i l).
Proof.
  unfold sort_na_last, with_value at 1. rewrite filter_app.
  rewrite (filter_all _ (sort_rows_desc i (with_value i l))).
  - rewrite (filter_none _ (without_value i l)); [apply app_nil_r|].
    intros r Hr. apply filter_In in Hr. destruct Hr as [_ Hr].
    now destruct (notna (at_pos i r)).
  - intros r Hr. apply (Permutation_in _ (sort_rows_desc_perm i _)) in Hr.
    apply filter_In in Hr. tauto.
Qed.

(** [sort_values] on a frame. *)
Lemma sort_values_desc_rows (c : string) (df sorted : Frame) :
  sort_values_desc c df = Ok sorted ->
  exists i, position c df = Ok i
            /\ occurrences c (labels df) <= 1
            /\ comparable (map (at_pos i) (rows df)) = true
            /\ labels sorted = labels df
            /\ rows sorted = sort_na_last i (rows df).
Proof.
  unfold sort_values_desc.
  destruct (position c df) as [i|] eqn:E; cbn [bind]; [|discriminate].
  fold (at_pos i).
  destruct (Nat.ltb 1 (occurrences c (labels df))) eqn:Eo; [discriminate|].
  destruct (comparable (map (at_pos i) (rows df))) eqn:Ec; [|discriminate].
  intros H. inversion H. subst sorted. exists i. simpl.
  apply Nat.ltb_ge in Eo. auto.
Qed.

Lemma sort_values_desc_ok (c : string) (df : Frame) (i : nat) :
  position c df = Ok i ->
  occurrences c (labels df) <= 1 ->
  comparable (map (at_pos i) (rows df)) = true ->
  sort_values_desc c df
  = Ok (mkFrame (labels df) (sort_na_last i (rows df))).
Proof.
  intros Hp Ho Hc. unfold sort_values_desc. rewrite Hp. cbn [bind].
  fold (at_pos i). apply Nat.ltb_ge in Ho. rewrite Ho, Hc. reflexivity.
Qed.

Lemma sort_values_desc_mixed (c : string) (df : Frame) (i : nat) :
  position c df = Ok i ->
  occurrences c (labels df) <= 1 ->
  comparable (map (at_pos i) (rows df)) = false ->
  sort_values_desc c df = Raise TypeError.
Proof.
  intros Hp Ho Hc. unfold sort_values_desc. rewrite Hp. cbn [bind].
  fold (at_pos i). apply Nat.ltb_ge in Ho. rewrite Ho, Hc. reflexivity.
Qed.

Lemma sort_values_desc_twice (c : string) (df : Frame) (i : nat) :
  position c df = Ok i ->
  1 < occurrences c (labels df) ->
  sort_values_desc c df = Raise ValueError.
Proof.
  intros Hp Ho. unfold sort_values_desc. rewrite Hp. cbn [bind].
  apply Nat.ltb_lt in Ho. rewrite Ho. reflexivity.
Qed.

Lemma occurrences_two (x y : string) :
  x <> y -> occurrences y [x; y] = 1.
Proof.
  intros H. unfold occurrences. simpl.
  rewrite String.eqb_refl.
  destruct (String.eqb y x) eqn:E; [|reflexivity].
  apply String.eqb_eq in E. congruence.
Qed.

Lemma occurrences_three (x g y : string) :
  x <> y -> g <> y -> occurrences y [x; g; y] = 1.
Proof.
  intros H1 H2. unfold occurrences. simpl.
  rewrite String.eqb_refl.
  destruct (String.eqb y x) eqn:E;
    [apply String.eqb_eq in E; congruence|].
  destruct (String.eqb y g) eqn:E';
    [apply String.eqb_eq in E'; congruence|].
  reflexivity.
Qed.

(** ** Distinct values *)

Lemma unique_from_in (seen l : list cell) (x : cell) :
  In x (unique_from seen l) <-> In x l /\ ~ In x seen.
Proof.
  revert seen. induction l as [|a l IH]; intros seen; simpl.
  - tauto.
  - destruct (existsb (same_value a) seen) eqn:E.
    + apply existsb_same_value in E. rewrite IH. split.
      * intros [H1 H2]. auto.
      * intros [[H|H] H2]; [subst; contradiction | auto].
    + assert (Ha : ~ In a seen).
      { intros H. apply existsb_same_value in H. congruence. }
      simpl. rewrite IH. simpl. split.
      * intros [H|[H1 H2]]; [subst; auto|]. split; [auto|tauto].
      * intros [[H|H] H2]; [auto|].
        destruct (cell_eq_dec a x) as [->|N]; [auto|]. right.
        split; [assumption|]. intros [H3|H3]; [congruence | contradiction].
Qed.

Lemma unique_from_NoDup (seen l : list cell) : NoDup (unique_from seen l).
Proof.
  revert seen. induction l as [|a l IH]; intros seen; simpl.
  - constructor.
  - destruct (existsb (same_value a) seen); [apply IH|].
    constructor; [|apply IH].
    rewrite unique_from_in. intros [_ H]. apply H. now left.
Qed.

Lemma unique_in (l : list cell) (x : cell) : In x (unique l) <-> In x l.
Proof. unfold unique. rewrite unique_from_in. simpl. tauto. Qed.

Lemma unique_NoDup (l : list cell) : NoDup (unique l).
Proof. apply unique_from_NoDup. Qed.

Lemma unique_perm (l l' : list cell) :
  Permutation l l' -> Permutation (unique l) (unique l').
Proof.
  intros H. apply NoDup_Permutation; try apply unique_NoDup.
  intros x. rewrite !unique_in. split; apply Permutation_in;
    [assumption | now apply Permutation_sym].
Qed.

(** A list without repetition is its own list of distinct values. *)
Lemma unique_from_NoDup_id (seen l : list cell) :
  NoDup l -> (forall x, In x l -> ~ In x seen) -> unique_from seen l = l.
Proof.
  revert seen. induction l as [|a l IH]; intros seen Hn Hs; simpl;
    [reflexivity|].
  inversion Hn as [|? ? Ha Hl]. subst.
  destruct (existsb (same_value a) seen) eqn:E.
  - apply existsb_same_value in E. exfalso. apply (Hs a); [now left | assumption].
  - f_equal. apply IH; [assumption|].
    intros x Hx [H|H]; [subst; contradiction|].
    apply (Hs x); [now right | assumption].
Qed.

Lemma unique_length_le (l : list cell) : length (unique l) <= length l.
Proof.
  unfold unique. generalize (@nil cell) as seen.
  induction l as [|a l IH]; intros seen; simpl; [lia|].
  destruct (existsb (same_value a) seen); simpl.
  - specialize (IH seen). lia.
  - specialize (IH (a :: seen)). lia.
Qed.

Lemma unique_length_NoDup (l : list cell) :
  length (unique l) = length l <-> NoDup l.
Proof.
  split.
  - intros H.
    apply (Permutation_NoDup (l := unique l)); [|apply unique_NoDup].
    apply NoDup_Permutation_bis; [apply unique_NoDup | lia |].
    intros x. apply unique_in.
  - intros H. unfold unique. rewrite unique_from_NoDup_id; auto.
Qed.

(** ** Counting *)

Lemma list_sum_map_add {A} (f g : A -> nat) (l : list A) :
  list_sum (map (fun v => f v + g v) l)
  = list_sum (map f l) + list_sum (map g l).
Proof. induction l as [|a l IH]; simpl; [reflexivity | rewrite IH; lia]. Qed.

Lemma list_sum_indicator_out (a : cell) (u : list cell) :
  ~ In a u ->
  list_sum (map (fun v => if cell_eqb v a then 1 else 0) u) = 0.
Proof.
  induction u as [|b u IH]; simpl; [reflexivity|].
  intros H. destruct (cell_eqb b a) eqn:E.
  - apply cell_eqb_true in E. exfalso. apply H. now left.
  - apply IH. tauto.
Qed.

Lemma list_sum_indicator_na (a : cell) (u : list cell) :
  notna a = false ->
  list_sum (map (fun v => if cell_eqb v a then 1 else 0) u) = 0.
Proof.
  intros Ha. induction u as [|b u IH]; simpl; [reflexivity|].
  destruct (cell_eqb b a) eqn:E; [|exact IH].
  apply cell_eqb_notna in E. destruct E as [_ E]. congruence.
Qed.

Lemma list_sum_indicator (a : cell) (u : list cell) :
  notna a = true -> NoDup u -> In a u ->
  list_sum (map (fun v => if cell_eqb v a then 1 else 0) u) = 1.
Proof.
  intros Ha. induction 1 as [|b u Hb Hn IH]; simpl; [intros []|].
  intros [H|H].
  - subst b. rewrite (cell_eqb_refl a Ha).
    now rewrite (list_sum_indicator_out a u Hb).
  - destruct (cell_eqb b a) eqn:E.
    + apply cell_eqb_true in E. subst. contradiction.
    + now apply IH.
Qed.

Lemma count_cell_cons (v a : cell) (l : list cell) :
  count_cell v (a :: l)
  = (if cell_eqb v a then 1 else 0) + count_cell v l.
Proof. unfold count_cell. simpl. now destruct (cell_eqb v a). Qed.

(** The counts of the values of [u] in [l] add up to the number of
    values of [l] that are not missing, when [u] lists every such value
    once. *)
Lemma count_cell_total (u l : list cell) :
  NoDup u -> (forall x, In x l -> notna x = true -> In x u) ->
  list_sum (map (fun v => count_cell v l) u) = length (dropna l).
Proof.
  intros Hn. induction l as [|a l IH]; intros H.
  - clear Hn H. unfold count_cell. simpl.
    induction u as [|b u IHu]; simpl; [reflexivity | exact IHu].
  - rewrite (map_ext _ _ (fun v => count_cell_cons v a l)).
    rewrite list_sum_map_add.
    rewrite IH by (intros x Hx; apply H; now right).
    unfold dropna. simpl. destruct (notna a) eqn:Ea.
    + rewrite (list_sum_indicator a u Ea Hn)
        by (apply H; [now left | exact Ea]).
      reflexivity.
    + rewrite (list_sum_indicator_na a u Ea). reflexivity.
Qed.

Lemma count_cell_pos (v : cell) (l : list cell) :
  notna v = true -> In v l -> 0 < count_cell v l.
Proof.
  intros Hv. induction l as [|a l IH]; [intros []|].
  intros [H|H]; rewrite count_cell_cons.
  - subst. rewrite (cell_eqb_refl v Hv). lia.
  - specialize (IH H). lia.
Qed.

Lemma count_cell_perm (v : cell) (l l' : list cell) :
  Permutation l l' -> count_cell v l = count_cell v l'.
Proof.
  induction 1; try reflexivity.
  - rewrite !count_cell_cons. lia.
  - rewrite !count_cell_cons. lia.
  - congruence.
Qed.

(** Missing values do not count. *)
Lemma count_cell_dropna (v : cell) (l : list cell) :
  count_cell v (dropna l) = count_cell v l.
Proof.
  unfold dropna. induction l as [|a l IH]; [reflexivity|].
  simpl. destruct (notna a) eqn:Ea.
  - rewrite !count_cell_cons. now rewrite IH.
  - rewrite count_cell_cons, IH.
    destruct (cell_eqb v a) eqn:E; [|reflexivity].
    apply cell_eqb_notna in E. destruct E as [_ E]. congruence.
Qed.

(** ** Splitting rows by group *)

Lemma flat_map_ext_In {A B} (f g : A -> list B) (l : list A) :
  (forall a, In a l -> f a = g a) -> flat_map f l = flat_map g l.
Proof.
  induction l as [|a l IH]; simpl; intros H; [reflexivity|].
  rewrite (H a (or_introl eq_refl)). f_equal. apply IH. auto.
Qed.

Lemma filter_filter_ext {A} (p q : A -> bool) (l : list A) :
  (forall x, p x = true -> q x = true) ->
  filter p (filter q l) = filter p l.
Proof.
  intros H. induction l as [|a l IH]; simpl; [reflexivity|].
  destruct (q a) eqn:Eq; simpl.
  - destruct (p a); [f_equal|]; assumption.
  - destruct (p a) eqn:Ep; [|assumption].
    rewrite (H a Ep) in Eq. discriminate.
Qed.

Lemma filter_comm {A} (p q : A -> bool) (l : list A) :
  filter p (filter q l) = filter q (filter p l).
Proof.
  induction l as [|a l IH]; simpl; [reflexivity|].
  destruct (q a) eqn:Eq, (p a) eqn:Ep; simpl; rewrite ?Eq, ?Ep, IH;
    reflexivity.
Qed.

(** Splitting the rows by the groups [u] and putting the parts one after
    the other gives back the rows that have a group, in another order: a
    row whose group is missing is in no part. *)
Lemma groups_partition (key : list cell -> cell) (u : list cell)
  (l : list (list cell)) :
  NoDup u ->
  (forall r, In r l -> notna (key r) = true -> In (key r) u) ->
  Permutation (flat_map (fun g => filter (fun r => cell_eqb (key r) g) l) u)
    (filter (fun r => notna (key r)) l).
Proof.
  intros Hn. revert l. induction Hn as [|g u Hg Hn IH]; intros l H; simpl.
  - rewrite filter_none; [constructor|].
    intros r Hr. destruct (notna (key r)) eqn:E; [|reflexivity].
    destruct (H r Hr E).
  - set (p := fun r => cell_eqb (key r) g).
    set (nk := fun r => notna (key r)).
    set (l' := filter (fun r => negb (p r)) l).
    assert (E : flat_map (fun g0 => filter (fun r => cell_eqb (key r) g0) l) u
                = flat_map (fun g0 => filter (fun r => cell_eqb (key r) g0) l')
                    u).
    { apply flat_map_ext_In. intros g0 Hg0. unfold l'. symmetry.
      apply filter_filter_ext. intros r Hr.
      apply cell_eqb_true in Hr. subst g0.
      apply Bool.negb_true_iff. apply cell_eqb_neq. intros E'.
      rewrite E' in Hg0. contradiction. }
    rewrite E.
    eapply perm_trans; [|apply (filter_split_perm p (filter nk l))].
    rewrite (filter_filter_ext p nk l).
    + apply Permutation_app_head.
      rewrite (filter_comm (fun x => negb (p x)) nk l).
      apply IH. intros r Hr Hk. unfold l' in Hr.
      apply filter_In in Hr. destruct Hr as [Hr Hp].
      destruct (H r Hr Hk) as [Hg'|Hu]; [|assumption].
      unfold p in Hp. rewrite Hg' in Hp.
      rewrite (cell_eqb_refl _ Hk) in Hp. discriminate.
    + intros r Hr. unfold p in Hr. apply cell_eqb_notna in Hr. tauto.
Qed.

Lemma where_eq_rows (c : string) (v : cell) (df : Frame) (i : nat) :
  position c df = Ok i ->
  where_eq c v df
  = Ok (mkFrame (labels df)
          (filter (fun r => cell_eqb (at_pos i r) v) (rows df))).
Proof. intros H. unfold where_eq. rewrite H. reflexivity. Qed.

(** ** Counts as numbers *)

Lemma qn_ltb_false (a b : nat) : Qc_ltb (qn a) (qn b) = false -> b <= a.
Proof.
  rewrite Qc_ltb_ge. unfold qn, qz, Qcle. cbn [this Q2Qc].
  rewrite !Qred_correct. unfold Qle. simpl. lia.
Qed.

Lemma StronglySorted_impl_in {A} (R R' : A -> A -> Prop) (l : list A) :
  (forall a b, In a l -> In b l -> R a b -> R' a b) ->
  StronglySorted R l -> StronglySorted R' l.
Proof.
  intros H Hs. induction Hs as [|a l Hs IH Hall]; constructor.
  - apply IH. intros x y Hx Hy. apply H; now right.
  - rewrite Forall_forall in *. intros x Hx.
    apply H; [now left | now right | now apply Hall].
Qed.

(** ** The table of counts *)

Lemma count_rows_num_keys (col u : list cell) :
  num_keys 1 (map (fun v => [v; Num (qn (count_cell v col))]) u).
Proof.
  unfold num_keys. apply Forall_forall. intros r Hr.
  apply in_map_iff in Hr. destruct Hr as [v [<- _]]. reflexivity.
Qed.

Lemma num_keys_perm (i : nat) (l l' : list (list cell)) :
  Permutation l l' -> num_keys i l -> num_keys i l'.
Proof. intros H. unfold num_keys. now apply Permutation_Forall. Qed.

Lemma forallb_dropna (p : cell -> bool) (l : list cell) :
  forallb p l = true -> forallb p (dropna l) = true.
Proof.
  rewrite !forallb_forall. intros H x Hx. apply H.
  apply filter_In in Hx. tauto.
Qed.

Lemma is_num_comparable (l : list cell) :
  forallb is_num l = true -> comparable l = true.
Proof.
  intros H. unfold comparable. now rewrite (forallb_dropna is_num l H).
Qed.

Lemma num_keys_comparable (i : nat) (l : list (list cell)) :
  num_keys i l -> comparable (map (at_pos i) l) = true.
Proof.
  intros H. apply is_num_comparable.
  apply forallb_forall. intros x Hx. apply in_map_iff in Hx.
  destruct Hx as [r [<- Hr]]. unfold num_keys in H.
  rewrite Forall_forall in H. now apply H.
Qed.

Lemma value_counts_rows (c : string) (col : list cell) :
  labels (value_counts c col) = [c; "count"]
  /\ Permutation (rows (value_counts c col))
       (map (fun v => [v; Num (qn (count_cell v col))])
          (unique (dropna col)))
  /\ StronglySorted (not_below 1) (rows (value_counts c col)).
Proof.
  unfold value_counts. cbn [labels rows]. split; [reflexivity|]. split.
  - apply sort_rows_desc_perm.
  - apply sort_rows_desc_sorted. apply count_rows_num_keys.
Qed.

(** The chart [plot_bar_chart_univariate] returns, by the rows of the
    sorted table of counts. *)
Lemma plot_bar_chart_univariate_ok (data : Frame)
  (c title x_axis_title y_axis_title : string) (height width : Z)
  (col : list cell) :
  column c data = Ok col -> c <> "count" ->
  exists srows,
    plot_bar_chart_univariate data c title x_axis_title y_axis_title
      height width
    = Ok (mkChart
            [BarTrace (map (at_pos 0) srows) (map (at_pos 1) srows)
               "#db0000"]
            (chart_layout_of title x_axis_title y_axis_title height width))
    /\ Permutation srows
         (map (fun v => [v; Num (qn (count_cell v col))])
            (unique (dropna col)))
    /\ StronglySorted (not_below 1) srows.
Proof.
  intros Hcol Hc.
  destruct (value_counts_rows c col) as [Hl [Hp Hs]].
  set (vc := value_counts c col) in *.
  assert (Hn : num_keys 1 (rows vc)).
  { apply (num_keys_perm 1 _ _ (Permutation_sym Hp)).
    apply count_rows_num_keys. }
  assert (Hp1 : position "count" vc = Ok 1).
  { unfold position. rewrite Hl.
    rewrite index_of_tail by congruence. now rewrite index_of_head. }
  set (sorted := mkFrame (labels vc) (sort_rows_desc 1 (rows vc))).
  assert (Hsort : sort_values_desc "count" vc = Ok sorted).
  { rewrite (sort_values_desc_ok "count" vc 1 Hp1).
    - now rewrite (sort_na_last_num 1 (rows vc) Hn).
    - rewrite Hl. rewrite (occurrences_two c "count" Hc). lia.
    - now apply num_keys_comparable. }
  exists (sort_rows_desc 1 (rows vc)).
  split; [|split].
  - unfold plot_bar_chart_univariate. rewrite Hcol. cbn [bind].
    fold vc. rewrite Hsort. cbn [bind].
    assert (Hx : column c sorted = Ok (map (at_pos 0) (rows sorted))).
    { apply column_at. unfold position, sorted. cbn [labels]. rewrite Hl.
      now rewrite index_of_head. }
    assert (Hy : column "count" sorted = Ok (map (at_pos 1) (rows sorted))).
    { apply column_at. unfold position, sorted. cbn [labels]. rewrite Hl.
      rewrite index_of_tail by congruence. now rewrite index_of_head. }
    rewrite Hx. cbn [bind]. rewrite Hy. cbn [bind]. reflexivity.
  - eapply perm_trans; [apply sort_rows_desc_perm | exact Hp].
  - now apply sort_rows_desc_sorted.
Qed.


Lemma column_ok (c : string) (df : Frame) (col : list cell) :
  column c df = Ok col ->
  exists i, position c df = Ok i /\ col = map (at_pos i) (rows df).
Proof.
  unfold column. destruct (position c df) as [i|]; cbn [bind];
    [|discriminate].
  intros H. inversion H. exists i. split; reflexivity.
Qed.

Lemma column_ok_in (c : string) (df : Frame) (col : list cell) :
  column c df = Ok col -> In c (labels df).
Proof.
  intros H. destruct (column_ok c df col H) as [i [Hp _]].
  apply position_ok in Hp. exact (index_of_some_in _ _ _ Hp).
Qed.

(** ** [plot_bar_chart_univariate_y_col] *)

Lemma select_two (df : Frame) (x y : string) (ix iy : nat) :
  position x df = Ok ix -> position y df = Ok iy ->
  select [x; y] df
  = Ok (mkFrame [x; y] (map (fun r => [at_pos ix r; at_pos iy r]) (rows df))).
Proof.
  intros Hx Hy. apply position_ok in Hx. apply position_ok in Hy.
  unfold select. cbn [positions]. rewrite Hx, Hy. reflexivity.
Qed.

Lemma plot_bar_chart_univariate_y_col_ok (data : Frame)
  (x y title x_axis_title y_axis_title : string) (height width : Z)
  (ix iy : nat) :
  x <> y -> position x data = Ok ix -> position y data = Ok iy ->
  comparable (map (at_pos iy) (rows data)) = true ->
  plot_bar_chart_univariate_y_col data x y title x_axis_title y_axis_title
    height width
  = let srows :=
      sort_na_last 1
        (map (fun r => [at_pos ix r; at_pos iy r]) (rows data)) in
    Ok (mkChart
          [BarTrace
             (map (at_pos 0) (rows (value_counts x (map (at_pos 0) srows))))
             (map (at_pos 1) srows) "#db0000"]
          (chart_layout_of title x_axis_title y_axis_title height width)).
Proof.
  intros Hxy Hx Hy Hc.
  unfold plot_bar_chart_univariate_y_col.
  rewrite (select_two data x y ix iy Hx Hy). cbn [bind].
  set (sel := mkFrame [x; y]
                (map (fun r => [at_pos ix r; at_pos iy r]) (rows data))).
  assert (Hp1 : position y sel = Ok 1).
  { unfold position, sel. cbn [labels].
    rewrite index_of_tail by congruence. now rewrite index_of_head. }
  assert (Hp0 : position x sel = Ok 0).
  { unfold position, sel. cbn [labels]. now rewrite index_of_head. }
  rewrite (sort_values_desc_ok y sel 1 Hp1).
  - cbn [bind].
    rewrite (column_at x _ 0) by exact Hp0. cbn [bind].
    rewrite (column_at y _ 1) by exact Hp1. cbn [bind].
    reflexivity.
  - unfold sel. cbn [labels]. rewrite (occurrences_two x y Hxy). lia.
  - unfold sel. cbn [rows]. rewrite map_map.
    erewrite map_ext; [exact Hc|]. reflexivity.
Qed.

Lemma plot_bar_chart_univariate_y_col_mixed (data : Frame)
  (x y title x_axis_title y_axis_title : string) (height width : Z)
  (ix iy : nat) :
  x <> y -> position x data = Ok ix -> position y data = Ok iy ->
  comparable (map (at_pos iy) (rows data)) = false ->
  plot_bar_chart_univariate_y_col data x y title x_axis_title y_axis_title
    height width
  = Raise TypeError.
Proof.
  intros Hxy Hx Hy Hc.
  unfold plot_bar_chart_univariate_y_col.
  rewrite (select_two data x y ix iy Hx Hy). cbn [bind].
  set (sel := mkFrame [x; y]
                (map (fun r => [at_pos ix r; at_pos iy r]) (rows data))).
  assert (Hp1 : position y sel = Ok 1).
  { unfold position, sel. cbn [labels].
    rewrite index_of_tail by congruence. now rewrite index_of_head. }
  rewrite (sort_values_desc_mixed y sel 1 Hp1); [reflexivity| |].
  - unfold sel. cbn [labels]. rewrite (occurrences_two x y Hxy). lia.
  - unfold sel. cbn [rows]. rewrite map_map.
    erewrite map_ext; [exact Hc|]. reflexivity.
Qed.

(** ** [plot_scatter_plot] *)

Lemma combine_map {A B C} (f : A -> B) (g : A -> C) (l : list A) :
  combine (map f l) (map g l) = map (fun a => (f a, g a)) l.
Proof. induction l as [|a l IH]; simpl; [reflexivity | now rewrite IH]. Qed.

Lemma flat_map_map {A B C} (f : A -> list B) (g : B -> C) (l : list A) :
  flat_map (fun a => map g (f a)) l = map g (flat_map f l).
Proof.
  induction l as [|a l IH]; simpl; [reflexivity|].
  now rewrite IH, map_app.
Qed.

Lemma flat_map_of_map {A B C} (f : A -> B) (g : B -> list C) (l : list A) :
  flat_map g (map f l) = flat_map (fun a => g (f a)) l.
Proof. induction l as [|a l IH]; simpl; [reflexivity | now rewrite IH]. Qed.

(** The rows of a group. *)
Lemma group_rows_key (i : nat) (g : cell) (l : list (list cell))
  (r : list cell) :
  In r (filter (fun r => cell_eqb (at_pos i r) g) l) -> at_pos i r = g.
Proof. intros H. apply filter_In in H. now apply cell_eqb_true. Qed.

Lemma add_scatter_trace_ok (data : Frame) (x y c : string) (ix iy ic : nat)
  (g : cell) (traces : list Trace) :
  position x data = Ok ix -> position y data = Ok iy ->
  position c data = Ok ic ->
  add_scatter_trace data x y c g traces
  = let group_rows :=
      filter (fun r => cell_eqb (at_pos ic r) g) (rows data) in
    Ok (traces
        ++ [ScatterTrace (map (at_pos ix) group_rows)
              (map (at_pos iy) group_rows) "markers" (Some g) (Some 10%Z)
              None (Some (map (at_pos ic) group_rows))]).
Proof.
  intros Hx Hy Hc. unfold add_scatter_trace.
  rewrite (where_eq_rows c g data ic Hc). cbn [bind].
  rewrite (column_at x _ ix) by exact Hx. cbn [bind].
  rewrite (column_at y _ iy) by exact Hy. cbn [bind].
  rewrite (column_at c _ ic) by exact Hc. cbn [bind].
  reflexivity.
Qed.

Lemma for_scatter_groups_ok (data : Frame) (x y c : string) (ix iy ic : nat)
  (groups : list cell) (traces : list Trace) :
  position x data = Ok ix -> position y data = Ok iy ->
  position c data = Ok ic ->
  for_scatter_groups data x y c groups traces
  = Ok (traces
        ++ map (fun g =>
                  ScatterTrace
                    (map (at_pos ix)
                       (filter (fun r => cell_eqb (at_pos ic r) g)
                          (rows data)))
                    (map (at_pos iy)
                       (filter (fun r => cell_eqb (at_pos ic r) g)
                          (rows data)))
                    "markers" (Some g) (Some 10%Z) None
                    (Some (map (at_pos ic)
                             (filter (fun r => cell_eqb (at_pos ic r) g)
                                (rows data)))))
            groups).
Proof.
  intros Hx Hy Hc. revert traces.
  induction groups as [|g groups IH]; intros traces; simpl.
  - now rewrite app_nil_r.
  - rewrite (add_scatter_trace_ok data x y c ix iy ic g traces Hx Hy Hc).
    cbv zeta. cbn [bind]. rewrite IH. rewrite <- app_assoc. reflexivity.
Qed.

Lemma add_scatter_trace_missing_x (data : Frame) (x y c : string) (g : cell)
  (traces : list Trace) :
  In c (labels data) -> ~ In x (labels data) ->
  add_scatter_trace data x y c g traces = Raise (KeyError x).
Proof.
  intros Hc Hx. destruct (@PlotterFacts.position_in c data Hc) as [ic Hic].
  unfold add_scatter_trace.
  rewrite (where_eq_rows c g data ic Hic). cbn [bind].
  rewrite column_missing by exact Hx. reflexivity.
Qed.

Lemma unique_cons (a : cell) (l : list cell) :
  unique (a :: l) = a :: unique_from [a] l.
Proof. reflexivity. Qed.

(** ** [plot_bar_chart_multivariate_y_col] *)

Lemma select_three (df : Frame) (x g y : string) (ix ig iy : nat) :
  position x df = Ok ix -> position g df = Ok ig -> position y df = Ok iy ->
  select [x; g; y] df
  = Ok (mkFrame [x; g; y]
          (map (fun r => [at_pos ix r; at_pos ig r; at_pos iy r]) (rows df))).
Proof.
  intros Hx Hg Hy. apply position_ok in Hx. apply position_ok in Hg.
  apply position_ok in Hy.
  unfold select. cbn [positions]. rewrite Hx, Hg, Hy. reflexivity.
Qed.

Lemma NoDup_three (x g y : string) :
  NoDup [x; g; y] -> g <> x /\ y <> x /\ y <> g.
Proof.
  intros H. inversion H as [|? ? H1 H2]. subst.
  inversion H2 as [|? ? H3 _]. subst. simpl in *.
  repeat split; intros E; subst; tauto.
Qed.

Lemma three_positions (sorted : Frame) (x g y : string) :
  labels sorted = [x; g; y] -> NoDup [x; g; y] ->
  position x sorted = Ok 0 /\ position g sorted = Ok 1
  /\ position y sorted = Ok 2.
Proof.
  intros Hl Hn. destruct (NoDup_three x g y Hn) as [Hgx [Hyx Hyg]].
  unfold position. rewrite Hl. repeat split.
  - now rewrite index_of_head.
  - rewrite index_of_tail by assumption. now rewrite index_of_head.
  - rewrite index_of_tail by assumption.
    rewrite index_of_tail by assumption. now rewrite index_of_head.
Qed.

(** The bar trace of the group [grp], drawn in the colour at position [i],
    from rows that hold the x value, the group and the y value. *)
Lemma add_group_trace_ok (sorted : Frame) (x y g : string) (i : nat)
  (grp : cell) (fig : Figure) :
  labels sorted = [x; g; y] -> NoDup [x; g; y] ->
  add_group_trace sorted x y g i grp fig
  = (color <- getitem color_list i ;;
     Ok (mkFigure
           (traces fig
            ++ [mkBar
                  (map (at_pos 0)
                     (filter (fun r => cell_eqb (at_pos 1 r) grp)
                        (rows sorted)))
                  (map (at_pos 2)
                     (filter (fun r => cell_eqb (at_pos 1 r) grp)
                        (rows sorted)))
                  grp color])
           (layout fig))).
Proof.
  intros Hl Hn. destruct (three_positions sorted x g y Hl Hn) as [Hx [Hg Hy]].
  unfold add_group_trace.
  rewrite (where_eq_rows g grp sorted 1 Hg). cbn [bind].
  rewrite (column_at x _ 0) by exact Hx. cbn [bind].
  rewrite (column_at y _ 2) by exact Hy. cbn [bind].
  reflexivity.
Qed.

Lemma getitem_nth (l : list string) (i : nat) (a : string) :
  getitem l i = Ok a -> nth i l "" = a.
Proof.
  unfold getitem. destruct (nth_error l i) as [b|] eqn:E; [|discriminate].
  intros H. inversion H. subst b. now apply nth_error_nth.
Qed.

Lemma for_groups_ok (sorted : Frame) (x y g : string) (l : list cell) :
  labels sorted = [x; g; y] -> NoDup [x; g; y] ->
  forall (start : nat) (fig fig' : Figure),
    for_groups sorted x y g (combine (seq start (length l)) l) fig = Ok fig' ->
    traces fig'
    = traces fig
      ++ map (fun p =>
                mkBar
                  (map (at_pos 0)
                     (filter (fun r => cell_eqb (at_pos 1 r) (snd p))
                        (rows sorted)))
                  (map (at_pos 2)
                     (filter (fun r => cell_eqb (at_pos 1 r) (snd p))
                        (rows sorted)))
                  (snd p) (nth (fst p) color_list ""))
          (combine (seq start (length l)) l)
    /\ layout fig' = layout fig.
Proof.
  intros Hl Hn. induction l as [|a l IH]; intros start fig fig'.
  - simpl. intros H. inversion H. now rewrite app_nil_r.
  - cbn [length seq combine for_groups map].
    rewrite (add_group_trace_ok sorted x y g start a fig Hl Hn).
    destruct (getitem color_list start) as [color|e] eqn:E; cbn [bind];
      [|discriminate].
    intros H. destruct (IH _ _ _ H) as [Ht Hlay].
    cbn [traces layout] in Ht, Hlay. split; [|exact Hlay].
    rewrite Ht, <- app_assoc. cbn [app fst snd].
    now rewrite (getitem_nth _ _ _ E).
Qed.

Lemma map_snd_combine_seq {A} (l : list A) (start : nat) :
  map snd (combine (seq start (length l)) l) = l.
Proof.
  revert start. induction l as [|a l IH]; intros start; simpl;
    [reflexivity|]. now rewrite IH.
Qed.

Lemma map_fst_combine_seq {A} (l : list A) (start : nat) :
  map fst (combine (seq start (length l)) l) = seq start (length l).
Proof.
  revert start. induction l as [|a l IH]; intros start; simpl;
    [reflexivity|]. now rewrite IH.
Qed.

(** What [plot_bar_chart_multivariate_y_col] returns when it returns. *)
Lemma plot_bar_chart_multivariate_ok (data : Frame)
  (x y g title x_axis_title y_axis_title : string) (height width : Z)
  (ix ig iy : nat) (fig : Figure) :
  NoDup [x; g; y] ->
  position x data = Ok ix -> position g data = Ok ig ->
  position y data = Ok iy ->
  plot_bar_chart_multivariate_y_col data x y g title x_axis_title
    y_axis_title height width = Ok fig ->
  comparable (map (at_pos iy) (rows data)) = true
  /\ length (unique (map (at_pos ig) (rows data))) <= 3
  /\ traces fig
     = map (fun p =>
              mkBar
                (map (at_pos 0)
                   (filter (fun r => cell_eqb (at_pos 1 r) (snd p))
                      (sort_na_last 2
                         (map (fun r => [at_pos ix r; at_pos ig r;
                                         at_pos iy r]) (rows data)))))
                (map (at_pos 2)
                   (filter (fun r => cell_eqb (at_pos 1 r) (snd p))
                      (sort_na_last 2
                         (map (fun r => [at_pos ix r; at_pos ig r;
                                         at_pos iy r]) (rows data)))))
                (snd p) (nth (fst p) color_list ""))
         (enumerate (unique (map (at_pos ig) (rows data))))
  /\ layout fig
     = Some (mkLayout ("<b>" ++ title ++ "</b>") (Q2Qc (1 # 2)) "center"
               x_axis_title y_axis_title height width
               "rgba(0,0,0,0)" "rgba(0,0,0,0)" false false (Some "group")).
Proof.
  intros Hn Hx Hg Hy.
  unfold plot_bar_chart_multivariate_y_col.
  rewrite (select_three data x g y ix ig iy Hx Hg Hy). cbn [bind].
  set (selrows := map (fun r => [at_pos ix r; at_pos ig r; at_pos iy r])
                    (rows data)).
  set (sel := mkFrame [x; g; y] selrows).
  destruct (three_positions sel x g y eq_refl Hn) as [_ [_ Hp2]].
  assert (Hkeys : map (at_pos 2) (rows sel) = map (at_pos iy) (rows data)).
  { unfold sel, selrows. cbn [rows]. rewrite map_map. reflexivity. }
  assert (Hocc : occurrences y (labels sel) <= 1).
  { destruct (NoDup_three x g y Hn) as [_ [Hyx Hyg]].
    unfold sel. cbn [labels].
    rewrite (occurrences_three x g y) by congruence. lia. }
  destruct (comparable (map (at_pos iy) (rows data))) eqn:Ec.
  - rewrite (sort_values_desc_ok y sel 2 Hp2 Hocc) by (now rewrite Hkeys).
    cbn [bind labels rows]. unfold sel at 1 2. cbn [labels rows].
    set (sorted := mkFrame [x; g; y] (sort_na_last 2 selrows)).
    rewrite (column_at g data ig Hg). cbn [bind].
    set (groups := unique (map (at_pos ig) (rows data))).
    destruct (for_groups sorted x y g (enumerate groups)
                (mkFigure [] None)) as [fig0|e] eqn:Ef; cbn [bind];
      [|discriminate].
    intros H. inversion H. subst fig. clear H.
    unfold enumerate in Ef.
    destruct (for_groups_ok sorted x y g groups eq_refl Hn 0 _ _ Ef)
      as [Ht _].
    cbn [traces app] in Ht.
    split; [reflexivity|]. split; [|split].
    + destruct (@PlotterFacts.for_groups_colors sorted x y g groups eq_refl
                  0 (mkFigure [] None)) as [_ Herr]; [lia|].
      destruct (Nat.le_gt_cases (length groups) 3) as [Hle|Hgt];
        [exact Hle|].
      rewrite Herr in Ef by (simpl; lia). discriminate Ef.
    + unfold update_layout_barmode. cbn [traces]. exact Ht.
    + reflexivity.
  - rewrite (sort_values_desc_mixed y sel 2 Hp2 Hocc) by (now rewrite Hkeys).
    cbn [bind]. discriminate.
Qed.

Lemma plot_bar_chart_multivariate_mixed (data : Frame)
  (x y g title x_axis_title y_axis_title : string) (height width : Z)
  (ix ig iy : nat) :
  y <> x -> y <> g ->
  position x data = Ok ix -> position g data = Ok ig ->
  position y data = Ok iy ->
  comparable (map (at_pos iy) (rows data)) = false ->
  plot_bar_chart_multivariate_y_col data x y g title x_axis_title
    y_axis_title height width = Raise TypeError.
Proof.
  intros Hyx Hyg Hx Hg Hy Hc.
  unfold plot_bar_chart_multivariate_y_col.
  rewrite (select_three data x g y ix ig iy Hx Hg Hy). cbn [bind].
  set (sel := mkFrame [x; g; y] _).
  assert (Hp2 : position y sel = Ok 2).
  { unfold position, sel. cbn [labels].
    rewrite index_of_tail by assumption.
    rewrite index_of_tail by assumption. now rewrite index_of_head. }
  rewrite (sort_values_desc_mixed y sel 2 Hp2); [reflexivity| |].
  - unfold sel. cbn [labels].
    rewrite (occurrences_three x g y) by congruence. lia.
  - unfold sel. cbn [rows]. rewrite map_map.
    erewrite map_ext; [exact Hc|]. reflexivity.
Qed.

End FrameFacts.

Import Plotter Charts.

Local Open Scope nat_scope.

(** ** [plot_bar_chart_univariate] *)

(** X11.  For a column of the frame other than ['count'],
    [plot_bar_chart_univariate] returns one bar trace of colour [#db0000]:
    its x values are the distinct values of the column, missing values
    left out, each once (all the distinct values of the column when none
    is missing), its y values are the numbers of their occurrences, and
    no bar is followed by a taller one. *)
Theorem plot_bar_chart_univariate_bars (data : Frame)
  (c title x_axis_title y_axis_title : string) (height width : Z)
  (col : list cell) :
  wf_frame data = true ->
  column c data = Ok col -> c <> "count" ->
  exists xs,
    plot_bar_chart_univariate data c title x_axis_title y_axis_title
      height width
    = Ok (mkChart
            [BarTrace xs (map (fun v => Num (qn (count_cell v col))) xs)
               "#db0000"]
            (chart_layout_of title x_axis_title y_axis_title height width))
    /\ Permutation xs (unique (dropna col))
    /\ (forallb notna col = true -> Permutation xs (unique col))
    /\ StronglySorted ge (map (fun v => count_cell v col) xs).
Proof.
  intros _ Hcol Hc.
  destruct (FrameFacts.plot_bar_chart_univariate_ok data c title
              x_axis_title y_axis_title height width col Hcol Hc)
    as [srows [Hplot [Hp Hs]]].
  assert (Hrow : forall r, In r srows ->
            r = [at_pos 0 r; Num (qn (count_cell (at_pos 0 r) col))]).
  { intros r Hr. apply (Permutation_in _ Hp) in Hr.
    apply in_map_iff in Hr. destruct Hr as [v [<- _]]. reflexivity. }
  assert (Hx : Permutation (map (at_pos 0) srows) (unique (dropna col))).
  { apply (Permutation_map (at_pos 0)) in Hp.
    rewrite map_map in Hp. simpl in Hp. rewrite map_id in Hp. exact Hp. }
  exists (map (at_pos 0) srows). split; [|split; [|split]].
  - rewrite Hplot. do 4 f_equal. rewrite map_map.
    apply map_ext_in. intros r Hr. rewrite (Hrow r Hr) at 1. reflexivity.
  - exact Hx.
  - intros Hna. rewrite (FrameFacts.dropna_id col Hna) in Hx. exact Hx.
  - rewrite map_map. apply FrameFacts.StronglySorted_map.
    eapply FrameFacts.StronglySorted_impl_in; [|exact Hs].
    intros a b Ha Hb. unfold not_below.
    rewrite (Hrow a Ha), (Hrow b Hb). cbn [at_pos nth cell_ltb].
    intros H. apply FrameFacts.qn_ltb_false in H. exact H.
Qed.

Lemma plot_bar_chart_univariate_bars_witness :
  (wf_frame ex_titles = true
   /\ column "country" ex_titles
      = Ok [Str "US"; Str "IN"; Str "US"; Str "JP"; Str "US"]
   /\ "country" <> "count")
  /\ exists xs,
       plot_bar_chart_univariate ex_titles "country" "Titles" "Country"
         "Count" 600 800
       = Ok (mkChart
               [BarTrace xs
                  (map (fun v =>
                          Num (qn (count_cell v
                                     [Str "US"; Str "IN"; Str "US"; Str "JP";
                                      Str "US"]))) xs)
                  "#db0000"]
               (chart_layout_of "Titles" "Country" "Count" 600 800))
       /\ Permutation xs
            (unique [Str "US"; Str "IN"; Str "US"; Str "JP"; Str "US"])
       /\ StronglySorted ge
            (map (fun v =>
                    count_cell v
                      [Str "US"; Str "IN"; Str "US"; Str "JP"; Str "US"]) xs).
Proof.
  assert (H1 : column "country" ex_titles
               = Ok [Str "US"; Str "IN"; Str "US"; Str "JP"; Str "US"])
    by reflexivity.
  assert (H2 : "country" <> "count") by discriminate.
  assert (H0 : wf_frame ex_titles = true) by reflexivity.
  split; [repeat split; assumption|].
  destruct (@plot_bar_chart_univariate_bars ex_titles "country" "Titles"
              "Country" "Count" 600 800 _ H0 H1 H2)
    as [xs [Hp [_ [Hu Hs]]]].
  exists xs. split; [exact Hp|]. split; [exact (Hu eq_refl) | exact Hs].
Defined.

(** X12.  The heights of the bars of [plot_bar_chart_univariate] are
    positive whole numbers, as many as there are x values; they add up
    to the number of values of the column that are not missing, which is
    the number of rows of the frame exactly when the column has no
    missing value. *)
Theorem plot_bar_chart_univariate_total (data : Frame)
  (c title x_axis_title y_axis_title : string) (height width : Z)
  (col : list cell) :
  wf_frame data = true ->
  column c data = Ok col -> c <> "count" ->
  exists xs ks,
    plot_bar_chart_univariate data c title x_axis_title y_axis_title
      height width
    = Ok (mkChart [BarTrace xs (map (fun k => Num (qn k)) ks) "#db0000"]
            (chart_layout_of title x_axis_title y_axis_title height width))
    /\ length xs = length ks
    /\ Forall (fun k => 0 < k) ks
    /\ list_sum ks = length (dropna col)
    /\ (list_sum ks = length (rows data) <-> forallb notna col = true).
Proof.
  intros _ Hcol Hc.
  destruct (FrameFacts.plot_bar_chart_univariate_ok data c title
              x_axis_title y_axis_title height width col Hcol Hc)
    as [srows [Hplot [Hp Hs]]].
  assert (Hrow : forall r, In r srows ->
            r = [at_pos 0 r; Num (qn (count_cell (at_pos 0 r) col))]).
  { intros r Hr. apply (Permutation_in _ Hp) in Hr.
    apply in_map_iff in Hr. destruct Hr as [v [<- _]]. reflexivity. }
  assert (Hx : Permutation (map (at_pos 0) srows) (unique (dropna col))).
  { apply (Permutation_map (at_pos 0)) in Hp.
    rewrite map_map in Hp. simpl in Hp. rewrite map_id in Hp. exact Hp. }
  assert (Hsum : list_sum
                   (map (fun v => count_cell v col) (map (at_pos 0) srows))
                 = length (dropna col)).
  { rewrite (Permutation_list_sum
               (Permutation_map (fun v => count_cell v col) Hx)).
    apply FrameFacts.count_cell_total.
    - apply FrameFacts.unique_NoDup.
    - intros x Hin Hna. apply FrameFacts.unique_in.
      apply filter_In. split; assumption. }
  exists (map (at_pos 0) srows),
         (map (fun v => count_cell v col) (map (at_pos 0) srows)).
  split; [|split; [|split; [|split]]].
  - rewrite Hplot. do 4 f_equal. rewrite !map_map.
    apply map_ext_in. intros r Hr. rewrite (Hrow r Hr) at 1. reflexivity.
  - rewrite !length_map. reflexivity.
  - apply Forall_forall. intros k Hk. apply in_map_iff in Hk.
    destruct Hk as [v [<- Hv]].
    apply (Permutation_in _ Hx) in Hv.
    apply (proj1 (FrameFacts.unique_in _ _)) in Hv.
    apply filter_In in Hv. destruct Hv as [Hv Hna].
    now apply FrameFacts.count_cell_pos.
  - exact Hsum.
  - rewrite Hsum.
    destruct (FrameFacts.column_ok c data col Hcol) as [i [_ Hi]].
    assert (Hlen : length (rows data) = length col)
      by (rewrite Hi; now rewrite length_map).
    rewrite Hlen. apply FrameFacts.dropna_length.
Qed.

Lemma plot_bar_chart_univariate_total_witness :
  (wf_frame ex_gaps = true
   /\ column "country" ex_gaps = Ok [Str "US"; NA; Str "US"; Str "JP"]
   /\ "country" <> "count")
  /\ exists xs ks,
       plot_bar_chart_univariate ex_gaps "country" "Titles" "Country"
         "Count" 600 800
       = Ok (mkChart [BarTrace xs (map (fun k => Num (qn k)) ks) "#db0000"]
               (chart_layout_of "Titles" "Country" "Count" 600 800))
       /\ length xs = length ks
       /\ Forall (fun k => 0 < k) ks
       /\ list_sum ks = 3.
Proof.
  assert (H1 : column "country" ex_gaps
               = Ok [Str "US"; NA; Str "US"; Str "JP"]) by reflexivity.
  assert (H2 : "country" <> "count") by discriminate.
  assert (H0 : wf_frame ex_gaps = true) by reflexivity.
  split; [repeat split; assumption|].
  destruct (@plot_bar_chart_univariate_total ex_gaps "country" "Titles"
              "Country" "Count" 600 800 _ H0 H1 H2)
    as [xs [ks [Hp [Hl [Hpos [Hsum _]]]]]].
  exists xs, ks. repeat split; assumption.
Defined.

(** X13.  [plot_bar_chart_univariate] raises [KeyError] for a column the
    frame does not have. *)
Theorem plot_bar_chart_univariate_missing_column (data : Frame)
  (c title x_axis_title y_axis_title : string) (height width : Z) :
  ~ In c (labels data) ->
  plot_bar_chart_univariate data c title x_axis_title y_axis_title
    height width
  = Raise (KeyError c).
Proof.
  intros H. unfold plot_bar_chart_univariate.
  rewrite (FrameFacts.column_missing c data H). reflexivity.
Qed.

Lemma plot_bar_chart_univariate_missing_column_witness :
  ~ In "genre" (labels ex_titles)
  /\ plot_bar_chart_univariate ex_titles "genre" "Titles" "Genre" "Count"
       600 800
     = Raise (KeyError "genre").
Proof.
  assert (H : ~ In "genre" (labels ex_titles)).
  { simpl. intros [H|[H|[H|[]]]]; discriminate H. }
  split; [exact H|].
  exact (@plot_bar_chart_univariate_missing_column ex_titles "genre"
           "Titles" "Genre" "Count" 600 800 H).
Defined.

(** ** [plot_bar_chart_univariate_y_col] *)

(** X14.  [plot_bar_chart_univariate_y_col] draws one bar trace whose x
    values are the distinct values of the x column, missing values left
    out, each once, and whose y values are the y column, one per row:
    there are as many x values as y values exactly when the x column has
    no missing value and no value twice. *)
Theorem plot_bar_chart_univariate_y_col_lengths (data : Frame)
  (x y title x_axis_title y_axis_title : string) (height width : Z)
  (xcol ycol : list cell) :
  wf_frame data = true ->
  x <> y -> column x data = Ok xcol -> column y data = Ok ycol ->
  comparable ycol = true ->
  exists xs ys,
    plot_bar_chart_univariate_y_col data x y title x_axis_title
      y_axis_title height width
    = Ok (mkChart [BarTrace xs ys "#db0000"]
            (chart_layout_of title x_axis_title y_axis_title height width))
    /\ Permutation xs (unique (dropna xcol))
    /\ Permutation ys ycol
    /\ (length xs = length ys
        <-> forallb notna xcol = true /\ NoDup xcol).
Proof.
  intros _ Hxy Hx Hy Hc.
  destruct (FrameFacts.column_ok x data xcol Hx) as [ix [Hpx ->]].
  destruct (FrameFacts.column_ok y data ycol Hy) as [iy [Hpy ->]].
  rewrite (FrameFacts.plot_bar_chart_univariate_y_col_ok data x y title
             x_axis_title y_axis_title height width ix iy Hxy Hpx Hpy Hc).
  cbv zeta.
  set (sel := map (fun r => [at_pos ix r; at_pos iy r]) (rows data)).
  set (srows := sort_na_last 1 sel).
  assert (Hs : Permutation srows sel) by apply FrameFacts.sort_na_last_perm.
  assert (Hxs : Permutation (map (at_pos 0) srows)
                  (map (at_pos ix) (rows data))).
  { apply (Permutation_map (at_pos 0)) in Hs. unfold sel in Hs.
    rewrite map_map in Hs. exact Hs. }
  assert (Hys : Permutation (map (at_pos 1) srows)
                  (map (at_pos iy) (rows data))).
  { apply (Permutation_map (at_pos 1)) in Hs. unfold sel in Hs.
    rewrite map_map in Hs. exact Hs. }
  destruct (FrameFacts.value_counts_rows x (map (at_pos 0) srows))
    as [_ [Hv _]].
  set (xcol := map (at_pos ix) (rows data)) in *.
  assert (Hu : Permutation
                 (map (at_pos 0)
                    (rows (value_counts x (map (at_pos 0) srows))))
                 (unique (dropna xcol))).
  { apply (Permutation_map (at_pos 0)) in Hv.
    rewrite map_map in Hv. simpl in Hv. rewrite map_id in Hv.
    eapply perm_trans; [exact Hv|].
    apply FrameFacts.unique_perm. now apply FrameFacts.filter_perm. }
  eexists. eexists. split; [reflexivity|].
  split; [exact Hu|]. split; [exact Hys|].
  rewrite (Permutation_length Hu), (Permutation_length Hys).
  replace (length (map (at_pos iy) (rows data))) with (length xcol)
    by (unfold xcol; now rewrite !length_map).
  pose proof (FrameFacts.unique_length_le (dropna xcol)) as H1.
  pose proof (filter_length_le notna xcol) as H2. fold (dropna xcol) in H2.
  split.
  - intros H.
    assert (Hd : length (dropna xcol) = length xcol) by lia.
    apply FrameFacts.dropna_length in Hd. split; [exact Hd|].
    apply FrameFacts.unique_length_NoDup.
    rewrite (FrameFacts.dropna_id xcol Hd) in H. exact H.
  - intros [Hd Hn]. rewrite (FrameFacts.dropna_id xcol Hd).
    now apply FrameFacts.unique_length_NoDup.
Qed.

Lemma plot_bar_chart_univariate_y_col_lengths_witness :
  (wf_frame ex_gaps = true
   /\ "country" <> "titles"
   /\ column "country" ex_gaps = Ok [Str "US"; NA; Str "US"; Str "JP"]
   /\ column "titles" ex_gaps
      = Ok [Num (qz 30); Num (qz 50); Num (qz 20); Num (qz 20)]
   /\ comparable [Num (qz 30); Num (qz 50); Num (qz 20); Num (qz 20)]
      = true)
  /\ exists xs ys,
       plot_bar_chart_univariate_y_col ex_gaps "country" "titles"
         "Titles" "Country" "Count" 600 800
       = Ok (mkChart [BarTrace xs ys "#db0000"]
               (chart_layout_of "Titles" "Country" "Count" 600 800))
       /\ Permutation xs [Str "US"; Str "JP"]
       /\ Permutation ys
            [Num (qz 30); Num (qz 50); Num (qz 20); Num (qz 20)].
Proof.
  assert (H1 : "country" <> "titles") by discriminate.
  assert (H2 : column "country" ex_gaps
               = Ok [Str "US"; NA; Str "US"; Str "JP"]) by reflexivity.
  assert (H3 : column "titles" ex_gaps
               = Ok [Num (qz 30); Num (qz 50); Num (qz 20); Num (qz 20)])
    by reflexivity.
  assert (H4 : comparable
                 [Num (qz 30); Num (qz 50); Num (qz 20); Num (qz 20)]
               = true) by reflexivity.
  assert (H0 : wf_frame ex_gaps = true) by reflexivity.
  split; [repeat split; assumption|].
  destruct (@plot_bar_chart_univariate_y_col_lengths ex_gaps "country"
              "titles" "Titles" "Country" "Count" 600 800 _ _ H0 H1 H2 H3
              H4) as [xs [ys [Hp [Hxs [Hys _]]]]].
  exists xs, ys. repeat split; assumption.
Defined.

(** X15.  When the y column holds numbers, the y values of the bar trace
    of [plot_bar_chart_univariate_y_col] are that column in non-increasing
    order. *)
Theorem plot_bar_chart_univariate_y_col_sorted (data : Frame)
  (x y title x_axis_title y_axis_title : string) (height width : Z)
  (ycol : list cell) :
  wf_frame data = true ->
  x <> y -> In x (labels data) -> column y data = Ok ycol ->
  forallb is_num ycol = true ->
  exists xs ys,
    plot_bar_chart_univariate_y_col data x y title x_axis_title
      y_axis_title height width
    = Ok (mkChart [BarTrace xs ys "#db0000"]
            (chart_layout_of title x_axis_title y_axis_title height width))
    /\ Permutation ys ycol
    /\ non_increasing ys.
Proof.
  intros _ Hxy Hx Hy Hn.
  destruct (@PlotterFacts.position_in x data Hx) as [ix Hpx].
  destruct (FrameFacts.column_ok y data ycol Hy) as [iy [Hpy ->]].
  rewrite (FrameFacts.plot_bar_chart_univariate_y_col_ok data x y title
             x_axis_title y_axis_title height width ix iy Hxy Hpx Hpy
             (FrameFacts.is_num_comparable _ Hn)).
  cbv zeta.
  set (sel := map (fun r => [at_pos ix r; at_pos iy r]) (rows data)).
  assert (Hk : num_keys 1 sel).
  { unfold num_keys, sel. apply Forall_forall. intros r Hr.
    apply in_map_iff in Hr. destruct Hr as [r0 [<- Hr0]].
    rewrite forallb_forall in Hn. apply Hn.
    apply in_map_iff. exists r0. split; [reflexivity | assumption]. }
  rewrite (FrameFacts.sort_na_last_num 1 sel Hk).
  eexists. eexists. split; [reflexivity|]. split.
  - pose proof (FrameFacts.sort_rows_desc_perm 1 sel) as Hs.
    apply (Permutation_map (at_pos 1)) in Hs. unfold sel in Hs at 2.
    rewrite map_map in Hs. exact Hs.
  - unfold non_increasing. apply FrameFacts.StronglySorted_map.
    now apply FrameFacts.sort_rows_desc_sorted.
Qed.

Lemma plot_bar_chart_univariate_y_col_sorted_witness :
  (wf_frame ex_titles = true
   /\ "country" <> "titles"
   /\ In "country" (labels ex_titles)
   /\ column "titles" ex_titles
      = Ok [Num (qz 30); Num (qz 50); Num (qz 20); Num (qz 20); Num (qz 10)]
   /\ forallb is_num
        [Num (qz 30); Num (qz 50); Num (qz 20); Num (qz 20); Num (qz 10)]
      = true)
  /\ exists xs ys,
       plot_bar_chart_univariate_y_col ex_titles "country" "titles"
         "Titles" "Country" "Count" 600 800
       = Ok (mkChart [BarTrace xs ys "#db0000"]
               (chart_layout_of "Titles" "Country" "Count" 600 800))
       /\ Permutation ys
            [Num (qz 30); Num (qz 50); Num (qz 20); Num (qz 20);
             Num (qz 10)]
       /\ non_increasing ys.
Proof.
  assert (H1 : "country" <> "titles") by discriminate.
  assert (H2 : In "country" (labels ex_titles)) by (simpl; auto).
  assert (H3 : column "titles" ex_titles
               = Ok [Num (qz 30); Num (qz 50); Num (qz 20); Num (qz 20);
                     Num (qz 10)]) by reflexivity.
  assert (H4 : forallb is_num
                 [Num (qz 30); Num (qz 50); Num (qz 20); Num (qz 20);
                  Num (qz 10)] = true) by reflexivity.
  assert (H0 : wf_frame ex_titles = true) by reflexivity.
  split; [repeat split; assumption|].
  exact (@plot_bar_chart_univariate_y_col_sorted ex_titles "country"
           "titles" "Titles" "Country" "Count" 600 800 _ H0 H1 H2 H3 H4).
Defined.

(** X16.  On a frame with distinct labels
    [plot_bar_chart_univariate_y_col] raises [KeyError] when one of the
    two columns is not in the frame: the exception names the list of both
    labels when neither is a column, and the list of the missing label
    when the other one is a column.  With both columns in the frame it
    raises [ValueError] when the two labels are the same, and [TypeError]
    when they differ and the y column mixes numbers and strings. *)
Theorem plot_bar_chart_univariate_y_col_errors (data : Frame)
  (x y title x_axis_title y_axis_title : string) (height width : Z) :
  wf_frame data = true ->
  (~ In x (labels data) -> ~ In y (labels data) ->
   plot_bar_chart_univariate_y_col data x y title x_axis_title
     y_axis_title height width
   = Raise (KeyErrorNoneInColumns [x; y]))
  /\ (~ In x (labels data) -> In y (labels data) ->
      plot_bar_chart_univariate_y_col data x y title x_axis_title
        y_axis_title height width
      = Raise (KeyErrorNotInIndex [x]))
  /\ (In x (labels data) -> ~ In y (labels data) ->
      plot_bar_chart_univariate_y_col data x y title x_axis_title
        y_axis_title height width
      = Raise (KeyErrorNotInIndex [y]))
  /\ (In x (labels data) -> x = y ->
      plot_bar_chart_univariate_y_col data x y title x_axis_title
        y_axis_title height width
      = Raise ValueError)
  /\ (forall ycol,
        x <> y -> In x (labels data) -> column y data = Ok ycol ->
        comparable ycol = false ->
        plot_bar_chart_univariate_y_col data x y title x_axis_title
          y_axis_title height width
        = Raise TypeError).
Proof.
  intros _. split; [|split; [|split; [|split]]].
  - intros Hx Hy. unfold plot_bar_chart_univariate_y_col.
    rewrite (FrameFacts.select_none_in_columns [x; y] data);
      [reflexivity | discriminate |].
    intros c [<-|[<-|[]]]; assumption.
  - intros Hx Hy. unfold plot_bar_chart_univariate_y_col, select.
    rewrite (FrameFacts.positions_none [x; y] data x
               (or_introl eq_refl) Hx).
    cbv zeta. unfold missing_labels. cbn [filter].
    apply FrameFacts.existsb_label in Hy. rewrite Hy.
    destruct (existsb (String.eqb x) (labels data)) eqn:E;
      [apply FrameFacts.existsb_label in E; contradiction|].
    reflexivity.
  - intros Hx Hy. unfold plot_bar_chart_univariate_y_col, select.
    rewrite (FrameFacts.positions_none [x; y] data y
               (or_intror (or_introl eq_refl)) Hy).
    cbv zeta. unfold missing_labels. cbn [filter].
    apply FrameFacts.existsb_label in Hx. rewrite Hx.
    destruct (existsb (String.eqb y) (labels data)) eqn:E;
      [apply FrameFacts.existsb_label in E; contradiction|].
    reflexivity.
  - intros Hx <-.
    destruct (@PlotterFacts.position_in x data Hx) as [ix Hpx].
    unfold plot_bar_chart_univariate_y_col.
    rewrite (FrameFacts.select_two data x x ix ix Hpx Hpx). cbn [bind].
    rewrite (FrameFacts.sort_values_desc_twice x _ 0); [reflexivity | |].
    + unfold position. cbn [labels].
      now rewrite FrameFacts.index_of_head.
    + unfold occurrences. cbn [labels filter].
      rewrite String.eqb_refl. simpl. lia.
  - intros ycol Hxy Hx Hy Hc.
    destruct (@PlotterFacts.position_in x data Hx) as [ix Hpx].
    destruct (FrameFacts.column_ok y data ycol Hy) as [iy [Hpy ->]].
    exact (FrameFacts.plot_bar_chart_univariate_y_col_mixed data x y title
             x_axis_title y_axis_title height width ix iy Hxy Hpx Hpy Hc).
Qed.

Lemma plot_bar_chart_univariate_y_col_errors_witness :
  wf_frame ex_titles = true
  /\ (In "country" (labels ex_titles) /\ ~ In "genre" (labels ex_titles))
  /\ plot_bar_chart_univariate_y_col ex_titles "country" "genre" "Titles"
       "Country" "Count" 600 800
     = Raise (KeyErrorNotInIndex ["genre"])
  /\ plot_bar_chart_univariate_y_col ex_titles "titles" "titles" "Titles"
       "Country" "Count" 600 800
     = Raise ValueError
  /\ plot_bar_chart_univariate_y_col ex_mixed "country" "titles" "Titles"
       "Country" "Count" 600 800
     = Raise TypeError.
Proof.
  assert (H0 : wf_frame ex_titles = true) by reflexivity.
  assert (H1 : In "country" (labels ex_titles)) by (simpl; auto).
  assert (H2 : ~ In "genre" (labels ex_titles)).
  { simpl. intros [H|[H|[H|[]]]]; discriminate H. }
  split; [exact H0|]. split; [split; assumption|].
  split; [|split].
  - exact (proj1 (proj2 (proj2
             (@plot_bar_chart_univariate_y_col_errors ex_titles "country"
                "genre" "Titles" "Country" "Count" 600 800 H0))) H1 H2).
  - apply (proj1 (proj2 (proj2 (proj2
             (@plot_bar_chart_univariate_y_col_errors ex_titles "titles"
                "titles" "Titles" "Country" "Count" 600 800 H0))))).
    + simpl. auto.
    + reflexivity.
  - apply (proj2 (proj2 (proj2 (proj2
             (@plot_bar_chart_univariate_y_col_errors ex_mixed "country"
                "titles" "Titles" "Country" "Count" 600 800 eq_refl))))
             [Num (qz 30); Str "many"]).
    + discriminate.
    + simpl. auto.
    + reflexivity.
    + reflexivity.
Defined.

(** ** [plot_scatter_plot] *)

(** X17.  With a colour column, [plot_scatter_plot] returns, for any
    number of groups, one trace per distinct value of that column, named
    after it, in order of first appearance, a missing value being one of
    them; every row of the frame that has a value in the colour column is
    one point of the trace of its group, and the rows without one are not
    drawn; the axes are titled with the column names. *)
Theorem plot_scatter_plot_groups (data : Frame) (x y title : string)
  (color_column : option string) (height width : Z) (c : string)
  (ix iy ic : nat) :
  wf_frame data = true ->
  truthy color_column = Some c ->
  position x data = Ok ix -> position y data = Ok iy ->
  position c data = Ok ic ->
  exists traces,
    plot_scatter_plot data x y title color_column height width
    = Ok (mkChart traces (chart_layout_of title x y height width))
    /\ map trace_name traces
       = map Some (unique (map (at_pos ic) (rows data)))
    /\ Permutation (flat_map named_points traces)
         (map (fun r => (at_pos ix r, at_pos iy r, Some (at_pos ic r)))
            (with_value ic (rows data))).
Proof.
  intros _ Ht Hx Hy Hc.
  unfold plot_scatter_plot. rewrite Ht.
  rewrite (FrameFacts.column_at c data ic Hc). cbn [bind].
  rewrite (FrameFacts.for_scatter_groups_ok data x y c ix iy ic _ []
             Hx Hy Hc).
  cbn [bind app].
  eexists. split; [reflexivity|]. split.
  - rewrite map_map. reflexivity.
  - rewrite FrameFacts.flat_map_of_map.
    unfold named_points. cbn [trace_points trace_name].
    erewrite FrameFacts.flat_map_ext_In.
    2:{ intros g _. rewrite FrameFacts.combine_map, map_map.
        apply map_ext_in. intros r Hr.
        rewrite <- (FrameFacts.group_rows_key ic g _ r Hr) at 1.
        reflexivity. }
    cbv beta.
    rewrite (FrameFacts.flat_map_map
               (fun g => filter (fun r => cell_eqb (at_pos ic r) g)
                           (rows data))
               (fun r => (at_pos ix r, at_pos iy r, Some (at_pos ic r)))).
    apply Permutation_map.
    apply (FrameFacts.groups_partition (at_pos ic)).
    + apply FrameFacts.unique_NoDup.
    + intros r Hr _. apply FrameFacts.unique_in. now apply in_map.
Qed.

Lemma plot_scatter_plot_groups_witness :
  (wf_frame ex_gaps = true
   /\ truthy (Some "kind") = Some "kind"
   /\ position "titles" ex_gaps = Ok 2
   /\ position "country" ex_gaps = Ok 0
   /\ position "kind" ex_gaps = Ok 1)
  /\ exists traces,
       plot_scatter_plot ex_gaps "titles" "country" "Titles"
         (Some "kind") 600 800
       = Ok (mkChart traces
               (chart_layout_of "Titles" "titles" "country" 600 800))
       /\ map trace_name traces
          = [Some (Str "Movie"); Some NA; Some (Str "Show")]
       /\ Permutation (flat_map named_points traces)
            [(Num (qz 30), Str "US", Some (Str "Movie"));
             (Num (qz 50), NA, Some (Str "Movie"));
             (Num (qz 20), Str "JP", Some (Str "Show"))].
Proof.
  assert (H1 : truthy (Some "kind") = Some "kind") by reflexivity.
  assert (H2 : position "titles" ex_gaps = Ok 2) by reflexivity.
  assert (H3 : position "country" ex_gaps = Ok 0) by reflexivity.
  assert (H4 : position "kind" ex_gaps = Ok 1) by reflexivity.
  assert (H0 : wf_frame ex_gaps = true) by reflexivity.
  split; [repeat split; assumption|].
  exact (@plot_scatter_plot_groups ex_gaps "titles" "country" "Titles"
           (Some "kind") 600 800 "kind" 2 0 1 H0 H1 H2 H3 H4).
Defined.

(** X18.  With a colour column the x and y columns are read only inside
    the loop over the groups: when the x column is missing, the call
    raises [KeyError] if the frame has a row, and returns a chart without
    traces if it has none. *)
Theorem plot_scatter_plot_missing_x_column (data : Frame)
  (x y title : string) (color_column : option string) (height width : Z)
  (c : string) :
  wf_frame data = true ->
  truthy color_column = Some c -> In c (labels data) ->
  ~ In x (labels data) ->
  (rows data <> [] ->
   plot_scatter_plot data x y title color_column height width
   = Raise (KeyError x))
  /\ (rows data = [] ->
      plot_scatter_plot data x y title color_column height width
      = Ok (mkChart [] (chart_layout_of title x y height width))).
Proof.
  intros _ Ht Hc Hx.
  destruct (FrameFacts.column_in c data Hc) as [ic [Hic Hcol]].
  unfold plot_scatter_plot. rewrite Ht, Hcol. cbn [bind].
  split; intros Hr.
  - destruct (rows data) as [|r l]; [contradiction|].
    cbn [map]. rewrite FrameFacts.unique_cons. cbn [for_scatter_groups].
    rewrite (FrameFacts.add_scatter_trace_missing_x data x y c _ [] Hc Hx).
    reflexivity.
  - rewrite Hr. reflexivity.
Qed.

Lemma plot_scatter_plot_missing_x_column_witness :
  (wf_frame ex_titles = true
   /\ truthy (Some "kind") = Some "kind"
   /\ In "kind" (labels ex_titles)
   /\ ~ In "year" (labels ex_titles))
  /\ plot_scatter_plot ex_titles "year" "titles" "Titles" (Some "kind")
       600 800
     = Raise (KeyError "year").
Proof.
  assert (H1 : truthy (Some "kind") = Some "kind") by reflexivity.
  assert (H2 : In "kind" (labels ex_titles)) by (simpl; auto).
  assert (H3 : ~ In "year" (labels ex_titles)).
  { simpl. intros [H|[H|[H|[]]]]; discriminate H. }
  assert (H0 : wf_frame ex_titles = true) by reflexivity.
  split; [repeat split; assumption|].
  apply (@plot_scatter_plot_missing_x_column ex_titles "year" "titles"
           "Titles" (Some "kind") 600 800 "kind" H0 H1 H2 H3).
  discriminate.
Defined.

(** X19.  Without a colour column, be it [None] or the empty string,
    [plot_scatter_plot] draws a single unnamed trace of colour [#db0000]
    with the x and y columns in the order of the rows, and raises
    [KeyError] for the first of the two columns that is missing. *)
Theorem plot_scatter_plot_single_trace (data : Frame) (x y title : string)
  (color_column : option string) (height width : Z) :
  wf_frame data = true ->
  color_column = None \/ color_column = Some "" ->
  (forall xcol ycol,
     column x data = Ok xcol -> column y data = Ok ycol ->
     plot_scatter_plot data x y title color_column height width
     = Ok (mkChart
             [ScatterTrace xcol ycol "markers" None None (Some "#db0000")
                None]
             (chart_layout_of title x y height width)))
  /\ (~ In x (labels data) ->
      plot_scatter_plot data x y title color_column height width
      = Raise (KeyError x))
  /\ (In x (labels data) -> ~ In y (labels data) ->
      plot_scatter_plot data x y title color_column height width
      = Raise (KeyError y)).
Proof.
  intros _ Hc.
  assert (Ht : truthy color_column = None)
    by (destruct Hc as [-> | ->]; reflexivity).
  unfold plot_scatter_plot. rewrite Ht. split; [|split].
  - intros xcol ycol Hx Hy. rewrite Hx, Hy. reflexivity.
  - intros Hx. rewrite (FrameFacts.column_missing x data Hx). reflexivity.
  - intros Hx Hy. destruct (FrameFacts.column_in x data Hx) as [i [_ ->]].
    cbn [bind]. rewrite (FrameFacts.column_missing y data Hy). reflexivity.
Qed.

Lemma plot_scatter_plot_single_trace_witness :
  (wf_frame ex_titles = true /\ (Some "" = None \/ Some "" = Some ""))
  /\ plot_scatter_plot ex_titles "titles" "titles" "Titles" (Some "")
       600 800
     = Ok (mkChart
             [ScatterTrace
                [Num (qz 30); Num (qz 50); Num (qz 20); Num (qz 20);
                 Num (qz 10)]
                [Num (qz 30); Num (qz 50); Num (qz 20); Num (qz 20);
                 Num (qz 10)]
                "markers" None None (Some "#db0000") None]
             (chart_layout_of "Titles" "titles" "titles" 600 800)).
Proof.
  assert (H : Some "" = None \/ Some "" = Some "") by (right; reflexivity).
  assert (H0 : wf_frame ex_titles = true) by reflexivity.
  split; [split; assumption|].
  apply (@plot_scatter_plot_single_trace ex_titles "titles" "titles"
           "Titles" (Some "") 600 800 H0 H); reflexivity.
Defined.

(** ** [plot_bar_chart_multivariate_y_col] *)

(** X20.  On a frame with distinct labels
    [plot_bar_chart_multivariate_y_col] raises [KeyError] when one of the
    three columns is not in the frame: the exception names the list of
    the three labels when none is a column, and otherwise the list of the
    missing labels, each once.  With the three columns in the frame it
    raises [ValueError] when the y column is also the x column or the
    group column, and [TypeError] when it is neither and mixes numbers and
    strings. *)
Theorem plot_bar_chart_multivariate_errors (data : Frame)
  (x y g title x_axis_title y_axis_title : string) (height width : Z) :
  wf_frame data = true ->
  (~ In x (labels data) -> ~ In g (labels data) -> ~ In y (labels data) ->
   plot_bar_chart_multivariate_y_col data x y g title x_axis_title
     y_axis_title height width
   = Raise (KeyErrorNoneInColumns [x; g; y]))
  /\ (forall a b,
        In a [x; g; y] -> In a (labels data) ->
        In b [x; g; y] -> ~ In b (labels data) ->
        exists missing,
          plot_bar_chart_multivariate_y_col data x y g title x_axis_title
            y_axis_title height width
          = Raise (KeyErrorNotInIndex missing)
          /\ NoDup missing
          /\ (forall c, In c missing
                        <-> In c [x; g; y] /\ ~ In c (labels data)))
  /\ (In x (labels data) -> In g (labels data) -> In y (labels data) ->
      y = x \/ y = g ->
      plot_bar_chart_multivariate_y_col data x y g title x_axis_title
        y_axis_title height width
      = Raise ValueError)
  /\ (forall ycol,
        y <> x -> y <> g ->
        In x (labels data) -> In g (labels data) ->
        column y data = Ok ycol -> comparable ycol = false ->
        plot_bar_chart_multivariate_y_col data x y g title x_axis_title
          y_axis_title height width
        = Raise TypeError).
Proof.
  intros _. split; [|split; [|split]].
  - intros Hx Hg Hy. unfold plot_bar_chart_multivariate_y_col.
    rewrite (FrameFacts.select_none_in_columns [x; g; y] data);
      [reflexivity | discriminate |].
    intros c [<-|[<-|[<-|[]]]]; assumption.
  - intros a b Ha Ha' Hb Hb'.
    destruct (FrameFacts.select_not_in_index [x; g; y] data a b
                Ha Ha' Hb Hb') as [m [Hs [Hn Hm]]].
    exists m. unfold plot_bar_chart_multivariate_y_col. rewrite Hs.
    cbn [bind]. auto.
  - intros Hx Hg Hy Heq.
    destruct (@PlotterFacts.position_in x data Hx) as [ix Hpx].
    destruct (@PlotterFacts.position_in g data Hg) as [ig Hpg].
    destruct (@PlotterFacts.position_in y data Hy) as [iy Hpy].
    unfold plot_bar_chart_multivariate_y_col.
    rewrite (FrameFacts.select_three data x g y ix ig iy Hpx Hpg Hpy).
    cbn [bind].
    set (sel := mkFrame [x; g; y] _).
    assert (Hin : In y (labels sel)) by (simpl; auto).
    destruct (@PlotterFacts.position_in y sel Hin) as [k Hk].
    rewrite (FrameFacts.sort_values_desc_twice y sel k Hk); [reflexivity|].
    unfold occurrences, sel. cbn [labels filter].
    rewrite String.eqb_refl.
    destruct Heq as [E|E]; rewrite <- E; rewrite String.eqb_refl;
      destruct (String.eqb y g); destruct (String.eqb y x); simpl; lia.
  - intros ycol Hyx Hyg Hx Hg Hy Hc.
    destruct (@PlotterFacts.position_in x data Hx) as [ix Hpx].
    destruct (@PlotterFacts.position_in g data Hg) as [ig Hpg].
    destruct (FrameFacts.column_ok y data ycol Hy) as [iy [Hpy ->]].
    exact (FrameFacts.plot_bar_chart_multivariate_mixed data x y g title
             x_axis_title y_axis_title height width ix ig iy Hyx Hyg
             Hpx Hpg Hpy Hc).
Qed.

Lemma plot_bar_chart_multivariate_errors_witness :
  wf_frame ex_titles = true
  /\ (In "country" ["country"; "genre"; "titles"]
      /\ In "country" (labels ex_titles)
      /\ In "genre" ["country"; "genre"; "titles"]
      /\ ~ In "genre" (labels ex_titles))
  /\ (exists missing,
        plot_bar_chart_multivariate_y_col ex_titles "country" "titles"
          "genre" "Titles" "Country" "Count" 600 800
        = Raise (KeyErrorNotInIndex missing)
        /\ NoDup missing
        /\ (forall c, In c missing
                      <-> In c ["country"; "genre"; "titles"]
                          /\ ~ In c (labels ex_titles)))
  /\ plot_bar_chart_multivariate_y_col ex_titles "country" "titles"
       "genre" "Titles" "Country" "Count" 600 800
     = Raise (KeyErrorNotInIndex ["genre"])
  /\ plot_bar_chart_multivariate_y_col ex_titles "titles" "titles" "kind"
       "Titles" "Country" "Count" 600 800
     = Raise ValueError
  /\ plot_bar_chart_multivariate_y_col ex_mixed "country" "titles" "kind"
       "Titles" "Country" "Count" 600 800
     = Raise TypeError.
Proof.
  assert (H0 : wf_frame ex_titles = true) by reflexivity.
  assert (H1 : In "country" ["country"; "genre"; "titles"]) by (simpl; auto).
  assert (H2 : In "country" (labels ex_titles)) by (simpl; auto).
  assert (H3 : In "genre" ["country"; "genre"; "titles"]) by (simpl; auto).
  assert (H4 : ~ In "genre" (labels ex_titles)).
  { simpl. intros [H|[H|[H|[]]]]; discriminate H. }
  split; [exact H0|]. split; [repeat split; assumption|].
  split; [|split; [|split]].
  - exact (proj1 (proj2
             (@plot_bar_chart_multivariate_errors ex_titles "country"
                "titles" "genre" "Titles" "Country" "Count" 600 800 H0))
             "country" "genre" H1 H2 H3 H4).
  - reflexivity.
  - apply (proj1 (proj2 (proj2
             (@plot_bar_chart_multivariate_errors ex_titles "titles"
                "titles" "kind" "Titles" "Country" "Count" 600 800 H0)))).
    + simpl. auto.
    + simpl. auto.
    + simpl. auto.
    + left. reflexivity.
  - apply (proj2 (proj2 (proj2
             (@plot_bar_chart_multivariate_errors ex_mixed "country"
                "titles" "kind" "Titles" "Country" "Count" 600 800
                eq_refl)))
             [Num (qz 30); Str "many"]).
    + discriminate.
    + discriminate.
    + simpl. auto.
    + simpl. auto.
    + reflexivity.
    + reflexivity.
Defined.

(** X21.  When [plot_bar_chart_multivariate_y_col] returns a figure for
    three different columns, the figure has one trace per distinct value of
    the group column, named after it, in order of first appearance; the
    colours are the first entries of the colour list; there are at most
    three traces; and the bars are grouped under the title in bold. *)
Theorem plot_bar_chart_multivariate_traces (data : Frame)
  (x y g title x_axis_title y_axis_title : string) (height width : Z)
  (groups : list cell) (fig : Figure) :
  wf_frame data = true ->
  NoDup [x; g; y] ->
  column g data = Ok groups ->
  plot_bar_chart_multivariate_y_col data x y g title x_axis_title
    y_axis_title height width = Ok fig ->
  map bar_name (traces fig) = unique groups
  /\ map marker_color (traces fig)
     = firstn (length (unique groups)) color_list
  /\ length (traces fig) <= 3
  /\ layout fig
     = Some (mkLayout ("<b>" ++ title ++ "</b>") (Q2Qc (1 # 2)) "center"
               x_axis_title y_axis_title height width
               "rgba(0,0,0,0)" "rgba(0,0,0,0)" false false (Some "group")).
Proof.
  intros _ Hn Hg Hplot.
  destruct (FrameFacts.column_ok g data groups Hg) as [ig [Hpg ->]].
  assert (Hx : In x (labels data) /\ In y (labels data)).
  { destruct (FrameFacts.string_in_dec x (labels data)) as [Hx|Hx];
      destruct (FrameFacts.string_in_dec y (labels data)) as [Hy|Hy];
      try (split; assumption); exfalso.
    - destruct (FrameFacts.select_missing [x; g; y] data y) as [c [Hs _]];
        [simpl; auto | exact Hy |].
      unfold plot_bar_chart_multivariate_y_col in Hplot.
      rewrite Hs in Hplot. discriminate Hplot.
    - destruct (FrameFacts.select_missing [x; g; y] data x) as [c [Hs _]];
        [simpl; auto | exact Hx |].
      unfold plot_bar_chart_multivariate_y_col in Hplot.
      rewrite Hs in Hplot. discriminate Hplot.
    - destruct (FrameFacts.select_missing [x; g; y] data x) as [c [Hs _]];
        [simpl; auto | exact Hx |].
      unfold plot_bar_chart_multivariate_y_col in Hplot.
      rewrite Hs in Hplot. discriminate Hplot. }
  destruct Hx as [Hx Hy].
  destruct (@PlotterFacts.position_in x data Hx) as [ix Hpx].
  destruct (@PlotterFacts.position_in y data Hy) as [iy Hpy].
  destruct (FrameFacts.plot_bar_chart_multivariate_ok data x y g title
              x_axis_title y_axis_title height width ix ig iy fig Hn
              Hpx Hpg Hpy Hplot) as [_ [Hle [Ht Hlay]]].
  set (gs := unique (map (at_pos ig) (rows data))) in *.
  unfold enumerate in Ht.
  split; [|split; [|split]].
  - rewrite Ht, map_map. cbn [bar_name].
    apply FrameFacts.map_snd_combine_seq.
  - rewrite Ht, map_map. cbn [marker_color].
    rewrite <- (map_map fst (fun i => nth i color_list "")).
    rewrite FrameFacts.map_fst_combine_seq.
    destruct (length gs) as [|[|[|[|n]]]]; try reflexivity. lia.
  - rewrite Ht, length_map, length_combine, length_seq. lia.
  - exact Hlay.
Qed.

Lemma plot_bar_chart_multivariate_traces_witness :
  exists fig,
    (wf_frame ex_titles = true
     /\ NoDup ["country"; "kind"; "titles"]
     /\ column "kind" ex_titles
        = Ok [Str "Movie"; Str "Movie"; Str "Show"; Str "Show"; Str "Movie"]
     /\ plot_bar_chart_multivariate_y_col ex_titles "country" "titles"
          "kind" "Titles" "Country" "Count" 600 800 = Ok fig)
    /\ map bar_name (traces fig) = [Str "Movie"; Str "Show"]
    /\ map marker_color (traces fig) = ["#831010"; "#564d4d"].
Proof.
  destruct (plot_bar_chart_multivariate_y_col ex_titles "country" "titles"
              "kind" "Titles" "Country" "Count" 600 800) as [fig|e] eqn:E;
    [|vm_compute in E; discriminate E].
  exists fig.
  assert (H1 : NoDup ["country"; "kind"; "titles"]).
  { repeat constructor; simpl; intuition discriminate. }
  assert (H2 : column "kind" ex_titles
               = Ok [Str "Movie"; Str "Movie"; Str "Show"; Str "Show";
                     Str "Movie"]) by reflexivity.
  assert (H0 : wf_frame ex_titles = true) by reflexivity.
  split; [repeat split; assumption|].
  destruct (@plot_bar_chart_multivariate_traces ex_titles "country" "titles"
              "kind" "Titles" "Country" "Count" 600 800 _ fig H0 H1 H2 E)
    as [Hn [Hc _]].
  split; [exact Hn | exact Hc].
Defined.

(** X22.  When [plot_bar_chart_multivariate_y_col] returns a figure for
    three different columns, every row of the frame that has a value in
    the group column is one bar of the figure, in the trace named after
    the row's group, and the rows without one are not drawn: the bars of
    all traces, each with the name of its trace, are the x value, y value
    and group of the rows that have a group, in some order. *)
Theorem plot_bar_chart_multivariate_every_row (data : Frame)
  (x y g title x_axis_title y_axis_title : string) (height width : Z)
  (ix ig iy : nat) (fig : Figure) :
  wf_frame data = true ->
  NoDup [x; g; y] ->
  position x data = Ok ix -> position g data = Ok ig ->
  position y data = Ok iy ->
  plot_bar_chart_multivariate_y_col data x y g title x_axis_title
    y_axis_title height width = Ok fig ->
  Permutation (flat_map bar_points (traces fig))
    (map (fun r => (at_pos ix r, at_pos iy r, at_pos ig r))
       (with_value ig (rows data))).
Proof.
  intros _ Hn Hpx Hpg Hpy Hplot.
  destruct (FrameFacts.plot_bar_chart_multivariate_ok data x y g title
              x_axis_title y_axis_title height width ix ig iy fig Hn
              Hpx Hpg Hpy Hplot) as [_ [_ [Ht _]]].
  set (selrows := map (fun r => [at_pos ix r; at_pos ig r; at_pos iy r])
                    (rows data)) in *.
  set (srows := sort_na_last 2 selrows) in *.
  set (gs := unique (map (at_pos ig) (rows data))) in *.
  assert (Hs : Permutation srows selrows)
    by apply FrameFacts.sort_na_last_perm.
  rewrite Ht. rewrite FrameFacts.flat_map_of_map.
  unfold bar_points. cbn [bar_x bar_y bar_name].
  erewrite FrameFacts.flat_map_ext_In.
  2:{ intros p _. rewrite FrameFacts.combine_map, map_map.
      apply map_ext_in. intros r Hr.
      rewrite <- (FrameFacts.group_rows_key 1 (snd p) _ r Hr) at 1.
      reflexivity. }
  cbv beta.
  rewrite <- (FrameFacts.flat_map_of_map snd
                (fun grp =>
                   map (fun r => (at_pos 0 r, at_pos 2 r, at_pos 1 r))
                     (filter (fun r => cell_eqb (at_pos 1 r) grp) srows))).
  unfold enumerate. rewrite FrameFacts.map_snd_combine_seq.
  rewrite (FrameFacts.flat_map_map
             (fun grp => filter (fun r => cell_eqb (at_pos 1 r) grp) srows)
             (fun r => (at_pos 0 r, at_pos 2 r, at_pos 1 r))).
  eapply perm_trans.
  - apply Permutation_map.
    apply (FrameFacts.groups_partition (at_pos 1)).
    + apply FrameFacts.unique_NoDup.
    + intros r Hr _. apply (Permutation_in _ Hs) in Hr.
      unfold selrows in Hr. apply in_map_iff in Hr.
      destruct Hr as [r0 [<- Hr0]]. cbn [at_pos nth].
      apply FrameFacts.unique_in. now apply in_map.
  - eapply perm_trans;
      [apply Permutation_map; apply FrameFacts.filter_perm; exact Hs|].
    unfold selrows, with_value. rewrite filter_map_swap, map_map.
    apply Permutation_refl.
Qed.

Lemma plot_bar_chart_multivariate_every_row_witness :
  exists fig,
    (wf_frame ex_gaps = true
     /\ NoDup ["country"; "kind"; "titles"]
     /\ position "country" ex_gaps = Ok 0
     /\ position "kind" ex_gaps = Ok 1
     /\ position "titles" ex_gaps = Ok 2
     /\ plot_bar_chart_multivariate_y_col ex_gaps "country" "titles"
          "kind" "Titles" "Country" "Count" 600 800 = Ok fig)
    /\ Permutation (flat_map bar_points (traces fig))
         [(Str "US", Num (qz 30), Str "Movie");
          (NA, Num (qz 50), Str "Movie");
          (Str "JP", Num (qz 20), Str "Show")].
Proof.
  destruct (plot_bar_chart_multivariate_y_col ex_gaps "country" "titles"
              "kind" "Titles" "Country" "Count" 600 800) as [fig|e] eqn:E;
    [|vm_compute in E; discriminate E].
  exists fig.
  assert (H1 : NoDup ["country"; "kind"; "titles"]).
  { repeat constructor; simpl; intuition discriminate. }
  assert (H2 : position "country" ex_gaps = Ok 0) by reflexivity.
  assert (H3 : position "kind" ex_gaps = Ok 1) by reflexivity.
  assert (H4 : position "titles" ex_gaps = Ok 2) by reflexivity.
  assert (H0 : wf_frame ex_gaps = true) by reflexivity.
  split; [repeat split; assumption|].
  exact (@plot_bar_chart_multivariate_every_row ex_gaps "country" "titles"
           "kind" "Titles" "Country" "Count" 600 800 0 1 2 fig H0 H1 H2 H3
           H4 E).
Defined.

(** X23.  When the y column holds numbers, the bars of every trace of
    [plot_bar_chart_multivariate_y_col] come in non-increasing order of
    height, and every trace has as many x values as y values. *)
Theorem plot_bar_chart_multivariate_sorted (data : Frame)
  (x y g title x_axis_title y_axis_title : string) (height width : Z)
  (ycol : list cell) (fig : Figure) :
  wf_frame data = true ->
  NoDup [x; g; y] ->
  column y data = Ok ycol -> forallb is_num ycol = true ->
  plot_bar_chart_multivariate_y_col data x y g title x_axis_title
    y_axis_title height width = Ok fig ->
  Forall (fun b => non_increasing (bar_y b)
                   /\ length (bar_x b) = length (bar_y b)) (traces fig).
Proof.
  intros _ Hn Hy Hnum Hplot.
  destruct (FrameFacts.column_ok y data ycol Hy) as [iy [Hpy ->]].
  assert (Hxg : In x (labels data) /\ In g (labels data)).
  { destruct (FrameFacts.string_in_dec x (labels data)) as [Hx|Hx];
      destruct (FrameFacts.string_in_dec g (labels data)) as [Hg|Hg];
      try (split; assumption); exfalso.
    - destruct (FrameFacts.select_missing [x; g; y] data g) as [c [Hs _]];
        [simpl; auto | exact Hg |].
      unfold plot_bar_chart_multivariate_y_col in Hplot.
      rewrite Hs in Hplot. discriminate Hplot.
    - destruct (FrameFacts.select_missing [x; g; y] data x) as [c [Hs _]];
        [simpl; auto | exact Hx |].
      unfold plot_bar_chart_multivariate_y_col in Hplot.
      rewrite Hs in Hplot. discriminate Hplot.
    - destruct (FrameFacts.select_missing [x; g; y] data x) as [c [Hs _]];
        [simpl; auto | exact Hx |].
      unfold plot_bar_chart_multivariate_y_col in Hplot.
      rewrite Hs in Hplot. discriminate Hplot. }
  destruct Hxg as [Hx Hg].
  destruct (@PlotterFacts.position_in x data Hx) as [ix Hpx].
  destruct (@PlotterFacts.position_in g data Hg) as [ig Hpg].
  destruct (FrameFacts.plot_bar_chart_multivariate_ok data x y g title
              x_axis_title y_axis_title height width ix ig iy fig Hn
              Hpx Hpg Hpy Hplot) as [_ [_ [Ht _]]].
  rewrite Ht. apply Forall_forall. intros b Hb.
  apply in_map_iff in Hb. destruct Hb as [p [<- _]].
  cbn [bar_x bar_y]. split; [|now rewrite !length_map].
  unfold non_increasing. apply FrameFacts.StronglySorted_map.
  apply FrameFacts.StronglySorted_filter.
  assert (Hk : num_keys 2
                 (map (fun r => [at_pos ix r; at_pos ig r; at_pos iy r])
                    (rows data))).
  { unfold num_keys. apply Forall_forall. intros r Hr.
    apply in_map_iff in Hr. destruct Hr as [r0 [<- Hr0]].
    rewrite forallb_forall in Hnum. apply Hnum.
    apply in_map_iff. exists r0. split; [reflexivity | assumption]. }
  rewrite (FrameFacts.sort_na_last_num 2 _ Hk).
  now apply FrameFacts.sort_rows_desc_sorted.
Qed.

Lemma plot_bar_chart_multivariate_sorted_witness :
  exists fig,
    (wf_frame ex_titles = true
     /\ NoDup ["country"; "kind"; "titles"]
     /\ column "titles" ex_titles
        = Ok [Num (qz 30); Num (qz 50); Num (qz 20); Num (qz 20);
              Num (qz 10)]
     /\ forallb is_num
          [Num (qz 30); Num (qz 50); Num (qz 20); Num (qz 20); Num (qz 10)]
        = true
     /\ plot_bar_chart_multivariate_y_col ex_titles "country" "titles"
          "kind" "Titles" "Country" "Count" 600 800 = Ok fig)
    /\ Forall (fun b => non_increasing (bar_y b)
                        /\ length (bar_x b) = length (bar_y b))
         (traces fig).
Proof.
  destruct (plot_bar_chart_multivariate_y_col ex_titles "country" "titles"
              "kind" "Titles" "Country" "Count" 600 800) as [fig|e] eqn:E;
    [|vm_compute in E; discriminate E].
  exists fig.
  assert (H1 : NoDup ["country"; "kind"; "titles"]).
  { repeat constructor; simpl; intuition discriminate. }
  assert (H2 : column "titles" ex_titles
               = Ok [Num (qz 30); Num (qz 50); Num (qz 20); Num (qz 20);
                     Num (qz 10)]) by reflexivity.
  assert (H3 : forallb is_num
                 [Num (qz 30); Num (qz 50); Num (qz 20); Num (qz 20);
                  Num (qz 10)] = true) by reflexivity.
  assert (H0 : wf_frame ex_titles = true) by reflexivity.
  split; [repeat split; assumption|].
  exact (@plot_bar_chart_multivariate_sorted ex_titles "country" "titles"
           "kind" "Titles" "Country" "Count" 600 800 _ fig H0 H1 H2 H3 E).
Defined.

(** * Tables without association *)

Local Open Scope Qc_scope.






(** * An upper bound on the statistic *)

Lemma Qcmult_nonneg (a b : Qc) : 0 <= a -> 0 <= b -> 0 <= a * b.
Proof.
  intros Ha Hb. rewrite <- (Qcmult_0_l b).
  apply Qcmult_le_compat_r; assumption.
Qed.

Lemma Qcmult_pos (a b : Qc) : 0 < a -> 0 < b -> 0 < a * b.
Proof.
  intros Ha Hb. rewrite <- (Qcmult_0_l b).
  apply Qcmult_lt_compat_r; assumption.
Qed.

Lemma Qc_pos_neq (a : Qc) : 0 < a -> a <> 0.
Proof. intros H E. rewrite E in H. exact (Qclt_not_eq _ _ H eq_refl). Qed.

Lemma Qcinv_nonneg (e : Qc) : 0 < e -> 0 <= / e.
Proof.
  intros He. replace (/ e) with (1 / e) by (unfold Qcdiv; ring).
  apply Qcdiv_nonneg; [|exact He]. discriminate.
Qed.

Lemma Qcle_by_diff (a b : Qc) : 0 <= b - a -> a <= b.
Proof. intros H. apply Qcle_minus_iff. exact H. Qed.

Lemma Qcle_diff (a b : Qc) : a <= b -> 0 <= b - a.
Proof. intros H. apply Qcle_minus_iff in H. exact H. Qed.

Lemma qsum_le {A} (f g : A -> Qc) (l : list A) :
  (forall x, In x l -> f x <= g x) -> qsum (map f l) <= qsum (map g l).
Proof.
  induction l as [|a l IH]; intros H; simpl.
  - apply Qcle_refl.
  - apply Qcplus_le_compat.
    + apply H. now left.
    + apply IH. intros x Hx. apply H. now right.
Qed.

Lemma qsum_member_le (l : list Qc) (a : Qc) :
  (forall x, In x l -> 0 <= x) -> In a l -> a <= qsum l.
Proof.
  induction l as [|b l IH]; intros Hn Ha; [destruct Ha|].
  simpl. destruct Ha as [->|Ha].
  - rewrite <- (Qcplus_0_r a) at 1. apply Qcplus_le_compat.
    + apply Qcle_refl.
    + apply qsum_nonneg. intros x Hx. apply Hn. now right.
  - rewrite <- (Qcplus_0_l a). apply Qcplus_le_compat.
    + apply Hn. now left.
    + apply IH; [|exact Ha]. intros x Hx. apply Hn. now right.
Qed.

(** ** One cell *)

(** A count that does not exceed its column total [c] contributes at most
    [o n / rho - 2 o + rho c / n], [rho] being the row total. *)
Lemma pearson_q_cell_bound (o c rho n : Qc) :
  0 <= o -> o <= c -> 0 < c -> 0 < rho -> 0 < n ->
  pearson_q o (rho * c / n) <= o * (n / rho) - (o + o) + rho / n * c.
Proof.
  intros Ho Hoc Hc Hr Hn.
  pose proof (Qc_pos_neq Hc) as Hc0.
  pose proof (Qc_pos_neq Hr) as Hr0.
  pose proof (Qc_pos_neq Hn) as Hn0.
  apply Qcle_by_diff. unfold pearson_q.
  replace (o * (n / rho) - (o + o) + rho / n * c
           - (o - rho * c / n) * (o - rho * c / n) / (rho * c / n))
    with (o * (c - o) * (n * / (rho * c))) by (field; repeat split; assumption).
  apply Qcmult_nonneg.
  - apply Qcmult_nonneg; [exact Ho | now apply Qcle_diff].
  - apply Qcmult_nonneg; [now apply Qclt_le_weak|].
    apply Qcinv_nonneg. now apply Qcmult_pos.
Qed.

(** The clipped distance [min(1/2, a)] of the continuity correction. *)
Lemma clip_half (a : Qc) :
  0 <= a ->
  0 <= (if Qc_ltb a half then a else half)
  /\ 0 <= a - (if Qc_ltb a half then a else half).
Proof.
  intros Ha. destruct (Qc_ltb a half) eqn:E.
  - split; [exact Ha|]. replace (a - a) with 0 by ring. apply Qcle_refl.
  - apply Qc_ltb_ge in E. split; [discriminate | now apply Qcle_diff].
Qed.

Lemma Qc_sgn_neg (d : Qc) : d < 0 -> Qc_sgn d = (-1)%Z.
Proof.
  unfold Qc_sgn, Qclt, Qlt. simpl. intros H. apply Z.sgn_neg. lia.
Qed.

Lemma Qc_sgn_pos (d : Qc) : 0 < d -> Qc_sgn d = 1%Z.
Proof.
  unfold Qc_sgn, Qclt, Qlt. simpl. intros H. apply Z.sgn_pos. lia.
Qed.

Lemma Qc_square_le (a b : Qc) : 0 <= a -> a <= b -> a * a <= b * b.
Proof.
  intros Ha Hab. apply Qcle_trans with (b * a).
  - apply Qcmult_le_compat_r; assumption.
  - rewrite (Qcmult_comm b a). apply Qcmult_le_compat_r; [assumption|].
    eapply Qcle_trans; eassumption.
Qed.

(** The continuity correction moves a count towards its expected value:
    the corrected count is no farther from it. *)
Lemma yates_q_closer (o e : Qc) :
  (yates_q o e - e) * (yates_q o e - e) <= (o - e) * (o - e).
Proof.
  unfold yates_q. cbv zeta.
  destruct (Qc_ltb (e - o) 0) eqn:E.
  - apply Qc_ltb_lt in E. rewrite (Qc_sgn_neg E).
    assert (Ha : 0 <= - (e - o)).
    { pose proof (Qcopp_le_compat _ _ (Qclt_le_weak _ _ E)) as H.
      now replace (- 0) with 0 in H by ring. }
    destruct (clip_half Ha) as [H1 H2].
    set (mu := if Qc_ltb (- (e - o)) half then - (e - o) else half) in *.
    replace (o + mu * qz (-1) - e) with (- (e - o) - mu)
      by (change (qz (-1)) with (- (1)); ring).
    replace (o - e) with (- (e - o)) by ring.
    apply Qc_square_le; [exact H2|].
    apply Qcle_by_diff.
    replace (- (e - o) - (- (e - o) - mu)) with mu by ring. exact H1.
  - apply Qc_ltb_ge in E.
    destruct (clip_half E) as [H1 H2].
    set (mu := if Qc_ltb (e - o) half then e - o else half) in *.
    destruct (Qcle_lt_or_eq _ _ E) as [Hpos|Hz].
    + rewrite (Qc_sgn_pos Hpos).
      replace ((o + mu * qz 1 - e) * (o + mu * qz 1 - e))
        with ((e - o - mu) * (e - o - mu))
        by (change (qz 1) with 1; ring).
      replace ((o - e) * (o - e)) with ((e - o) * (e - o)) by ring.
      apply Qc_square_le; [exact H2|].
      apply Qcle_by_diff.
      replace (e - o - (e - o - mu)) with mu by ring. exact H1.
    + rewrite <- Hz. change (qz (Qc_sgn 0)) with 0.
      replace (o + mu * 0 - e) with (o - e) by ring. apply Qcle_refl.
Qed.

Lemma pearson_q_yates_le (o e : Qc) :
  0 < e -> pearson_q (yates_q o e) e <= pearson_q o e.
Proof.
  intros He. unfold pearson_q, Qcdiv.
  apply Qcmult_le_compat_r; [apply yates_q_closer | now apply Qcinv_nonneg].
Qed.

(** ** One row *)

Lemma qsum_linear {A} (u v : A -> Qc) (a b : Qc) (l : list A) :
  qsum (map (fun j => u j * a - (u j + u j) + b * v j) l)
  = qsum (map u l) * a - (qsum (map u l) + qsum (map u l))
    + b * qsum (map v l).
Proof.
  induction l as [|x l IH]; simpl; [ring|]. rewrite IH. ring.
Qed.

Lemma col_totals_seq (t : DataFrame) :
  col_totals t = map (fun j => qsum (col 0 j t)) (seq 0 (ncols t)).
Proof. unfold col_totals, transpose. now rewrite map_map. Qed.

Lemma cell_nonneg (t : DataFrame) (r : list Qc) (j : nat) :
  nonneg_cells t = true -> In r t -> 0 <= nth j r 0.
Proof.
  intros Hn Hr. unfold nonneg_cells in Hn.
  rewrite forallb_forall in Hn. specialize (Hn r Hr).
  rewrite forallb_forall in Hn.
  destruct (Nat.lt_ge_cases j (length r)) as [Hj|Hj].
  - specialize (Hn (nth j r 0) (nth_In r 0 Hj)).
    apply Bool.negb_true_iff in Hn. now apply Qc_ltb_ge in Hn.
  - rewrite nth_overflow by exact Hj. apply Qcle_refl.
Qed.

(** A cell is at most the total of its column. *)
Lemma cell_le_col_total (t : DataFrame) (r : list Qc) (j : nat) :
  nonneg_cells t = true -> In r t -> nth j r 0 <= qsum (col 0 j t).
Proof.
  intros Hn Hr. unfold col. apply qsum_member_le.
  - intros x Hx. apply in_map_iff in Hx. destruct Hx as [r' [<- Hr']].
    exact (cell_nonneg t r' j Hn Hr').
  - apply in_map_iff. exists r. split; [reflexivity | exact Hr].
Qed.

Lemma forallb_pos_In (l : list Qc) (x : Qc) :
  forallb (Qc_ltb 0) l = true -> In x l -> 0 < x.
Proof.
  intros H Hx. rewrite forallb_forall in H. apply Qc_ltb_lt. now apply H.
Qed.

(** The cells of one row contribute at most [n - rho] to the Pearson
    statistic, [rho] being the total of the row and [n] the grand total. *)
Lemma pearson_row_bound (t : DataFrame) (r : list Qc) :
  valid_table t = true -> In r t ->
  qsum (map2 pearson_q r
          (map (fun c => qsum r * c / grand_total t) (col_totals t)))
  <= grand_total t - qsum r.
Proof.
  intros Hv Hr.
  pose proof (rect_In _ _ _ (valid_rect t Hv) Hr) as Hlen.
  pose proof (valid_total_pos t Hv) as Hn.
  assert (Hrho : 0 < qsum r).
  { apply (forallb_pos_In (row_totals t)); [exact (valid_rows_pos t Hv)|].
    unfold row_totals. now apply in_map. }
  assert (Hsum : qsum (map (fun j => nth j r 0) (seq 0 (ncols t))) = qsum r).
  { rewrite <- Hlen. now rewrite map_nth_seq. }
  set (rho := qsum r) in *. set (n := grand_total t) in *.
  rewrite col_totals_seq, map_map.
  rewrite <- (map_nth_seq 0 r) at 1. rewrite Hlen.
  rewrite map2_map_map.
  eapply Qcle_trans.
  - apply (qsum_le _
             (fun j => nth j r 0 * (n / rho) - (nth j r 0 + nth j r 0)
                       + rho / n * qsum (col 0 j t))).
    intros j Hj. apply pearson_q_cell_bound.
    + exact (cell_nonneg t r j (valid_nonneg t Hv) Hr).
    + exact (cell_le_col_total t r j (valid_nonneg t Hv) Hr).
    + apply (forallb_pos_In (col_totals t)); [exact (valid_cols_pos t Hv)|].
      rewrite col_totals_seq. apply in_map_iff. exists j. split;
        [reflexivity | exact Hj].
    + exact Hrho.
    + exact Hn.
  - rewrite (qsum_linear (fun j => nth j r 0) (fun j => qsum (col 0 j t))).
    rewrite Hsum. rewrite <- col_totals_seq.
    rewrite (qsum_col_totals t (valid_rect t Hv)). fold n.
    replace (rho * (n / rho) - (rho + rho) + rho / n * n) with (n - rho).
    + apply Qcle_refl.
    + field. split; apply Qc_pos_neq; assumption.
Qed.

(** ** The table *)

Lemma map2_map_r {A B C} (f : A -> B -> C) (g : A -> B) (l : list A) :
  map2 f l (map g l) = map (fun x => f x (g x)) l.
Proof. induction l as [|a l IH]; simpl; [reflexivity | now rewrite IH]. Qed.

Lemma qn_S (k : nat) : qn (S k) = qn k + 1.
Proof.
  unfold qn, qz. apply Qc_is_canon. unfold Qcplus. cbn [this Q2Qc].
  rewrite !Qred_correct. rewrite Nat2Z.inj_succ. unfold Z.succ.
  rewrite inject_Z_plus. reflexivity.
Qed.

Lemma qsum_const_minus {A} (n : Qc) (f : A -> Qc) (l : list A) :
  qsum (map (fun x => n - f x) l) = qn (length l) * n - qsum (map f l).
Proof.
  induction l as [|a l IH].
  - simpl. change (qn 0) with 0. ring.
  - cbn [map qsum fold_right length]. fold (qsum (map (fun x => n - f x) l)).
    fold (qsum (map f l)). rewrite IH, qn_S. ring.
Qed.

Lemma pearson_statistic_bound (t : DataFrame) :
  valid_table t = true ->
  pearson_statistic t <= grand_total t * (qn (nrows t) - 1).
Proof.
  intros Hv. unfold pearson_statistic, expected_counts, tmap2, row_totals.
  rewrite map_map, map2_map_r, map_map.
  eapply Qcle_trans.
  - apply (qsum_le _ (fun r => grand_total t - qsum r)).
    intros r Hr. exact (pearson_row_bound t r Hv Hr).
  - rewrite qsum_const_minus. fold (row_totals t). fold (grand_total t).
    unfold nrows.
    replace (qn (length t) * grand_total t - grand_total t)
      with (grand_total t * (qn (length t) - 1)) by ring.
    apply Qcle_refl.
Qed.

Lemma yates_row_le (ro rE : list Qc) :
  (forall e, In e rE -> 0 < e) ->
  qsum (map2 pearson_q (map2 yates_q ro rE) rE) <= qsum (map2 pearson_q ro rE).
Proof.
  revert rE. induction ro as [|o ro IH]; intros [|e rE] H; simpl;
    try apply Qcle_refl.
  apply Qcplus_le_compat.
  - apply pearson_q_yates_le. apply H. now left.
  - apply IH. intros x Hx. apply H. now right.
Qed.

Lemma yates_table_le (o E : DataFrame) :
  (forall r e, In r E -> In e r -> 0 < e) ->
  qsum (map qsum (tmap2 pearson_q (tmap2 yates_q o E) E))
  <= qsum (map qsum (tmap2 pearson_q o E)).
Proof.
  unfold tmap2. revert E. induction o as [|ro o IH]; intros [|rE E] H; simpl;
    try apply Qcle_refl.
  apply Qcplus_le_compat.
  - apply yates_row_le. intros e He. apply (H rE e); [now left | exact He].
  - apply IH. intros r e Hr He. apply (H r e); [now right | exact He].
Qed.

Lemma chi2_statistic_le_pearson (t : DataFrame) :
  valid_table t = true -> chi2_statistic t <= pearson_statistic t.
Proof.
  intros Hv. unfold chi2_statistic.
  destruct (degrees_of_freedom t =? 1)%Z; [|apply Qcle_refl].
  unfold yates_statistic, pearson_statistic. apply yates_table_le.
  intros r e Hr He. exact (expected_counts_pos t r e Hv Hr He).
Qed.

Lemma grand_total_transpose (t : DataFrame) :
  valid_table t = true -> grand_total (transpose 0 t) = grand_total t.
Proof.
  intros Hv. rewrite <- (qsum_col_totals t (valid_rect t Hv)). reflexivity.
Qed.

(** The statistic is at most [n (min(R, C) - 1)]. *)
Lemma chi2_statistic_bound (t : DataFrame) :
  valid_table t = true ->
  chi2_statistic t
  <= grand_total t * (qn (Nat.min (nrows t) (ncols t)) - 1).
Proof.
  intros Hv.
  assert (HR : chi2_statistic t <= grand_total t * (qn (nrows t) - 1)).
  { eapply Qcle_trans; [exact (chi2_statistic_le_pearson t Hv)|].
    exact (pearson_statistic_bound t Hv). }
  assert (HC : chi2_statistic t <= grand_total t * (qn (ncols t) - 1)).
  { pose proof (transpose_valid t Hv) as HvT.
    destruct (transpose_valid_shape t Hv) as [_ [Hr _]].
    rewrite <- (chi2_statistic_transpose t Hv).
    rewrite <- (grand_total_transpose t Hv), <- Hr.
    eapply Qcle_trans; [exact (chi2_statistic_le_pearson _ HvT)|].
    exact (pearson_statistic_bound _ HvT). }
  destruct (Nat.min_spec (nrows t) (ncols t)) as [[_ ->]|[_ ->]]; assumption.
Qed.

(** X25.  On every valid table of whole counts whose total [n], times
    [k], is in the range of [int64], the value of [cal_cramer_v] is the
    square root of a number below 1: the statistic is at most [n (k - 1)], [k] being the smaller of
    the numbers of rows and columns, and the function divides it by [n k],
    so its value stays below 1 whatever the association. *)
Theorem cal_cramer_v_below_one (chi2_sf : Qc -> Z -> Qc) (t : DataFrame) :
  valid_table t = true -> whole_counts t = true ->
  fits_int64 (grand_total t * qn (Nat.min (nrows t) (ncols t))) = true ->
  exists q, cal_cramer_v chi2_sf t = Ok (Sqrt q) /\ q < 1.
Proof.
  intros Hv _ _.
  set (k := qn (Nat.min (nrows t) (ncols t))).
  set (n := grand_total t).
  set (q := chi2_statistic t / (n * k)).
  assert (Hk : 0 < k).
  { apply qn_pos.
    pose proof (valid_nrows t Hv). pose proof (valid_ncols t Hv). lia. }
  assert (Hn : 0 < n) by exact (valid_total_pos t Hv).
  assert (Hq : 0 <= q).
  { apply Qcdiv_nonneg; [exact (chi2_statistic_nonneg t Hv)|].
    now apply Qcmult_pos. }
  assert (Hb : q * k <= k - 1).
  { apply (Qcmult_lt_0_le_reg_r _ _ n Hn).
    replace (q * k * n) with (chi2_statistic t)
      by (unfold q; field; split; apply Qc_pos_neq; assumption).
    rewrite (Qcmult_comm (k - 1) n). exact (chi2_statistic_bound t Hv). }
  exists q. split.
  - unfold cal_cramer_v.
    rewrite (chi2_contingency_valid chi2_sf t Hv). cbn [bind statistic].
    rewrite np_sum_values. cbn [fmul]. rewrite fdiv_Fin.
    + fold n k q. unfold np_sqrt. apply Qc_ltb_ge in Hq.
      change (qz 0) with 0. now rewrite Hq.
    + apply Qcmult_nonzero; apply Qc_pos_neq; assumption.
  - apply Qcnot_le_lt. intros H1.
    assert (H2 : 1 * k <= q * k)
      by (apply Qcmult_le_compat_r; [exact H1 | now apply Qclt_le_weak]).
    pose proof (Qcle_trans _ _ _ H2 Hb) as H3.
    apply Qcle_minus_iff in H3.
    replace (k - 1 + - (1 * k)) with (- (1)) in H3 by ring.
    exact (H3 eq_refl).
Qed.

Lemma cal_cramer_v_below_one_witness :
  (valid_table ex_diagonal = true /\ whole_counts ex_diagonal = true
   /\ fits_int64 (grand_total ex_diagonal
                  * qn (Nat.min (nrows ex_diagonal) (ncols ex_diagonal)))
      = true)
  /\ exists q, cal_cramer_v sf_sample ex_diagonal = Ok (Sqrt q) /\ q < 1.
Proof.
  assert (Hv : valid_table ex_diagonal = true) by reflexivity.
  assert (Hb : fits_int64 (grand_total ex_diagonal
                           * qn (Nat.min (nrows ex_diagonal)
                                   (ncols ex_diagonal))) = true)
    by (vm_compute; reflexivity).
  assert (Hw : whole_counts ex_diagonal = true) by (vm_compute; reflexivity).
  split; [repeat split; assumption|].
  exact (@cal_cramer_v_below_one sf_sample ex_diagonal Hv Hw Hb).
Defined.
